(** * apollo-agent: symbol cache, task graph and retrying tool invoker

    A shallow embedding of three classes of the agent,

    - [TaskManager]       (src/agent/task-manager.js),
    - [SymbolIndex]       (src/agent/symbol-index.js) over [KnowledgeBase]
                          (src/agent/knowledge-base.js),
    - [MCPClientManager]  (src/mcp/serena-client.js, [callTool]),

    and the properties of the specification that concern them.

    JavaScript numbers are integers of [Z] here (ids, counters, delays:
    every number the modelled code computes is an integer, and powers of two
    times an integer are exact in double precision below 2^53).  Strings are
    [string]; [Date] values are an opaque time stamp passed in by the
    caller, so that every operation is a function of its inputs. *)

From Stdlib Require Import ZArith Ascii String List Bool Lia Sorted.
From stdpp Require Import base option list strings gmap pretty.
From Equations Require Import Equations.

Import ListNotations.
Open Scope string_scope.
Open Scope list_scope.
Open Scope Z_scope.

(** ** JavaScript strings *)

Module JsString.

(** The lower case of an ASCII character: [A]-[Z] go to [a]-[z]. *)
Definition lower_ascii (c : ascii) : ascii :=
  let n := N_of_ascii c in
  if ((65 <=? n) && (n <=? 90))%N then ascii_of_N (n + 32) else c.

Fixpoint lowerAscii (s : string) : string :=
  match s with
  | EmptyString => EmptyString
  | String c s' => String (lower_ascii c) (lowerAscii s')
  end.

(** A string of ASCII characters only. *)
Definition isAscii (s : string) : bool :=
  forallb (fun c => (N_of_ascii c <? 128)%N) (list_ascii_of_string s).

(** [String.prototype.toLowerCase].  How it maps the letters beyond ASCII
    is a matter of the Unicode tables of the engine and is left to the
    runtime; on a string of ASCII characters it changes the letters
    [A]-[Z] and nothing else. *)
Class Unicode := {
  toLowerCase : string -> string;
  toLowerCase_ascii :
    forall s, isAscii s = true -> toLowerCase s = lowerAscii s
}.

(** The runtime that leaves every character beyond ASCII as it is. *)
Definition asciiOnly : Unicode :=
  {| toLowerCase := lowerAscii;
     toLowerCase_ascii := fun s _ => eq_refl |}.

(** [s.startsWith(p)] *)
Fixpoint startsWith (s p : string) : bool :=
  match p, s with
  | EmptyString, _ => true
  | String _ _, EmptyString => false
  | String a p', String b s' => if Ascii.eqb a b then startsWith s' p' else false
  end.

(** [s.includes(sub)]: [sub] occurs in [s] at some position. *)
Fixpoint includes (s sub : string) : bool :=
  if startsWith s sub then true
  else match s with
       | EmptyString => false
       | String _ s' => includes s' sub
       end.

(** Truthiness of a string: only the empty string is falsy. *)
Definition truthy (s : string) : bool :=
  match s with EmptyString => false | String _ _ => true end.

End JsString.

(** A [Date], as the number of milliseconds it holds. *)
Definition Timestamp := Z.

(** ** TaskManager (src/agent/task-manager.js) *)

Module TaskManager.

(** The five status strings the class writes. *)
Inductive Status := pending | in_progress | completed | failed | skipped.

#[global] Instance Status_eq_dec : EqDecision Status.
Proof. solve_decision. Defined.

Record Task := mkTask {
  task_id : Z;
  task_name : string;
  task_status : Status;
  task_type : string;
  task_priority : string;
  task_dependencies : list Z;
  task_result : option string;
  task_error : option string;
  task_startedAt : option Timestamp;
  task_completedAt : option Timestamp
}.

Record Plan := mkPlan {
  plan_id : Timestamp;
  plan_description : string;
  plan_created : Timestamp;
  plan_status : string
}.

(** What [createPlan] and [addTask] read from a task description:
    [task.name || task], [task.type || 'task'],
    [task.priority || 'normal'], [task.dependencies || []]. *)
Record TaskInput := mkTaskInput {
  in_name : string;
  in_type : option string;
  in_priority : option string;
  in_dependencies : option (list Z)
}.

Record t := mkTM {
  tasks : list Task;
  taskIdCounter : Z;
  currentPlan : option Plan
}.

(** [constructor()] *)
Definition init : t :=
  {| tasks := []; taskIdCounter := 1; currentPlan := None |}.

(** [a || b] on an optional string: the empty string is falsy too. *)
Definition or_default (a : option string) (b : string) : string :=
  match a with
  | Some s => if JsString.truthy s then s else b
  | None => b
  end.

Definition newTask (i : Z) (task : TaskInput) : Task :=
  {| task_id := i;
     task_name := in_name task;
     task_status := pending;
     task_type := or_default (in_type task) "task";
     task_priority := or_default (in_priority task) "normal";
     task_dependencies := default [] (in_dependencies task);
     task_result := None;
     task_error := None;
     task_startedAt := None;
     task_completedAt := None |}.

(** [taskList.map(task => ({ id: this.taskIdCounter++, ... }))] *)
Fixpoint mapTasks (counter : Z) (taskList : list TaskInput) : list Task * Z :=
  match taskList with
  | [] => ([], counter)
  | task :: rest =>
      let (ts, c) := mapTasks (counter + 1) rest in
      (newTask counter task :: ts, c)
  end.

Definition createPlan (tm : t) (description : string)
    (taskList : list TaskInput) (now : Timestamp) : t * Plan :=
  let plan := {| plan_id := now; plan_description := description;
                 plan_created := now; plan_status := "in-progress" |} in
  let (ts, c) := mapTasks (taskIdCounter tm) taskList in
  ({| tasks := ts; taskIdCounter := c; currentPlan := Some plan |}, plan).

Definition addTask (tm : t) (task : TaskInput) : t * Task :=
  let nt := newTask (taskIdCounter tm) task in
  ({| tasks := tasks tm ++ [nt];
      taskIdCounter := taskIdCounter tm + 1;
      currentPlan := currentPlan tm |}, nt).

(** [t => t.id === taskId] *)
Definition has_id (taskId : Z) (x : Task) : bool := task_id x =? taskId.

(** Mutation of the object that [this.tasks.find(...)] returned: the
    first element that satisfies [p] is replaced by its image, the rest
    of the array is untouched. *)
Fixpoint update_first (p : Task -> bool) (f : Task -> Task)
    (l : list Task) : list Task :=
  match l with
  | [] => []
  | x :: l' => if p x then f x :: l' else x :: update_first p f l'
  end.

Definition with_tasks (tm : t) (ts : list Task) : t :=
  {| tasks := ts; taskIdCounter := taskIdCounter tm;
     currentPlan := currentPlan tm |}.

(** The common shape of [startTask], [completeTask], [failTask] and
    [skipTask]: find the task, assign to its fields if it was found,
    return what [find] returned ([None] is [undefined]). *)
Definition mutate (tm : t) (taskId : Z) (f : Task -> Task) : t * option Task :=
  match find (has_id taskId) (tasks tm) with
  | Some task =>
      (with_tasks tm (update_first (has_id taskId) f (tasks tm)), Some (f task))
  | None => (tm, None)
  end.

Definition set_started (now : Timestamp) (x : Task) : Task :=
  {| task_id := task_id x; task_name := task_name x;
     task_status := in_progress;
     task_type := task_type x; task_priority := task_priority x;
     task_dependencies := task_dependencies x;
     task_result := task_result x; task_error := task_error x;
     task_startedAt := Some now;
     task_completedAt := task_completedAt x |}.

Definition set_completed (now : Timestamp) (result : option string) (x : Task) : Task :=
  {| task_id := task_id x; task_name := task_name x;
     task_status := completed;
     task_type := task_type x; task_priority := task_priority x;
     task_dependencies := task_dependencies x;
     task_result := result; task_error := task_error x;
     task_startedAt := task_startedAt x;
     task_completedAt := Some now |}.

Definition set_failed (now : Timestamp) (error : option string) (x : Task) : Task :=
  {| task_id := task_id x; task_name := task_name x;
     task_status := failed;
     task_type := task_type x; task_priority := task_priority x;
     task_dependencies := task_dependencies x;
     task_result := task_result x; task_error := error;
     task_startedAt := task_startedAt x;
     task_completedAt := Some now |}.

Definition set_skipped (now : Timestamp) (reason : option string) (x : Task) : Task :=
  {| task_id := task_id x; task_name := task_name x;
     task_status := skipped;
     task_type := task_type x; task_priority := task_priority x;
     task_dependencies := task_dependencies x;
     task_result := reason; task_error := task_error x;
     task_startedAt := task_startedAt x;
     task_completedAt := Some now |}.

Definition startTask (tm : t) (taskId : Z) (now : Timestamp) : t * option Task :=
  mutate tm taskId (set_started now).

Definition completeTask (tm : t) (taskId : Z) (result : option string)
    (now : Timestamp) : t * option Task :=
  mutate tm taskId (set_completed now result).

Definition failTask (tm : t) (taskId : Z) (error : option string)
    (now : Timestamp) : t * option Task :=
  mutate tm taskId (set_failed now error).

Definition skipTask (tm : t) (taskId : Z) (reason : option string)
    (now : Timestamp) : t * option Task :=
  mutate tm taskId (set_skipped now reason).

(** The callback of [dependencies.every]:
    [depTask && depTask.status === 'completed']. *)
Definition dep_completed (ts : list Task) (depId : Z) : bool :=
  match find (has_id depId) ts with
  | Some depTask => bool_decide (task_status depTask = completed)
  | None => false
  end.

(** The callback of [this.tasks.find] in [getNextTask]. *)
Definition is_next (ts : list Task) (task : Task) : bool :=
  if negb (bool_decide (task_status task = pending)) then false
  else if (Z.of_nat (length (task_dependencies task)) =? 0) then true
  else forallb (dep_completed ts) (task_dependencies task).

Definition getNextTask (tm : t) : option Task :=
  find (is_next (tasks tm)) (tasks tm).

Definition is_terminal (x : Task) : bool :=
  bool_decide (task_status x = completed)
  || bool_decide (task_status x = skipped)
  || bool_decide (task_status x = failed).

Definition isComplete (tm : t) : bool := forallb is_terminal (tasks tm).

Definition reset (tm : t) : t :=
  {| tasks := []; taskIdCounter := 1; currentPlan := None |}.

(** The status of the task that [find] resolves [taskId] to. *)
Definition status_of (tm : t) (taskId : Z) : option Status :=
  task_status <$> find (has_id taskId) (tasks tm).

(** [getPendingTasks], [getCompletedTasks] and [getFailedTasks] *)
Definition getPendingTasks (tm : t) : list Task :=
  List.filter (fun x => bool_decide (task_status x = pending)
                        || bool_decide (task_status x = in_progress))
    (tasks tm).

Definition getCompletedTasks (tm : t) : list Task :=
  List.filter (fun x => bool_decide (task_status x = completed)) (tasks tm).

Definition getFailedTasks (tm : t) : list Task :=
  List.filter (fun x => bool_decide (task_status x = failed)) (tasks tm).

(** [Math.round((completed / total) * 100)] is computed on doubles; the
    rounding is kept abstract. *)
Class JsMath := { roundPercent : Z -> Z -> Z }.

Record Progress := mkProgress {
  progress_total : Z;
  progress_completed : Z;
  progress_failed : Z;
  progress_inProgress : Z;
  progress_pending : Z;
  progress_percentage : Z
}.

(** [this.tasks.filter(t => t.status === s).length] *)
Definition countStatus (s : Status) (ts : list Task) : Z :=
  Z.of_nat (length (List.filter (fun x => bool_decide (task_status x = s)) ts)).

(** [getProgress()] *)
Definition getProgress `{JsMath} (tm : t) : Progress :=
  let total := Z.of_nat (length (tasks tm)) in
  let completed := countStatus completed (tasks tm) in
  let failed := countStatus failed (tasks tm) in
  let inProgress := countStatus in_progress (tasks tm) in
  let pending := countStatus pending (tasks tm) in
  {| progress_total := total;
     progress_completed := completed;
     progress_failed := failed;
     progress_inProgress := inProgress;
     progress_pending := pending;
     progress_percentage :=
       if total >? 0 then roundPercent completed total else 0 |}.

(** The object of [toJSON], and the argument of [fromJSON], any field of
    which may be missing. *)
Record Saved := mkSaved {
  saved_tasks : option (list Task);
  saved_taskIdCounter : option Z;
  saved_currentPlan : option Plan
}.

Definition toJSON (tm : t) : Saved :=
  {| saved_tasks := Some (tasks tm);
     saved_taskIdCounter := Some (taskIdCounter tm);
     saved_currentPlan := currentPlan tm |}.

(** [fromJSON(data)]: [data.tasks || []], [data.taskIdCounter || 1] (a
    counter of 0 is falsy), [data.currentPlan || null]. *)
Definition fromJSON (tm : t) (data : Saved) : t :=
  {| tasks := default [] (saved_tasks data);
     taskIdCounter :=
       match saved_taskIdCounter data with
       | Some n => if n =? 0 then 1 else n
       | None => 1
       end;
     currentPlan := saved_currentPlan data |}.

End TaskManager.

(** The state machine and the dependency gate as the specification words
    them, to compare the class with. *)

Module TaskManagerSpec.
Import TaskManager.

(** The four status-changing operations, as one family. *)
Inductive Op := Start | Complete | Fail | Skip.

Definition target (op : Op) : Status :=
  match op with
  | Start => in_progress
  | Complete => completed
  | Fail => failed
  | Skip => skipped
  end.

Definition effect (op : Op) (payload : option string) (now : Timestamp) : Task -> Task :=
  match op with
  | Start => set_started now
  | Complete => set_completed now payload
  | Fail => set_failed now payload
  | Skip => set_skipped now payload
  end.

Definition run (op : Op) (tm : t) (taskId : Z) (payload : option string)
    (now : Timestamp) : t * option Task :=
  match op with
  | Start => startTask tm taskId now
  | Complete => completeTask tm taskId payload now
  | Fail => failTask tm taskId payload now
  | Skip => skipTask tm taskId payload now
  end.

(** The transitions of the specification's state machine. *)
Definition legal (from to : Status) : bool :=
  match from, to with
  | pending, in_progress
  | in_progress, completed
  | in_progress, failed
  | pending, skipped => true
  | _, _ => false
  end.

(** A dependency id resolves to a completed task. *)
Definition resolves_to_completed (ts : list Task) (depId : Z) : Prop :=
  exists depTask,
    find (has_id depId) ts = Some depTask /\ task_status depTask = completed.

(** A pending task all of whose dependencies resolve to completed tasks. *)
Definition runnable (ts : list Task) (x : Task) : Prop :=
  task_status x = pending
  /\ Forall (resolves_to_completed ts) (task_dependencies x).

(** [x] is the first element of [l], in the order of [l], that
    satisfies [P]. *)
Definition first_such {A : Type} (P : A -> Prop) (l : list A) (x : A) : Prop :=
  exists l1 l2, l = l1 ++ x :: l2 /\ P x /\ Forall (fun y => ~ P y) l1.

(** The plan of the specification's example: [A], then [B] and [C] that
    both depend on [A]. *)
Definition abc : t :=
  fst (createPlan init "gate"
         [ mkTaskInput "A" None None None;
           mkTaskInput "B" None None (Some [1]);
           mkTaskInput "C" None None (Some [1]) ] 0).

(** A plan with the single task [A], started and then completed. *)
Definition done_plan : t :=
  let tm1 := fst (createPlan init "one" [mkTaskInput "A" None None None] 0) in
  let tm2 := fst (startTask tm1 1 1) in
  fst (completeTask tm2 1 (Some "ok") 2).

End TaskManagerSpec.

(** ** Insertion-ordered maps ([Map] of JavaScript)

    A [Map] iterates in insertion order and [set] on a present key keeps
    the key's position, so it is embedded as an association list.  [get]
    reads and [set] writes the first pair with the key, [delete] drops
    every pair with the key; the operations keep the keys distinct
    ([JsMapFacts.set_NoDup] and [delete_NoDup]), and on distinct keys these
    are the operations of [Map]. *)

Module JsMap.
Section Ops.
Context {K V : Type} `{EqDecision K}.

Definition t := list (K * V).

Definition empty : t := [].

Fixpoint get (m : t) (k : K) : option V :=
  match m with
  | [] => None
  | (k', v) :: m' => if decide (k' = k) then Some v else get m' k
  end.

Definition has (m : t) (k : K) : bool :=
  match get m k with Some _ => true | None => false end.

Fixpoint set (m : t) (k : K) (v : V) : t :=
  match m with
  | [] => [(k, v)]
  | (k', v') :: m' =>
      if decide (k' = k) then (k, v) :: m' else (k', v') :: set m' k v
  end.

Fixpoint delete (m : t) (k : K) : t :=
  match m with
  | [] => []
  | (k', v') :: m' =>
      if decide (k' = k) then delete m' k else (k', v') :: delete m' k
  end.

Definition size (m : t) : Z := Z.of_nat (length m).
Definition entries (m : t) : list (K * V) := m.
Definition keys (m : t) : list K := map fst m.
Definition values (m : t) : list V := map snd m.
End Ops.
Arguments t : clear implicits.
End JsMap.

(** ** The Node.js modules the classes call

    [path.join] and the MD5 digest of [crypto] are kept abstract; the file
    system is a function from paths to the content [readFile] returns, or
    [None] when [readFile] throws. *)

Class NodeRuntime := {
  path_join : string -> string -> string;
  md5_hex : string -> string
}.

Definition FileSystem := string -> option string.

(** ** Symbols (the payload of the cache) *)

#[local] Unset Elimination Schemes.
Inductive Symbol := mkSymbol (name : string) (kind : Z) (children : list Symbol).
#[local] Set Elimination Schemes.

Definition sym_name (s : Symbol) : string := let 'mkSymbol n _ _ := s in n.
Definition sym_kind (s : Symbol) : Z := let 'mkSymbol _ k _ := s in k.
Definition sym_children (s : Symbol) : list Symbol := let 'mkSymbol _ _ c := s in c.

Record SymbolData := mkSymbolData {
  filePath : string;
  hash : option string;
  symbols : list Symbol;
  indexedAt : Timestamp;
  symbolCount : Z
}.

Record IndexMetadata := mkIndexMetadata {
  lastFullScan : option Timestamp;
  filesIndexed : Z;
  symbolsCount : Z
}.

(** ** KnowledgeBase (src/agent/knowledge-base.js)

    The content of a memory is the JSON text of one of the three values
    the symbol index stores; it is kept as that value. *)

Module KnowledgeBase.

Inductive Content :=
| JsonSymbolData (d : SymbolData)
| JsonMetadata (m : IndexMetadata)
| JsonHashes (h : list (string * option string))
| JsonText (s : string).

Record Metadata := mkMetadata {
  meta_filePath : option string;
  meta_symbolCount : option Z;
  meta_tags : list string;
  createdAt : Timestamp;
  updatedAt : Timestamp
}.

Record Memory := mkMemory {
  mem_name : string;
  mem_category : string;
  mem_content : Content;
  mem_metadata : Metadata
}.

(** [memories] is the in-memory [Map]; [files] is the directory tree
    under [baseDir]: the file [baseDir/dir/name.json] is the key
    [(dir, name)].  Unlinking a file that is there is taken to succeed,
    and in this module so is writing one; [KnowledgeBaseIO] below has
    [store], [update] and [delete] with the writes that fail and the
    categories for which they throw. *)
Record t := mkKB {
  memories : JsMap.t string Memory;
  files : gmap (string * string) Memory
}.

Definition init : t := {| memories := JsMap.empty; files := ∅ |}.

(** [this.categories] *)
Definition categories : list (string * string) :=
  [ ("intel", "intelligence"); ("context", "context");
    ("decisions", "decisions"); ("findings", "findings");
    ("references", "references"); ("symbols", "symbols") ].

(** [this.categories[category] || this.categories.intel], for a category
    that is one of the six keys or no property of the object at all (for
    the names that the object inherits, see
    [KnowledgeBaseIO.categoryPath]). *)
Definition categoryPath (category : string) : string :=
  match JsMap.get categories category with
  | Some dir => dir
  | None => "intelligence"
  end.

(** The fields of [metadata] that the caller passes to [store]. *)
Record MetadataInput := mkMetadataInput {
  given_filePath : option string;
  given_symbolCount : option Z;
  given_tags : list string
}.

Definition store (kb : t) (name : string) (content : Content)
    (category : string) (metadata : MetadataInput) (timestamp : Timestamp)
    : t * Memory :=
  let memory :=
    {| mem_name := name; mem_category := category; mem_content := content;
       mem_metadata :=
         {| meta_filePath := given_filePath metadata;
            meta_symbolCount := given_symbolCount metadata;
            meta_tags := given_tags metadata;
            createdAt := timestamp; updatedAt := timestamp |} |} in
  ({| memories := JsMap.set (memories kb) name memory;
      files := <[(categoryPath category, name) := memory]> (files kb) |},
   memory).

(** The loop of [retrieve] over [Object.values(this.categories)]: the
    first directory that holds [name.json]. *)
Fixpoint readFirst (fs : gmap (string * string) Memory)
    (dirs : list string) (name : string) : option Memory :=
  match dirs with
  | [] => None
  | dir :: rest =>
      match fs !! (dir, name) with
      | Some memory => Some memory
      | None => readFirst fs rest name
      end
  end.

Definition retrieve (kb : t) (name : string) : t * option Memory :=
  if JsMap.has (memories kb) name then (kb, JsMap.get (memories kb) name)
  else
    match readFirst (files kb) (map snd categories) name with
    | Some memory =>
        ({| memories := JsMap.set (memories kb) name memory;
            files := files kb |}, Some memory)
    | None => (kb, None)
    end.

(** [delete]: [false] when nothing is known under [name], or when
    [unlink] throws because the file is not there. *)
Definition delete (kb : t) (name : string) : t * bool :=
  match retrieve kb name with
  | (kb1, None) => (kb1, false)
  | (kb1, Some memory) =>
      let key := (categoryPath (mem_category memory), name) in
      ({| memories := JsMap.delete (memories kb1) name;
          files := base.delete key (files kb1) |},
       bool_decide (is_Some (files kb1 !! key)))
  end.

(** [listByCategory], reduced to the names it lists. *)
Definition listByCategory (kb : t) (category : string) : list string :=
  map fst (List.filter (fun e => String.eqb (mem_category (snd e)) category)
                       (JsMap.entries (memories kb))).

End KnowledgeBase.

(** ** The knowledge base with its errors *)

(** Whether [writeFile] to [baseDir/dir/name.json] succeeds.  It does
    not, for one, when the file name is longer than the file system
    allows. *)
Class DiskRuntime := { writable : string -> string -> bool }.

Module KnowledgeBaseIO.
Import KnowledgeBase.

(** The property names that a plain object inherits from
    [Object.prototype].  For these [this.categories[category]] is a
    function or an object: truthy, and not a string. *)
Definition inheritedKeys : list string :=
  [ "constructor"; "__defineGetter__"; "__defineSetter__"; "hasOwnProperty";
    "__lookupGetter__"; "__lookupSetter__"; "isPrototypeOf";
    "propertyIsEnumerable"; "toString"; "valueOf"; "__proto__";
    "toLocaleString" ].

Definition inherited (category : string) : bool :=
  existsb (String.eqb category) inheritedKeys.

(** [this.categories[category] || this.categories.intel] when it is a
    string; [None] when it is not, and [path.join] throws. *)
Definition categoryPath (category : string) : option string :=
  match JsMap.get categories category with
  | Some dir => Some dir
  | None => if inherited category then None else Some "intelligence"
  end.

(** How a method ends when it does not return: the [TypeError] of
    [path.join], the rejection of [writeFile], or an error raised by the
    class with its message. *)
Inductive Error := PathTypeError | WriteError | Raised (message : string).

(** The memory that [store] builds. *)
Definition newMemory (name : string) (content : Content) (category : string)
    (metadata : MetadataInput) (timestamp : Timestamp) : Memory :=
  {| mem_name := name; mem_category := category; mem_content := content;
     mem_metadata :=
       {| meta_filePath := given_filePath metadata;
          meta_symbolCount := given_symbolCount metadata;
          meta_tags := given_tags metadata;
          createdAt := timestamp; updatedAt := timestamp |} |}.

(** [store(name, content, category, metadata)]: the memory is set in the
    map before the path is joined and the file written. *)
Definition store `{DiskRuntime} (kb : t) (name : string) (content : Content)
    (category : string) (metadata : MetadataInput) (timestamp : Timestamp)
    : t * (Memory + Error) :=
  let memory := newMemory name content category metadata timestamp in
  let kb1 := {| memories := JsMap.set (memories kb) name memory;
                files := files kb |} in
  match categoryPath category with
  | None => (kb1, inr PathTypeError)
  | Some dir =>
      if writable dir name
      then ({| memories := memories kb1;
               files := <[(dir, name) := memory]> (files kb1) |}, inl memory)
      else (kb1, inr WriteError)
  end.

(** [delete(name)]: the memory is deleted from the map before the path
    is joined; [false] when nothing is known under [name], or when
    [unlink] throws because the file is not there. *)
Definition delete (kb : t) (name : string) : t * (bool + Error) :=
  match retrieve kb name with
  | (kb1, None) => (kb1, inl false)
  | (kb1, Some memory) =>
      let kb2 := {| memories := JsMap.delete (memories kb1) name;
                    files := files kb1 |} in
      match categoryPath (mem_category memory) with
      | None => (kb2, inr PathTypeError)
      | Some dir =>
          ({| memories := memories kb2;
              files := base.delete (dir, name) (files kb1) |},
           inl (bool_decide (is_Some (files kb1 !! (dir, name)))))
      end
  end.






End KnowledgeBaseIO.

(** ** SymbolIndex (src/agent/symbol-index.js) *)

Module SymbolIndex.
Import KnowledgeBase.

Record t := mkIndex {
  kb : KnowledgeBase.t;
  cache : JsMap.t string SymbolData;
  fileHashes : JsMap.t string (option string);
  indexMetadata : IndexMetadata
}.

(** [constructor(knowledgeBase)] *)
Definition create (knowledgeBase : KnowledgeBase.t) : t :=
  {| kb := knowledgeBase;
     cache := JsMap.empty;
     fileHashes := JsMap.empty;
     indexMetadata :=
       {| lastFullScan := None; filesIndexed := 0; symbolsCount := 0 |} |}.

(** [filePath.replace(/[\/\.]/g, '_')] *)
Definition safe_char (c : ascii) : ascii :=
  if (Ascii.eqb c "/" || Ascii.eqb c ".")%bool then "_"%char else c.

Fixpoint replace_unsafe (s : string) : string :=
  match s with
  | EmptyString => EmptyString
  | String c s' => String (safe_char c) (replace_unsafe s')
  end.

Definition getMemoryName (filePath : string) : string :=
  "_symbol_" +:+ replace_unsafe filePath.

(** [countSymbols(symbol.children)], the contribution of one turn of
    the loop of [countSymbols]. *)
Fixpoint countBelow (s : Symbol) : Z :=
  let 'mkSymbol _ _ children := s in
  Z.of_nat (length children)
  + (fix sumBelow (l : list Symbol) : Z :=
       match l with
       | [] => 0
       | c :: l' => countBelow c + sumBelow l'
       end) children.

(** [countSymbols(symbols)]: [symbols.length] plus the counts of the
    children. *)
Definition countSymbols (symbols : list Symbol) : Z :=
  Z.of_nat (length symbols)
  + fold_right (fun s n => countBelow s + n) 0 symbols.

(** [stats[symbol.kind] = (stats[symbol.kind] || 0) + 1] *)
Definition bump (kind : Z) (stats : gmap Z Z) : gmap Z Z :=
  <[kind := default 0 (stats !! kind) + 1]> stats.

(** [countSymbolsByKind(symbols, stats)]: the object [stats] is threaded
    through the walk, a node before its children. *)
Fixpoint countSymbolByKind (s : Symbol) (stats : gmap Z Z) : gmap Z Z :=
  let 'mkSymbol _ kind children := s in
  (fix countAll (l : list Symbol) (st : gmap Z Z) : gmap Z Z :=
     match l with
     | [] => st
     | c :: l' => countAll l' (countSymbolByKind c st)
     end) children (bump kind stats).

Definition countSymbolsByKind (symbols : list Symbol) (stats : gmap Z Z)
    : gmap Z Z :=
  fold_left (fun st s => countSymbolByKind s st) symbols stats.

Section WithRuntime.
Context `{NodeRuntime}.

(** [calculateFileHash]: [null] when [readFile] throws. *)
Definition calculateFileHash (fs : FileSystem) (fullPath : string)
    : option string :=
  match fs fullPath with
  | Some content => Some (md5_hex content)
  | None => None
  end.

(** [currentHash !== cachedHash] *)
Definition hasFileChanged (fs : FileSystem) (fullPath : string)
    (cachedHash : option string) : bool :=
  let currentHash := calculateFileHash fs fullPath in
  bool_decide (currentHash <> cachedHash).

(** [saveMetadata] *)
Definition saveMetadata (idx : t) (now : Timestamp) : t :=
  let tags := {| given_filePath := None; given_symbolCount := None;
                 given_tags := ["metadata"; "auto-generated"] |} in
  let kb1 := fst (store (kb idx) "_symbol_index_metadata"
                    (JsonMetadata (indexMetadata idx)) "symbols" tags now) in
  let hashObj := JsMap.entries (fileHashes idx) in
  let kb2 := fst (store kb1 "_symbol_file_hashes"
                    (JsonHashes hashObj) "symbols" tags now) in
  {| kb := kb2; cache := cache idx; fileHashes := fileHashes idx;
     indexMetadata := indexMetadata idx |}.

(** [indexFile(filePath, symbols, projectPath)] *)
Definition indexFile (idx : t) (fs : FileSystem) (filePath : string)
    (symbols : list Symbol) (projectPath : string) (now : Timestamp)
    : t * SymbolData :=
  let fullPath := path_join projectPath filePath in
  let hash := calculateFileHash fs fullPath in
  let symbolData :=
    {| filePath := filePath; hash := hash; symbols := symbols;
       indexedAt := now; symbolCount := countSymbols symbols |} in
  let cache1 := JsMap.set (cache idx) filePath symbolData in
  let hashes1 := JsMap.set (fileHashes idx) filePath hash in
  let memoryName := getMemoryName filePath in
  let kb1 :=
    fst (store (kb idx) memoryName (JsonSymbolData symbolData) "symbols"
           {| given_filePath := Some filePath;
              given_symbolCount := Some (symbolCount symbolData);
              given_tags := ["symbol-index"; "auto-generated"] |} now) in
  let metadata1 :=
    {| lastFullScan := lastFullScan (indexMetadata idx);
       filesIndexed := filesIndexed (indexMetadata idx) + 1;
       symbolsCount := symbolsCount (indexMetadata idx)
                       + symbolCount symbolData |} in
  (saveMetadata {| kb := kb1; cache := cache1; fileHashes := hashes1;
                   indexMetadata := metadata1 |} now,
   symbolData).

(** [getSymbols(filePath, projectPath)]: [None] is [null]. *)
Definition getSymbols (idx : t) (fs : FileSystem) (filePath : string)
    (projectPath : string) : option SymbolData :=
  if negb (JsMap.has (cache idx) filePath) then None
  else
    match JsMap.get (cache idx) filePath with
    | Some cached =>
        let fullPath := path_join projectPath filePath in
        let hasChanged := hasFileChanged fs fullPath (hash cached) in
        if hasChanged then None else Some cached
    | None => None
    end.

(** [needsReindexing(filePath, projectPath)] *)
Definition needsReindexing (idx : t) (fs : FileSystem) (filePath : string)
    (projectPath : string) : bool :=
  if negb (JsMap.has (cache idx) filePath) then true
  else
    match JsMap.get (cache idx) filePath with
    | Some cached =>
        hasFileChanged fs (path_join projectPath filePath) (hash cached)
    | None => true
    end.

(** [invalidate(filePath)] *)
Definition invalidate (idx : t) (filePath : string) (now : Timestamp) : t :=
  let cache1 := JsMap.delete (cache idx) filePath in
  let hashes1 := JsMap.delete (fileHashes idx) filePath in
  let memoryName := getMemoryName filePath in
  let kb1 := fst (KnowledgeBase.delete (kb idx) memoryName) in
  let metadata1 :=
    {| lastFullScan := lastFullScan (indexMetadata idx);
       filesIndexed := Z.max 0 (filesIndexed (indexMetadata idx) - 1);
       symbolsCount := symbolsCount (indexMetadata idx) |} in
  saveMetadata {| kb := kb1; cache := cache1; fileHashes := hashes1;
                  indexMetadata := metadata1 |} now.

(** [clear()] *)
Definition clear (idx : t) (now : Timestamp) : t :=
  let names := listByCategory (kb idx) "symbols" in
  let kb1 := fold_left (fun k name => fst (KnowledgeBase.delete k name))
               names (kb idx) in
  saveMetadata
    {| kb := kb1; cache := JsMap.empty; fileHashes := JsMap.empty;
       indexMetadata :=
         {| lastFullScan := None; filesIndexed := 0; symbolsCount := 0 |} |}
    now.

End WithRuntime.

(** [getCategoryStats()] *)
Definition getCategoryStats (idx : t) : gmap Z Z :=
  fold_left (fun stats data => countSymbolsByKind (symbols data) stats)
    (JsMap.values (cache idx)) ∅.

Record Stats := mkStats {
  stats_lastFullScan : option Timestamp;
  stats_filesIndexed : Z;
  stats_symbolsCount : Z;
  cacheSize : Z;
  categories : gmap Z Z
}.

(** [getStats()]: [{...this.indexMetadata, cacheSize, categories}] *)
Definition getStats (idx : t) : Stats :=
  {| stats_lastFullScan := lastFullScan (indexMetadata idx);
     stats_filesIndexed := filesIndexed (indexMetadata idx);
     stats_symbolsCount := symbolsCount (indexMetadata idx);
     cacheSize := JsMap.size (cache idx);
     categories := getCategoryStats idx |}.

(** *** Search *)

(** [options] of [searchSymbols]: [kind] may be missing, [exactMatch]
    defaults to [false]. *)
Record SearchOptions := mkSearchOptions {
  opt_kind : option Z;
  opt_exactMatch : bool
}.

Definition defaultOptions : SearchOptions :=
  {| opt_kind := None; opt_exactMatch := false |}.

(** An element of the result: [{...symbol, filePath, namePath}]. *)
Record Match := mkMatch {
  match_name : string;
  match_kind : Z;
  match_children : list Symbol;
  match_filePath : string;
  namePath : string
}.

(** [!options.kind]: a missing kind and the number 0 are falsy. *)
Definition no_kind (kind : option Z) : bool :=
  match kind with
  | None => true
  | Some k => k =? 0
  end.

(** [symbol.kind === options.kind] *)
Definition same_kind (k : Z) (kind : option Z) : bool :=
  match kind with
  | None => false
  | Some k' => k =? k'
  end.

(** [parentPath ? `${parentPath}/${symbol.name}` : symbol.name] *)
Definition fullPathOf (parentPath name : string) : string :=
  if JsString.truthy parentPath then parentPath +:+ "/" +:+ name else name.

(** The test of one node: the name test, then the kind filter. *)
Definition matchesName `{U : JsString.Unicode} (options : SearchOptions)
    (searchName name : string) : bool :=
  let symbolName := JsString.toLowerCase name in
  if opt_exactMatch options then String.eqb symbolName searchName
  else JsString.includes symbolName searchName.

Definition selected `{U : JsString.Unicode} (options : SearchOptions)
    (searchName : string) (s : Symbol) : bool :=
  if matchesName options searchName (sym_name s)
  then no_kind (opt_kind options) || same_kind (sym_kind s) (opt_kind options)
  else false.

(** One turn of the loop of [findSymbolsInTree], with the recursive call
    on the children inlined as a local loop (the guard
    [symbol.children && symbol.children.length > 0] only skips a call
    that returns the empty array). *)
Fixpoint findSymbol `{U : JsString.Unicode} (searchName filePath : string)
    (options : SearchOptions) (parentPath : string) (symbol : Symbol)
    : list Match :=
  let 'mkSymbol name kind children := symbol in
  let fullPath := fullPathOf parentPath name in
  let here :=
    if selected options searchName symbol
    then [ {| match_name := name; match_kind := kind;
              match_children := children;
              match_filePath := filePath; namePath := fullPath |} ]
    else [] in
  here ++
  (fix childMatches (l : list Symbol) : list Match :=
     match l with
     | [] => []
     | c :: l' =>
         findSymbol searchName filePath options fullPath c ++ childMatches l'
     end) children.

(** [findSymbolsInTree(symbols, searchName, filePath, options, parentPath)] *)
Definition findSymbolsInTree `{U : JsString.Unicode} (symbols : list Symbol)
    (searchName filePath : string) (options : SearchOptions)
    (parentPath : string) : list Match :=
  flat_map (findSymbol searchName filePath options parentPath) symbols.

(** [searchSymbols(symbolName, options)] *)
Definition searchSymbols `{U : JsString.Unicode} (idx : t) (symbolName : string)
    (options : SearchOptions) : list Match :=
  let lowerName := JsString.toLowerCase symbolName in
  flat_map (fun e : string * SymbolData =>
              let (filePath, data) := e in
              findSymbolsInTree (symbols data) lowerName filePath options "")
    (JsMap.entries (cache idx)).

End SymbolIndex.

(** [saveMetadata] and [indexFile] over [KnowledgeBaseIO]: a write of the
    knowledge base that fails ends the method there, with what was
    assigned before left as it is. *)

Module SymbolIndexIO.
Import KnowledgeBase SymbolIndex.

Section WithRuntime.
Context `{NodeRuntime} `{DiskRuntime}.

Definition with_kb (idx : t) (knowledgeBase : KnowledgeBase.t) : t :=
  {| kb := knowledgeBase; cache := cache idx; fileHashes := fileHashes idx;
     indexMetadata := indexMetadata idx |}.

(** [saveMetadata], with the error that ended it, if any. *)
Definition saveMetadata (idx : t) (now : Timestamp)
    : t * option KnowledgeBaseIO.Error :=
  let tags := {| given_filePath := None; given_symbolCount := None;
                 given_tags := ["metadata"; "auto-generated"] |} in
  match KnowledgeBaseIO.store (kb idx) "_symbol_index_metadata"
          (JsonMetadata (indexMetadata idx)) "symbols" tags now with
  | (kb1, inr error) => (with_kb idx kb1, Some error)
  | (kb1, inl _) =>
      let hashObj := JsMap.entries (fileHashes idx) in
      match KnowledgeBaseIO.store kb1 "_symbol_file_hashes"
              (JsonHashes hashObj) "symbols" tags now with
      | (kb2, inr error) => (with_kb idx kb2, Some error)
      | (kb2, inl _) => (with_kb idx kb2, None)
      end
  end.

(** [indexFile(filePath, symbols, projectPath)] *)
Definition indexFile (idx : t) (fs : FileSystem) (filePath : string)
    (symbols : list Symbol) (projectPath : string) (now : Timestamp)
    : t * (SymbolData + KnowledgeBaseIO.Error) :=
  let fullPath := path_join projectPath filePath in
  let hash := calculateFileHash fs fullPath in
  let symbolData :=
    {| filePath := filePath; hash := hash; symbols := symbols;
       indexedAt := now; symbolCount := countSymbols symbols |} in
  let cache1 := JsMap.set (cache idx) filePath symbolData in
  let hashes1 := JsMap.set (fileHashes idx) filePath hash in
  let memoryName := getMemoryName filePath in
  match KnowledgeBaseIO.store (kb idx) memoryName (JsonSymbolData symbolData)
          "symbols"
          {| given_filePath := Some filePath;
             given_symbolCount := Some (symbolCount symbolData);
             given_tags := ["symbol-index"; "auto-generated"] |} now with
  | (kb1, inr error) =>
      ({| kb := kb1; cache := cache1; fileHashes := hashes1;
          indexMetadata := indexMetadata idx |}, inr error)
  | (kb1, inl _) =>
      let metadata1 :=
        {| lastFullScan := lastFullScan (indexMetadata idx);
           filesIndexed := filesIndexed (indexMetadata idx) + 1;
           symbolsCount := symbolsCount (indexMetadata idx)
                           + symbolCount symbolData |} in
      match saveMetadata {| kb := kb1; cache := cache1; fileHashes := hashes1;
                            indexMetadata := metadata1 |} now with
      | (idx1, Some error) => (idx1, inr error)
      | (idx1, None) => (idx1, inl symbolData)
      end
  end.

(** The three writes of [indexFile] all succeed. *)
Definition writes_succeed (filePath : string) : bool :=
  writable "symbols" (getMemoryName filePath)
  && writable "symbols" "_symbol_index_metadata"
  && writable "symbols" "_symbol_file_hashes".

End WithRuntime.

End SymbolIndexIO.

(** The cache contract and the search in the words of the specification. *)

Module SymbolIndexSpec.
Import SymbolIndex.

(** [lookup(key, currentFingerprint)]: the stored entry when there is one
    for [key] and its fingerprint is [currentFingerprint], absent
    otherwise.  A fingerprint is the digest, or [None] when the source
    could not be read. *)
Definition lookup (idx : t) (key : string)
    (currentFingerprint : option string) : option SymbolData :=
  match JsMap.get (cache idx) key with
  | Some entry =>
      if decide (hash entry = currentFingerprint) then Some entry else None
  | None => None
  end.

(** Pre-order listing of a tree: every node with the names of its
    ancestors, outermost first; a node comes before its children and the
    children keep their order. *)
Fixpoint walk (ancestors : list string) (s : Symbol)
    : list (list string * Symbol) :=
  let 'mkSymbol name _ children := s in
  (ancestors, s) ::
  (fix walkAll (l : list Symbol) : list (list string * Symbol) :=
     match l with
     | [] => []
     | c :: l' => walk (ancestors ++ [name]) c ++ walkAll l'
     end) children.

Definition preorder (ancestors : list string) (symbols : list Symbol)
    : list (list string * Symbol) :=
  flat_map (walk ancestors) symbols.

(** The ancestors' names and the node's own name, joined with ["/"]. *)
Definition qualifiedPath (ancestors : list string) (name : string) : string :=
  String.concat "/" (ancestors ++ [name]).

(** The match condition: the lowercased name equals, or contains, the
    lowercased query, and the kind is the filter's when a filter is
    given. *)
Definition qualifies `{U : JsString.Unicode} (kindFilter : option Z)
    (exactMatch : bool) (query : string) (s : Symbol) : bool :=
  (if exactMatch
   then String.eqb (JsString.toLowerCase (sym_name s)) (JsString.toLowerCase query)
   else JsString.includes (JsString.toLowerCase (sym_name s))
                          (JsString.toLowerCase query))
  && match kindFilter with
     | Some k => sym_kind s =? k
     | None => true
     end.

(** The kind filter that is set in [options]: [!options.kind] counts a
    missing kind and the number 0 alike as no filter. *)
Definition activeKind (options : SearchOptions) : option Z :=
  match opt_kind options with
  | Some k => if k =? 0 then None else Some k
  | None => None
  end.

Definition toMatch (filePath : string) (path : string) (s : Symbol) : Match :=
  {| match_name := sym_name s; match_kind := sym_kind s;
     match_children := sym_children s;
     match_filePath := filePath; namePath := path |}.

(** The search of the specification over one entry, and over the cache. *)
Definition searchEntry `{U : JsString.Unicode} (kindFilter : option Z)
    (exactMatch : bool) (query : string) (filePath : string)
    (symbols : list Symbol) : list Match :=
  map (fun p => toMatch filePath (qualifiedPath (fst p) (sym_name (snd p))) (snd p))
      (List.filter (fun p => qualifies kindFilter exactMatch query (snd p))
              (preorder [] symbols)).

Definition search `{U : JsString.Unicode} (idx : t) (kindFilter : option Z)
    (exactMatch : bool) (query : string) : list Match :=
  flat_map (fun e => searchEntry kindFilter exactMatch query (fst e)
                       (symbols (snd e)))
    (JsMap.entries (cache idx)).

(** The path the class builds from the same data: a prefix that is the
    empty string is dropped together with its separator. *)
Definition builtPath (ancestors : list string) (name : string) : string :=
  fullPathOf (fold_left fullPathOf ancestors "") name.

(** A list of names without the empty names at its outermost end. *)
Fixpoint dropEmpty (names : list string) : list string :=
  match names with
  | EmptyString :: rest => dropEmpty rest
  | _ => names
  end.

(** Every root that has children has a name. *)
Definition roots_named (symbols : list Symbol) : Prop :=
  Forall (fun s => sym_children s = [] \/ sym_name s <> "") symbols.

(** Every name in the forest is made of ASCII characters. *)
Definition asciiNames (symbols : list Symbol) : bool :=
  forallb (fun p => JsString.isAscii (sym_name (snd p))) (preorder [] symbols).

(** The nesting [A > B > C] of the specification's example. *)
Definition nestedABC : list Symbol :=
  [ mkSymbol "A" 5 [ mkSymbol "B" 6 [ mkSymbol "C" 12 [] ] ] ].

End SymbolIndexSpec.

(** ** MCPClientManager.callTool (src/mcp/serena-client.js) *)

Module MCPClientManager.

Record Error := mkError { message : string }.

(** What [client.callTool] resolves to; its shape is not looked at. *)
Definition Result := string.

(** A connected SDK client, named by the server it talks to. *)
Inductive Client := client_of (server : string).

Record t := mkManager {
  clients : JsMap.t string Client;
  transports : JsMap.t string Client;
  serenaProjectPath : option string
}.

Record Options := mkOptions {
  maxRetries : option Z;
  retryDelayMs : option Z;
  timeout : option Z
}.

(** [a || b] on an optional number: a missing number and 0 are falsy. *)
Definition or_number (a : option Z) (b : Z) : Z :=
  match a with
  | Some n => if n =? 0 then b else n
  | None => b
  end.

(** What the outside world does during one turn of the loop: whether the
    Serena transport has closed since the turn before (its [onclose]
    handler forgets the client), how a reconnection ends if one is
    tried ([None]: it succeeds), and how the remote call ends, given the
    time-out it is made with. *)
Record Turn := mkTurn {
  closed : bool;
  connect : option Error;
  invoke : Z -> Result + Error
}.

Definition World := Z -> Turn.

(** [transport.onclose] of [connectSerena] *)
Definition onclose (m : t) : t :=
  {| clients := JsMap.delete (clients m) "serena";
     transports := JsMap.delete (transports m) "serena";
     serenaProjectPath := serenaProjectPath m |}.

(** The end of [connectSerena] and [connectSequentialThinking], once
    [client.connect] has succeeded. *)
Definition connected (m : t) (server : string) : t :=
  {| clients := JsMap.set (clients m) server (client_of server);
     transports := JsMap.set (transports m) server (client_of server);
     serenaProjectPath := serenaProjectPath m |}.

Definition projectPath_set (m : t) : bool :=
  match serenaProjectPath m with
  | Some p => JsString.truthy p
  | None => false
  end.

(** The [try] block of one turn. *)
Definition tryBody (turn : Turn) (m : t) (serverName toolName : string)
    (options : Options) : t * (Result + Error) :=
  let m := if closed turn then onclose m else m in
  let isShellCommand := String.eqb toolName "execute_shell_command" in
  let timeout := or_number (timeout options)
                   (if isShellCommand then 120000 else 60000) in
  match JsMap.get (clients m) serverName with
  | Some client => (m, invoke turn timeout)
  | None =>
      if String.eqb serverName "serena" && projectPath_set m then
        match connect turn with
        | None => (connected m "serena", invoke turn timeout)
        | Some e => (m, inr e)
        end
      else if String.eqb serverName "sequential-thinking" then
        match connect turn with
        | None => (connected m "sequential-thinking", invoke turn timeout)
        | Some e => (m, inr e)
        end
      else (m, inr (mkError ("Not connected to " +:+ serverName)))
  end.

(** [isRetryable] of the [catch] block *)
Definition isRetryable (error : Error) : bool :=
  JsString.includes (message error) "fetch failed"
  || JsString.includes (message error) "ECONNRESET"
  || JsString.includes (message error) "ETIMEDOUT"
  || JsString.includes (message error) "timeout"
  || JsString.includes (message error) "disconnected".

(** [new Error(`MCP tool '${toolName}' failed after ${attempt} attempts: ${error.message}`)] *)
Definition failedAfter (toolName : string) (attempt : Z) (error : Error) : Error :=
  mkError ("MCP tool '" +:+ toolName +:+ "' failed after " +:+ pretty attempt
           +:+ " attempts: " +:+ message error).

(** What the caller can observe of a call: the turns made and the
    delays slept, in order. *)
Inductive Event := Attempt (n : Z) | Sleep (ms : Z).

(** How a call ends; [ThrownUndefined] is [throw lastError] with
    [lastError] never assigned. *)
Inductive Outcome :=
| Returned (r : Result)
| Thrown (e : Error)
| ThrownUndefined.

Definition throwLast (lastError : option Error) : Outcome :=
  match lastError with
  | Some e => Thrown e
  | None => ThrownUndefined
  end.

Definition Run : Type := t * list Event * Outcome.

Definition log (ev : list Event) (r : Run) : Run :=
  let '(m, trace, out) := r in (m, ev ++ trace, out).

(** The [for] loop of [callTool], from the turn [attempt] on. *)
Equations? loop (world : World) (serverName toolName : string)
    (options : Options) (maxRetries retryDelayMs : Z)
    (attempt : Z) (m : t) (lastError : option Error) : Run
    by wf (Z.to_nat (maxRetries + 1 - attempt)) lt :=
  loop world serverName toolName options maxRetries retryDelayMs
       attempt m lastError with Z_le_dec attempt maxRetries => {
    | right _ := (m, [], throwLast lastError);
    | left _ with tryBody (world attempt) m serverName toolName options => {
        | (m1, inl r) := (m1, [Attempt attempt], Returned r);
        | (m1, inr error) with (attempt <? maxRetries) && isRetryable error => {
            | true :=
                let delay := retryDelayMs * 2 ^ (attempt - 1) in
                log [Attempt attempt; Sleep delay]
                  (loop world serverName toolName options maxRetries
                     retryDelayMs (attempt + 1) m1 (Some error));
            | false with (attempt >=? maxRetries) => {
                | true := (m1, [Attempt attempt],
                           Thrown (failedAfter toolName attempt error));
                | false := (m1, [Attempt attempt], Thrown error) } } } }.
Proof. lia. Qed.

(** [callTool(serverName, toolName, args, options)]; the arguments of the
    tool are only passed on and left out. *)
Definition callTool (world : World) (m : t) (serverName toolName : string)
    (options : Options) : Run :=
  let maxRetries := or_number (maxRetries options) 3 in
  let retryDelayMs := or_number (retryDelayMs options) 1000 in
  loop world serverName toolName options maxRetries retryDelayMs 1 m None.

End MCPClientManager.

(** The retry policy in the words of the specification. *)

Module InvokerSpec.
Import MCPClientManager.

(** [baseDelay * 2^(attempt-1)] *)
Definition backoff (baseDelay attempt : Z) : Z := baseDelay * 2 ^ (attempt - 1).

Definition effectiveRetries (options : Options) : Z :=
  or_number (maxRetries options) 3.

Definition effectiveDelay (options : Options) : Z :=
  or_number (retryDelayMs options) 1000.

(** The events of a run. *)
Definition trace_of (r : Run) : list Event := snd (fst r).

(** The number of turns in a trace. *)
Definition isAttempt (e : Event) : bool :=
  match e with Attempt _ => true | Sleep _ => false end.

Definition attemptsMade (trace : list Event) : Z :=
  Z.of_nat (length (List.filter isAttempt trace)).

(** [retried world server tool options n m trace]: the turns [1 .. n-1]
    of a call that started in [m0] all failed with a retryable error and
    were retried; [m] is the manager before turn [n] and [trace] what
    has been observed so far. *)
Inductive retried (world : World) (m0 : t) (serverName toolName : string)
    (options : Options) : Z -> t -> option Error -> list Event -> Prop :=
| retried_none : retried world m0 serverName toolName options 1 m0 None []
| retried_more n m last trace m1 error :
    retried world m0 serverName toolName options n m last trace ->
    n < effectiveRetries options ->
    tryBody (world n) m serverName toolName options = (m1, inr error) ->
    isRetryable error = true ->
    retried world m0 serverName toolName options (n + 1) m1 (Some error)
      (trace ++ [Attempt n; Sleep (backoff (effectiveDelay options) n)]).

(** A world in which every remote call fails with a connection reset. *)
Definition alwaysReset : World :=
  fun _ => {| closed := false; connect := None;
              invoke := fun _ => inr (mkError "read ECONNRESET") |}.

(** A world in which every remote call is refused for its arguments. *)
Definition alwaysRefused : World :=
  fun _ => {| closed := false; connect := None;
              invoke := fun _ => inr (mkError "Invalid arguments") |}.

(** A world in which the remote call is reset on the turns before
    [turn] and refused for its arguments from then on. *)
Definition refusedOn (turn : Z) : World :=
  fun n => {| closed := false; connect := None;
              invoke := fun _ =>
                if n <? turn then inr (mkError "read ECONNRESET")
                else inr (mkError "Invalid arguments") |}.

(** A manager that is connected to Serena. *)
Definition online : t :=
  connected {| clients := JsMap.empty; transports := JsMap.empty;
               serenaProjectPath := Some "/repo" |} "serena".

End InvokerSpec.

(** Concrete data for the examples. *)

Module Examples.
Import SymbolIndex.

(** A stand-in for the Node.js modules: [path.join] on two plain
    segments, and a digest that is the content itself (two contents have
    one digest exactly when they are equal). *)
Definition exampleRuntime : NodeRuntime :=
  {| path_join := fun a b => a +:+ "/" +:+ b;
     md5_hex := fun content => content |}.

(** A volume that takes file names of up to 255 characters. *)
Definition exampleVolume : DiskRuntime :=
  {| writable := fun dir name => (String.length name + 5 <=? 255)%nat |}.

(** A path of 253 characters. *)
Definition longPath : string :=
  String.concat "" (List.repeat "a" 250) +:+ ".js".

(** No file can be read. *)
Definition unreadable : FileSystem := fun _ => None.

(** Only [/repo/a.js] can be read. *)
Definition disk (content : string) : FileSystem :=
  fun p => if String.eqb p "/repo/a.js" then Some content else None.

(** A class with two methods. *)
Definition payload : list Symbol :=
  [ mkSymbol "Parser" 5 [ mkSymbol "parse" 6 []; mkSymbol "reset" 6 [] ] ].

Definition fresh : t := create KnowledgeBase.init.

(** The index that holds the given forest for [a.js], and nothing else. *)
Definition indexOf (symbols : list Symbol) : t :=
  fst (@indexFile exampleRuntime fresh (disk "v1") "a.js" symbols "/repo" 10).

(** A root without a name, above a node [B]. *)
Definition namelessRoot : list Symbol :=
  [ mkSymbol "" 5 [ mkSymbol "B" 6 [] ] ].

(** A node without a name between the root [A] and a node [B]. *)
Definition namelessInner : list Symbol :=
  [ mkSymbol "A" 5 [ mkSymbol "" 5 [ mkSymbol "B" 6 [] ] ] ].

(** The index after [a.js] has been registered once. *)
Definition indexedOnce : t :=
  fst (@indexFile exampleRuntime fresh (disk "v1") "a.js" payload "/repo" 10).

End Examples.

(** ** The agent's use of the three classes (class [ApolloAgent])

    The terminal output of the agent is left out; what remains of each
    method is its effect on the task manager, the symbol index and the MCP
    client manager. *)

Module ApolloAgentTasks.
Import TaskManager.

(** [updateTaskProgress(toolName, args)]: the next task, if there is one
    and it is pending, is started. *)
Definition updateTaskProgress (tm : t) (now : Timestamp) : t :=
  match getNextTask tm with
  | Some nextTask =>
      if bool_decide (task_status nextTask = pending)
      then fst (startTask tm (task_id nextTask) now)
      else tm
  | None => tm
  end.

(** [this.taskManager.tasks.find(t => t.status === 'in-progress')] *)
Definition currentTask (tm : t) : option Task :=
  find (fun x => bool_decide (task_status x = in_progress)) (tasks tm).

(** [completeCurrentTask(result)] *)
Definition completeCurrentTask (tm : t) (result : option string)
    (now : Timestamp) : t :=
  match currentTask tm with
  | Some task => fst (completeTask tm (task_id task) result now)
  | None => tm
  end.

(** The [catch] of [processTask]: the task in progress, if any, is marked
    failed with the message of the error. *)
Definition failCurrentTask (tm : t) (message : string) (now : Timestamp) : t :=
  match currentTask tm with
  | Some task => fst (failTask tm (task_id task) (Some message) now)
  | None => tm
  end.

End ApolloAgentTasks.

(** The managers a driver reaches through the methods of [TaskManager]
    (all but [fromJSON], which installs whatever it is given), and the
    shape of a plan. *)

Module TaskManagerRuns.
Import TaskManager TaskManagerSpec ApolloAgentTasks.

Inductive reachable : t -> Prop :=
| reach_init : reachable init
| reach_createPlan tm description taskList now :
    reachable tm -> reachable (fst (createPlan tm description taskList now))
| reach_addTask tm task :
    reachable tm -> reachable (fst (addTask tm task))
| reach_run op tm taskId payload now :
    reachable tm -> reachable (fst (run op tm taskId payload now))
| reach_reset tm :
    reachable tm -> reachable (reset tm).

Definition ids (ts : list Task) : list Z := map task_id ts.

(** [issued tm given]: the manager [tm] is reached from a new one, and
    [given] are the ids handed out on the way since the last [reset] (or
    since the start), in the order in which they were handed out. *)
Inductive issued : t -> list Z -> Prop :=
| issued_init : issued init []
| issued_createPlan tm given description taskList now :
    issued tm given ->
    issued (fst (createPlan tm description taskList now))
      (given ++ ids (tasks (fst (createPlan tm description taskList now))))
| issued_addTask tm given task :
    issued tm given ->
    issued (fst (addTask tm task))
      (given ++ [task_id (snd (addTask tm task))])
| issued_run op tm given taskId payload now :
    issued tm given ->
    issued (fst (run op tm taskId payload now)) given
| issued_reset tm given :
    issued tm given -> issued (reset tm) [].

(** Every dependency of a task is the id of a task that comes before it in
    the list. *)
Fixpoint deps_backward (seen : list Z) (ts : list Task) : Prop :=
  match ts with
  | [] => True
  | x :: rest =>
      Forall (fun d => In d seen) (task_dependencies x)
      /\ deps_backward (seen ++ [task_id x]) rest
  end.

(** A task once it has been started and completed by one round. *)
Definition done_at (now : Timestamp) (x : Task) : Task :=
  set_completed now None (set_started now x).

(** One round of the driver: start the next task, then complete the task
    in progress. *)
Definition round (tm : t) (now : Timestamp) : t :=
  completeCurrentTask (updateTaskProgress tm now) None now.

Fixpoint rounds (n : nat) (tm : t) (now : Timestamp) : t :=
  match n with
  | O => tm
  | S n' => rounds n' (round tm now) now
  end.

End TaskManagerRuns.

(** The indexes a caller reaches through the methods of [SymbolIndex] that
    write, from a new index over a knowledge base, and the count that the
    per-kind statistics are compared with. *)

Module SymbolIndexRuns.
Import SymbolIndex SymbolIndexSpec.

Inductive reachable `{NodeRuntime} (knowledgeBase : KnowledgeBase.t) : t -> Prop :=
| reach_create : reachable knowledgeBase (create knowledgeBase)
| reach_indexFile idx fs filePath symbols projectPath now :
    reachable knowledgeBase idx ->
    reachable knowledgeBase
      (fst (indexFile idx fs filePath symbols projectPath now))
| reach_invalidate idx filePath now :
    reachable knowledgeBase idx ->
    reachable knowledgeBase (invalidate idx filePath now)
| reach_clear idx now :
    reachable knowledgeBase idx ->
    reachable knowledgeBase (clear idx now).

(** The nodes of the cached forests, entry after entry, each forest in
    pre-order. *)
Definition cachedNodes (idx : t) : list Symbol :=
  flat_map (fun e => map snd (preorder [] (symbols (snd e))))
    (JsMap.entries (cache idx)).

(** The number of nodes of one kind in a list of nodes. *)
Definition ofKind (k : Z) (l : list Symbol) : Z :=
  Z.of_nat (length (List.filter (fun s => sym_kind s =? k) l)).

(** The number of cached nodes of one kind. *)
Definition nodesOfKind (kind : Z) (idx : t) : Z :=
  Z.of_nat (length (List.filter (fun s => sym_kind s =? kind) (cachedNodes idx))).

(** The two names under which [saveMetadata] stores. *)
Definition metadataName : string := "_symbol_index_metadata".
Definition hashesName : string := "_symbol_file_hashes".

(** What the knowledge base holds under a name, in memory and in the
    directory of the symbols. *)
Definition held (idx : t) (name : string) : option KnowledgeBase.Content :=
  KnowledgeBase.mem_content <$> JsMap.get (KnowledgeBase.memories (kb idx)) name.

Definition onDisk (idx : t) (name : string) : option KnowledgeBase.Content :=
  KnowledgeBase.mem_content
    <$> KnowledgeBase.files (kb idx) !! ("symbols", name).

(** The knowledge base holds the counters and the file hashes of the
    index. *)
Definition persisted (idx : t) : Prop :=
  held idx metadataName = Some (KnowledgeBase.JsonMetadata (indexMetadata idx))
  /\ held idx hashesName
     = Some (KnowledgeBase.JsonHashes (JsMap.entries (fileHashes idx)))
  /\ onDisk idx metadataName
     = Some (KnowledgeBase.JsonMetadata (indexMetadata idx))
  /\ onDisk idx hashesName
     = Some (KnowledgeBase.JsonHashes (JsMap.entries (fileHashes idx))).

(** The two maps of the index agree, and an entry describes itself: the
    hash recorded for a path is the hash of its entry, an entry is filed
    under its own path and its count is the count of its symbols. *)
Definition consistent (idx : t) : Prop :=
  forall key,
    JsMap.get (fileHashes idx) key = hash <$> JsMap.get (cache idx) key
    /\ (forall entry,
          JsMap.get (cache idx) key = Some entry ->
          filePath entry = key
          /\ symbolCount entry = countSymbols (symbols entry)).

End SymbolIndexRuns.

(** The shape of what a call shows, to compare [callTool] with. *)

Module InvokerRuns.
Import MCPClientManager InvokerSpec.

(** [turns] turns from the turn [first] on, with the backoff delay after
    each turn but the last. *)
Fixpoint schedule (baseDelay first : Z) (turns : nat) : list Event :=
  match turns with
  | O => []
  | S k =>
      match k with
      | O => [Attempt first]
      | S _ =>
          Attempt first :: Sleep (backoff baseDelay first)
          :: schedule baseDelay (first + 1) k
      end
  end.

(** The time slept in a trace. *)
Definition slept (trace : list Event) : Z :=
  fold_right (fun e n => match e with Sleep ms => ms + n | Attempt _ => n end)
    0 trace.

Definition manager_of (r : Run) : t := fst (fst r).
Definition outcome_of (r : Run) : Outcome := snd r.

(** A world in which the remote call is reset twice and then answers. *)
Definition thirdTimeLucky : World :=
  fun n => {| closed := false; connect := None;
              invoke := fun _ => if n <? 3 then inr (mkError "read ECONNRESET")
                                 else inl "[]" |}.

(** A manager that is connected to nothing and knows no project path. *)
Definition offline : t :=
  {| clients := JsMap.empty; transports := JsMap.empty;
     serenaProjectPath := None |}.

End InvokerRuns.

(** ** The agent's symbol methods (class [ApolloAgent]) *)

(** [JSON.parse(result.result)], as the array of symbols it yields; [None]
    when it throws, or yields a value the index cannot walk (the error is
    then raised by [indexFile] before it stores anything). *)
Class JsonRuntime := { parseSymbols : string -> option (list Symbol) }.

Module ApolloAgentSymbols.
Import MCPClientManager.

(** The fields of an agent that the symbol methods use, once
    [initialize] has created the symbol index; [projectPath] is a string
    from the constructor on. *)
Record t := mkAgent {
  symbolIndex : SymbolIndex.t;
  mcp : MCPClientManager.t;
  projectPath : string
}.

(** What [getFileSymbols] returns: the symbols, [null], or nothing. *)
Inductive Answer := Symbols (symbols : list Symbol) | Null | Undefined.

Definition with_mcp (agent : t) (m : MCPClientManager.t) : t :=
  {| symbolIndex := symbolIndex agent; mcp := m;
     projectPath := projectPath agent |}.

Definition overviewTool : string := "mcp_oraios_serena_get_symbols_overview".

(** [getFileSymbols(filePath, { depth, forceRefresh })].  The result of
    the remote call is the text of its [result] field (the empty text when
    the field is missing); [depth] only travels to the remote end.  The
    [catch] answers [null] for whatever the [try] block throws: the
    remote call, [JSON.parse], and [indexFile] when a write of the
    knowledge base fails, after it has set the cache. *)
Definition getFileSymbols `{NodeRuntime} `{DiskRuntime} `{JsonRuntime} (agent : t)
    (fs : FileSystem) (world : World) (filePath : string)
    (forceRefresh : bool) (now : Timestamp) : t * list Event * Answer :=
  let cached :=
    if negb forceRefresh
    then SymbolIndex.getSymbols (symbolIndex agent) fs filePath
           (projectPath agent)
    else None in
  match cached with
  | Some entry => (agent, [], Symbols (symbols entry))
  | None =>
      let '(m1, trace, outcome) :=
        callTool world (mcp agent) "serena" overviewTool
          (mkOptions None None None) in
      match outcome with
      | Returned result =>
          if JsString.truthy result then
            match parseSymbols result with
            | Some symbols =>
                let (idx1, indexed) :=
                  SymbolIndexIO.indexFile (symbolIndex agent) fs filePath
                    symbols (projectPath agent) now in
                ({| symbolIndex := idx1; mcp := m1;
                    projectPath := projectPath agent |},
                 trace,
                 match indexed with
                 | inl _ => Symbols symbols
                 | inr _ => Null
                 end)
            | None => (with_mcp agent m1, trace, Null)
            end
          else (with_mcp agent m1, trace, Undefined)
      | Thrown _ | ThrownUndefined => (with_mcp agent m1, trace, Null)
      end
  end.

(** The parts of what [getFileSymbols] yields here: the agent after the
    call, the turns and delays of the remote call, the answer. *)
Definition agent_of (r : t * list Event * Answer) : t := fst (fst r).
Definition events_of (r : t * list Event * Answer) : list Event := snd (fst r).
Definition answer_of (r : t * list Event * Answer) : Answer := snd r.

(** The counters that [indexFiles] returns beside the statistics. *)
Record Indexed := mkIndexed { indexed : Z; failed : Z }.

(** The loop of [indexFiles(filePaths, depth)]; the file at position [i]
    is fetched in the world [worlds i].  Neither [needsReindexing] nor
    [getFileSymbols] throws, so the [catch] that counts [failed] is never
    entered. *)
Fixpoint indexLoop `{NodeRuntime} `{DiskRuntime} `{JsonRuntime}
    (worlds : nat -> World)
    (i : nat) (agent : t) (fs : FileSystem) (filePaths : list string)
    (now : Timestamp) (count : Indexed) : t * list Event * Indexed :=
  match filePaths with
  | [] => (agent, [], count)
  | filePath :: rest =>
      let needsUpdate :=
        SymbolIndex.needsReindexing (symbolIndex agent) fs filePath
          (projectPath agent) in
      if negb needsUpdate
      then indexLoop worlds (S i) agent fs rest now count
      else
        let '(agent1, trace, _) :=
          getFileSymbols agent fs (worlds i) filePath true now in
        let '(agent2, trace2, count2) :=
          indexLoop worlds (S i) agent1 fs rest now
            {| indexed := indexed count + 1; failed := failed count |} in
        (agent2, trace ++ trace2, count2)
  end.

Definition indexFiles `{NodeRuntime} `{DiskRuntime} `{JsonRuntime}
    (worlds : nat -> World) (agent : t) (fs : FileSystem) (filePaths : list string) (now : Timestamp)
    : t * list Event * (Indexed * SymbolIndex.Stats) :=
  let '(agent1, trace, count) :=
    indexLoop worlds 0 agent fs filePaths now {| indexed := 0; failed := 0 |} in
  (agent1, trace, (count, SymbolIndex.getStats (symbolIndex agent1))).

(** [invalidateSymbolCache(filePaths)] *)
Definition invalidateSymbolCache (agent : t) (filePaths : list string)
    (now : Timestamp) : t :=
  {| symbolIndex :=
       fold_left (fun idx filePath => SymbolIndex.invalidate idx filePath now)
         filePaths (symbolIndex agent);
     mcp := mcp agent; projectPath := projectPath agent |}.

(** A parser for the examples: the text ["[]"] is the empty array, the
    text ["[Parser]"] the forest of the examples, anything else is
    rejected. *)
Definition exampleJson : JsonRuntime :=
  {| parseSymbols := fun text =>
       if String.eqb text "[]" then Some []
       else if String.eqb text "[Parser]" then Some Examples.payload
       else None |}.

End ApolloAgentSymbols.
(** * Properties *)

(** ** JavaScript strings *)

Module JsStringFacts.
Import JsString.

Lemma startsWith_empty s : startsWith s "" = true.
Proof. destruct s; reflexivity. Qed.

Lemma includes_empty s : includes s "" = true.
Proof. destruct s; reflexivity. Qed.

Lemma truthy_false s : truthy s = false <-> s = "".
Proof. destruct s; simpl; split; congruence. Qed.

End JsStringFacts.

(** ** Facts about [find] and in-place update *)

Section FindFacts.
Import TaskManagerSpec.
Context {A : Type}.
Implicit Types (p : A -> bool) (l : list A).

Lemma find_Some_first p l x :
  find p l = Some x <-> first_such (fun y => p y = true) l x.
Proof.
  unfold first_such. induction l as [|a l IH]; simpl.
  - split; [discriminate|]. intros ([|? ?] & l2 & E & _); discriminate.
  - destruct (p a) eqn:Ha.
    + split.
      * intros [= ->]. exists [], l. repeat split; auto.
      * intros (l1 & l2 & E & Hx & Hl1). destruct l1 as [|b l1]; simpl in E.
        -- congruence.
        -- injection E as -> ->. inversion Hl1; subst. congruence.
    + rewrite IH. split.
      * intros (l1 & l2 & -> & Hx & Hl1). exists (a :: l1), l2.
        repeat split; auto. constructor; [congruence | assumption].
      * intros (l1 & l2 & E & Hx & Hl1). destruct l1 as [|b l1]; simpl in E.
        -- injection E as -> ->. congruence.
        -- injection E as -> ->. inversion Hl1; subst. eauto.
Qed.

Lemma find_None_all p l :
  find p l = None <-> Forall (fun y => p y = false) l.
Proof.
  induction l as [|a l IH]; simpl.
  - split; auto.
  - destruct (p a) eqn:Ha.
    + split; [discriminate|]. inversion 1; congruence.
    + rewrite IH. split; [constructor; auto | inversion 1; auto].
Qed.

Lemma first_such_ext (P Q : A -> Prop) l x :
  (forall y, P y <-> Q y) -> first_such P l x <-> first_such Q l x.
Proof.
  intros HPQ. unfold first_such. split.
  - intros (l1 & l2 & E & Hx & Hl1). exists l1, l2. repeat split; auto.
    + by apply HPQ.
    + eapply Forall_impl; [exact Hl1|]. intros y Hy HQ. by apply Hy, HPQ.
  - intros (l1 & l2 & E & Hx & Hl1). exists l1, l2. repeat split; auto.
    + by apply HPQ.
    + eapply Forall_impl; [exact Hl1|]. intros y Hy HQ. by apply Hy, HPQ.
Qed.

End FindFacts.

Module TaskManagerFacts.
Import TaskManager TaskManagerSpec.

Lemma update_first_split p f l x :
  find p l = Some x ->
  exists l1 l2, l = l1 ++ x :: l2
                /\ Forall (fun y => p y = false) l1
                /\ update_first p f l = l1 ++ f x :: l2.
Proof.
  induction l as [|a l IH]; simpl; [discriminate|].
  destruct (p a) eqn:Ha.
  - intros [= ->]. exists [], l. repeat split; auto.
  - intros Hx. destruct (IH Hx) as (l1 & l2 & -> & Hl1 & E).
    exists (a :: l1), l2. repeat split; auto. simpl. by rewrite E.
Qed.

Lemma find_app_skip {A} (p : A -> bool) l1 l2 :
  Forall (fun y => p y = false) l1 -> find p (l1 ++ l2) = find p l2.
Proof.
  induction 1 as [|a l1 Ha _ IH]; simpl; [done|]. by rewrite Ha.
Qed.

Lemma run_mutate op tm taskId payload now :
  run op tm taskId payload now = mutate tm taskId (effect op payload now).
Proof. by destruct op. Qed.

Lemma effect_status op payload now x :
  task_status (effect op payload now x) = target op.
Proof. by destruct op. Qed.

Lemma effect_id op payload now x :
  task_id (effect op payload now x) = task_id x.
Proof. by destruct op. Qed.

Lemma dep_completed_spec ts d :
  dep_completed ts d = true <-> resolves_to_completed ts d.
Proof.
  unfold dep_completed, resolves_to_completed.
  destruct (find (has_id d) ts) as [dt|].
  - rewrite bool_decide_eq_true. split; [eauto|].
    by intros (? & [= <-] & ?).
  - split; [discriminate|]. by intros (? & ? & _).
Qed.

Lemma is_next_spec ts x : is_next ts x = true <-> runnable ts x.
Proof.
  unfold is_next, runnable.
  destruct (bool_decide (task_status x = pending)) eqn:Hs; simpl.
  - apply bool_decide_eq_true in Hs.
    destruct (task_dependencies x) as [|d ds] eqn:Hd.
    + simpl. split; auto.
    + replace (Z.of_nat (length (d :: ds)) =? 0) with false
        by (symmetry; apply Z.eqb_neq; simpl length; lia).
      rewrite forallb_forall, Forall_forall. split.
      * intros H. split; [done|]. intros y Hy.
        apply dep_completed_spec, H. by apply list_elem_of_In.
      * intros [_ H] y Hy. apply dep_completed_spec, H.
        by apply list_elem_of_In.
  - apply bool_decide_eq_false in Hs. split; [discriminate|]. by intros [? _].
Qed.

Lemma status_of_update tm taskId f task :
  find (has_id taskId) (tasks tm) = Some task ->
  task_id (f task) = task_id task ->
  status_of (with_tasks tm (update_first (has_id taskId) f (tasks tm))) taskId
  = Some (task_status (f task)).
Proof.
  intros Hfind Hid. unfold status_of. simpl.
  destruct (update_first_split _ f _ _ Hfind) as (l1 & l2 & E & Hl1 & ->).
  rewrite find_app_skip by done. simpl.
  assert (has_id taskId task = true) as Hp.
  { apply find_Some_first in Hfind. by destruct Hfind as (? & ? & _ & ? & _). }
  unfold has_id in *. rewrite Hid, Hp. done.
Qed.

(** C3, as stated, fails: [failTask] on a task that is already
    [completed] returns the task as usual and leaves it [failed]; the
    step completed -> failed is not a transition of the state machine,
    and nothing is raised. *)
Lemma terminal_status_overwritten :
  status_of done_plan 1 = Some completed
  /\ status_of (fst (failTask done_plan 1 (Some "late") 3)) 1 = Some failed
  /\ legal completed failed = false
  /\ (task_status <$> snd (failTask done_plan 1 (Some "late") 3)) = Some failed.
Proof. repeat split. Qed.

(** C3 (amended): [startTask], [completeTask], [failTask] and [skipTask]
    do not look at the current status.  When [find] resolves the id to a
    task, that task (the first one with the id) is rewritten in place,
    its status becomes the operation's own status whatever it was
    before, the other tasks are untouched and the rewritten task is
    returned; when no task has the id, the manager is unchanged and the
    result is [undefined].  The operations are total: no call raises. *)
Theorem transition_unconditional (op : Op) (tm : t) (taskId : Z)
    (payload : option string) (now : Timestamp) :
  (forall task,
      find (has_id taskId) (tasks tm) = Some task ->
      exists l1 l2,
        tasks tm = l1 ++ task :: l2
        /\ Forall (fun y => has_id taskId y = false) l1
        /\ run op tm taskId payload now
           = (with_tasks tm (l1 ++ effect op payload now task :: l2),
              Some (effect op payload now task))
        /\ status_of (fst (run op tm taskId payload now)) taskId
           = Some (target op))
  /\ (find (has_id taskId) (tasks tm) = None ->
      run op tm taskId payload now = (tm, None)).
Proof.
  rewrite run_mutate. unfold mutate. split.
  - intros task Hfind. rewrite Hfind.
    destruct (update_first_split _ (effect op payload now) _ _ Hfind)
      as (l1 & l2 & E & Hl1 & Hupd).
    exists l1, l2. repeat split; auto.
    + by rewrite Hupd.
    + simpl fst. rewrite (status_of_update _ _ _ task Hfind).
      * by rewrite effect_status.
      * apply effect_id.
  - by intros ->.
Qed.

Lemma transition_unconditional_witness :
  status_of (fst (run Skip done_plan 1 None 3)) 1 = Some skipped.
Proof.
  edestruct (proj1 (transition_unconditional Skip done_plan 1 None 3))
    as (l1 & l2 & _ & _ & _ & H); [reflexivity|exact H].
Defined.

(** C9: with no tasks, at construction or after [reset], [isComplete]
    answers [true]. *)
Theorem isComplete_empty :
  isComplete init = true
  /\ (forall tm, isComplete (reset tm) = true)
  /\ (forall counter plan, isComplete (mkTM [] counter plan) = true).
Proof. repeat split. Qed.

(** C5: [getNextTask] returns the first task, in the order of the task
    array, that is pending and all of whose dependency ids resolve to
    completed tasks; it returns nothing exactly when there is no such
    task; a returned task has no dependency that resolves to a failed or
    skipped task.  On [A], [B -> A], [C -> A]: first [A]; once [A] is
    completed, [B] (while [C] is runnable as well); [C] only when [B] is
    no longer pending. *)
Theorem getNextTask_first_runnable (tm : t) :
  (forall x, getNextTask tm = Some x
             <-> first_such (runnable (tasks tm)) (tasks tm) x)
  /\ (getNextTask tm = None
      <-> Forall (fun x => ~ runnable (tasks tm) x) (tasks tm))
  /\ (forall x depId depTask,
        getNextTask tm = Some x ->
        In depId (task_dependencies x) ->
        find (has_id depId) (tasks tm) = Some depTask ->
        task_status depTask = completed
        /\ task_status depTask <> failed /\ task_status depTask <> skipped)
  /\ (let tm1 := fst (completeTask abc 1 None 5) in
      let tm2 := fst (startTask tm1 2 6) in
      (task_name <$> getNextTask abc) = Some "A"
      /\ (task_name <$> getNextTask tm1) = Some "B"
      /\ (task_name <$> List.filter (is_next (tasks tm1)) (tasks tm1))
         = ["B"; "C"]
      /\ (task_name <$> getNextTask tm2) = Some "C").
Proof.
  unfold getNextTask. split; [|split; [|split]].
  - intros x. rewrite find_Some_first. apply first_such_ext.
    intros y. apply is_next_spec.
  - rewrite find_None_all. apply Forall_iff. intros y.
    rewrite <- is_next_spec. by destruct (is_next (tasks tm) y).
  - intros x depId depTask Hx Hin Hdep.
    apply find_Some_first in Hx. destruct Hx as (_ & _ & _ & Hx & _).
    apply is_next_spec in Hx. destruct Hx as [_ Hdeps].
    rewrite Forall_forall in Hdeps.
    destruct (Hdeps depId) as (dt & Hdt & Hc); [by apply list_elem_of_In|].
    assert (dt = depTask) as -> by congruence.
    rewrite Hc. repeat split; discriminate.
  - repeat split.
Qed.

Lemma getNextTask_first_runnable_witness :
  let depTask := set_completed 5 None (newTask 1 (mkTaskInput "A" None None None)) in
  task_status depTask = completed
  /\ task_status depTask <> failed /\ task_status depTask <> skipped.
Proof.
  eapply (proj1 (proj2 (proj2
    (getNextTask_first_runnable (fst (completeTask abc 1 None 5)))))
    _ 1).
  - reflexivity.
  - simpl. left. reflexivity.
  - reflexivity.
Defined.

End TaskManagerFacts.

(** ** The retry loop of [callTool] *)

Module InvokerFacts.
Import MCPClientManager InvokerSpec.

(** One turn of the loop, as the source writes it. *)
Lemma loop_step w s tl o M D a m last :
  loop w s tl o M D a m last =
  if Z_le_dec a M then
    match tryBody (w a) m s tl o with
    | (m1, inl r) => (m1, [Attempt a], Returned r)
    | (m1, inr e) =>
        if (a <? M) && isRetryable e
        then log [Attempt a; Sleep (D * 2 ^ (a - 1))]
               (loop w s tl o M D (a + 1) m1 (Some e))
        else if a >=? M then (m1, [Attempt a], Thrown (failedAfter tl a e))
        else (m1, [Attempt a], Thrown e)
    end
  else (m, [], throwLast last).
Proof.
  rewrite loop_equation_1.
  destruct (Z_le_dec a M) as [Hle|Hgt]; simpl; [|reflexivity].
  destruct (tryBody (w a) m s tl o) as [m1 [r|e]]; simpl; [reflexivity|].
  destruct ((a <? M) && isRetryable e); simpl; [reflexivity|].
  destruct (a >=? M); reflexivity.
Qed.

Lemma log_log ev1 ev2 r : log ev1 (log ev2 r) = log (ev1 ++ ev2) r.
Proof. destruct r as [[m tr] out]. simpl. by rewrite app_assoc. Qed.

Lemma log_nil r : log [] r = r.
Proof. by destruct r as [[m tr] out]. Qed.

Lemma trace_log ev r : trace_of (log ev r) = ev ++ trace_of r.
Proof. by destruct r as [[m tr] out]. Qed.

(** A turn that is made is the first thing the rest of the loop shows. *)
Lemma loop_first w s tl o M D a m last :
  a <= M ->
  exists rest, trace_of (loop w s tl o M D a m last) = Attempt a :: rest.
Proof.
  intros Ha. rewrite loop_step.
  destruct (Z_le_dec a M) as [_|]; [|lia].
  destruct (tryBody (w a) m s tl o) as [m1 [r|e]]; [by eexists|].
  destruct ((a <? M) && isRetryable e).
  - rewrite trace_log. by eexists.
  - destruct (a >=? M); by eexists.
Qed.

Lemma attemptsMade_snoc tr n :
  attemptsMade (tr ++ [Attempt n]) = attemptsMade tr + 1.
Proof.
  unfold attemptsMade. rewrite List.filter_app, length_app. simpl. lia.
Qed.

Section Retried.
Variables (w : World) (m0 : t) (s tl : string) (o : Options).
Let M := effectiveRetries o.
Let D := effectiveDelay o.

Lemma retried_loop n m last tr :
  retried w m0 s tl o n m last tr ->
  callTool w m0 s tl o = log tr (loop w s tl o M D n m last).
Proof.
  induction 1 as [|n m last tr m1 e _ IH Hn Htry Hre].
  - by rewrite log_nil.
  - rewrite IH, (loop_step _ _ _ _ _ _ n).
    destruct (Z_le_dec n M) as [_|]; [|unfold M in *; lia].
    rewrite Htry, Hre.
    replace (n <? M) with true
      by (symmetry; apply Z.ltb_lt; exact Hn).
    simpl andb. cbv iota. by rewrite log_log.
Qed.

Lemma retried_count n m last tr :
  retried w m0 s tl o n m last tr ->
  1 <= n /\ attemptsMade tr = n - 1.
Proof.
  induction 1 as [|n m last tr m1 e _ [IH1 IH2] Hn Htry Hre].
  - done.
  - split; [lia|]. unfold attemptsMade in *.
    rewrite List.filter_app, length_app. simpl. lia.
Qed.

(** A failure that ends the call at turn [n]. *)
Lemma retried_stop n m last tr m1 e :
  retried w m0 s tl o n m last tr ->
  n <= M ->
  tryBody (w n) m s tl o = (m1, inr e) ->
  (n <? M) && isRetryable e = false ->
  callTool w m0 s tl o
  = (m1, tr ++ [Attempt n],
     Thrown (if n <? M then e else failedAfter tl n e)).
Proof.
  intros Hr Hn Htry Hstop.
  rewrite (retried_loop _ _ _ _ Hr), loop_step.
  destruct (Z_le_dec n M) as [_|]; [|lia].
  rewrite Htry, Hstop.
  destruct (n <? M) eqn:Hlt.
  - replace (n >=? M) with false; [done|].
    symmetry. apply Z.ltb_lt in Hlt. rewrite Z.geb_leb. apply Z.leb_gt. lia.
  - replace (n >=? M) with true; [done|].
    symmetry. apply Z.ltb_ge in Hlt. rewrite Z.geb_leb. apply Z.leb_le. lia.
Qed.

End Retried.

(** C6, as stated, fails: a non-retryable error does not always
    propagate.  On the last turn that is allowed it is thrown inside the
    "failed after n attempts" error, like a retryable one: with
    [maxRetries = 1] the refusal of the first call, and with the default
    of 3 a refusal that follows two resets. *)
Lemma nonretryable_wrapped :
  isRetryable (mkError "Invalid arguments") = false
  /\ callTool alwaysRefused online "serena" "find_symbol"
       (mkOptions (Some 1) None None)
     = (online, [Attempt 1],
        Thrown (mkError
          "MCP tool 'find_symbol' failed after 1 attempts: Invalid arguments"))
  /\ callTool (refusedOn 3) online "serena" "find_symbol"
       (mkOptions None None None)
     = (online, [Attempt 1; Sleep 1000; Attempt 2; Sleep 2000; Attempt 3],
        Thrown (mkError
          "MCP tool 'find_symbol' failed after 3 attempts: Invalid arguments")).
Proof. repeat split. Qed.

(** C6 (amended): the turn counter starts at 1.  If the turns before [n]
    failed with retryable errors and turn [n] fails with a non-retryable
    one, the call ends there: no delay and no turn follows and [n] turns
    were made; the error is thrown as it is when [n < maxRetries], and
    inside the "failed after maxRetries attempts" error when
    [n = maxRetries].  After a
    retryable failure on a turn [n < maxRetries] the call sleeps
    [baseDelay * 2^(n-1)] and then makes turn [n+1].  When turn
    [maxRetries] fails retryably as well, the error thrown is the
    "failed after maxRetries attempts" error that carries the count and
    the message of the last failure, after exactly [maxRetries] turns.
    With [maxRetries = 3] and a connection that is reset on every call:
    turns 1, 2 and 3 with two delays between them, then that error. *)
Theorem callTool_retry_policy (w : World) (m0 : t) (s tl : string)
    (o : Options) :
  let M := effectiveRetries o in
  let D := effectiveDelay o in
  (1 <= M ->
   exists rest, trace_of (callTool w m0 s tl o) = Attempt 1 :: rest)
  /\ (forall n m last tr m1 e,
        retried w m0 s tl o n m last tr ->
        n <= M ->
        tryBody (w n) m s tl o = (m1, inr e) ->
        isRetryable e = false ->
        callTool w m0 s tl o
        = (m1, tr ++ [Attempt n],
           Thrown (if n <? M then e else failedAfter tl n e))
        /\ attemptsMade (tr ++ [Attempt n]) = n
        /\ (n < M -> InvokerRuns.outcome_of (callTool w m0 s tl o) = Thrown e)
        /\ (n = M -> InvokerRuns.outcome_of (callTool w m0 s tl o)
                     = Thrown (failedAfter tl M e)))
  /\ (forall n m last tr m1 e,
        retried w m0 s tl o n m last tr ->
        n < M ->
        tryBody (w n) m s tl o = (m1, inr e) ->
        isRetryable e = true ->
        exists rest,
          trace_of (callTool w m0 s tl o)
          = tr ++ [Attempt n; Sleep (backoff D n)] ++ Attempt (n + 1) :: rest)
  /\ (forall m last tr m1 e,
        retried w m0 s tl o M m last tr ->
        tryBody (w M) m s tl o = (m1, inr e) ->
        isRetryable e = true ->
        callTool w m0 s tl o
        = (m1, tr ++ [Attempt M], Thrown (failedAfter tl M e))
        /\ attemptsMade (tr ++ [Attempt M]) = M)
  /\ callTool alwaysReset online "serena" "find_symbol"
       (mkOptions (Some 3) (Some 100) None)
     = (online,
        [Attempt 1; Sleep 100; Attempt 2; Sleep 200; Attempt 3],
        Thrown (mkError
          "MCP tool 'find_symbol' failed after 3 attempts: read ECONNRESET")).
Proof.
  intros M D. split; [|split; [|split; [|split]]].
  - intros HM. apply loop_first. exact HM.
  - intros n m last tr m1 e Hr Hn Htry Hre.
    assert (callTool w m0 s tl o
            = (m1, tr ++ [Attempt n],
               Thrown (if n <? M then e else failedAfter tl n e))) as Hcall.
    { apply (retried_stop _ _ _ _ _ _ _ _ _ _ _ Hr Hn Htry).
      rewrite Hre. apply andb_false_r. }
    split; [exact Hcall|]. split; [|split].
    + rewrite attemptsMade_snoc.
      destruct (retried_count _ _ _ _ _ _ _ _ _ Hr) as [_ ->]. lia.
    + intros Hlt. rewrite Hcall. unfold InvokerRuns.outcome_of. simpl.
      by rewrite (proj2 (Z.ltb_lt n M) Hlt).
    + intros ->. rewrite Hcall. unfold InvokerRuns.outcome_of. simpl.
      by rewrite Z.ltb_irrefl.
  - intros n m last tr m1 e Hr Hn Htry Hre.
    assert (retried w m0 s tl o (n + 1) m1 (Some e)
              (tr ++ [Attempt n; Sleep (backoff D n)])) as Hr'
      by (econstructor; eassumption).
    rewrite (retried_loop _ _ _ _ _ _ _ _ _ Hr'), trace_log.
    destruct (loop_first w s tl o (effectiveRetries o) (effectiveDelay o)
                (n + 1) m1 (Some e)) as [rest ->]; [fold M; lia|].
    exists rest. by rewrite <- app_assoc.
  - intros m last tr m1 e Hr Htry Hre. split.
    + rewrite (retried_stop _ _ _ _ _ _ _ _ _ _ _ Hr (Z.le_refl _) Htry).
      * fold M. by rewrite Z.ltb_irrefl.
      * fold M. by rewrite Z.ltb_irrefl.
    + rewrite attemptsMade_snoc.
      destruct (retried_count _ _ _ _ _ _ _ _ _ Hr) as [_ ->]. lia.
  - reflexivity.
Qed.

Lemma callTool_retry_policy_witness :
  (callTool alwaysReset online "serena" "find_symbol"
     (mkOptions (Some 2) (Some 50) None)
   = (online, [Attempt 1; Sleep (backoff 50 1)] ++ [Attempt 2],
      Thrown (failedAfter "find_symbol" 2 (mkError "read ECONNRESET")))
   /\ attemptsMade ([Attempt 1; Sleep (backoff 50 1)] ++ [Attempt 2]) = 2)
  /\ (callTool alwaysRefused online "serena" "find_symbol"
        (mkOptions (Some 2) (Some 50) None)
      = (online, [] ++ [Attempt 1], Thrown (mkError "Invalid arguments"))
      /\ attemptsMade ([] ++ [Attempt 1]) = 1).
Proof.
  pose (o := mkOptions (Some 2) (Some 50) None).
  split.
  - assert (retried alwaysReset online "serena" "find_symbol" o 2 online
              (Some (mkError "read ECONNRESET"))
              ([] ++ [Attempt 1; Sleep (backoff (effectiveDelay o) 1)])) as Hr.
    { apply (retried_more alwaysReset online "serena" "find_symbol" o
               1 online None [] online (mkError "read ECONNRESET")).
      - constructor.
      - reflexivity.
      - reflexivity.
      - reflexivity. }
    exact (proj1 (proj2 (proj2 (proj2
             (callTool_retry_policy alwaysReset online "serena" "find_symbol" o))))
             online _ _ online (mkError "read ECONNRESET") Hr eq_refl eq_refl).
  - refine (let H := proj1 (proj2
             (callTool_retry_policy alwaysRefused online "serena" "find_symbol" o))
             1 online None [] online (mkError "Invalid arguments") _ _ _ _ in
            conj (proj1 H) (proj1 (proj2 H))).
    + constructor.
    + vm_compute. discriminate.
    + reflexivity.
    + reflexivity.
Defined.

End InvokerFacts.

(** ** Insertion-ordered maps *)

Module JsMapFacts.
Section Facts.
Context {K V : Type} `{EqDecision K}.
Implicit Types (m : JsMap.t K V) (k : K) (v : V).

Lemma get_set_eq m k v : JsMap.get (JsMap.set m k v) k = Some v.
Proof.
  induction m as [|[k' v'] m IH]; simpl.
  - by rewrite decide_True.
  - destruct (decide (k' = k)) as [->|Hne]; simpl.
    + by rewrite decide_True.
    + by rewrite decide_False.
Qed.

Lemma get_set_ne m k k' v :
  k <> k' -> JsMap.get (JsMap.set m k v) k' = JsMap.get m k'.
Proof.
  intros Hne. induction m as [|[k0 v0] m IH]; simpl.
  - by rewrite decide_False.
  - destruct (decide (k0 = k)) as [->|Hk0]; simpl.
    + by rewrite !decide_False.
    + by rewrite IH.
Qed.

Lemma get_delete_eq m k : JsMap.get (JsMap.delete m k) k = None.
Proof.
  induction m as [|[k' v'] m IH]; simpl; [done|].
  destruct (decide (k' = k)) as [->|Hne]; simpl; [done|].
  by rewrite decide_False.
Qed.

Lemma get_delete_ne m k k' :
  k <> k' -> JsMap.get (JsMap.delete m k) k' = JsMap.get m k'.
Proof.
  intros Hne. induction m as [|[k0 v0] m IH]; simpl; [done|].
  destruct (decide (k0 = k)) as [->|Hk0]; simpl.
  - by rewrite decide_False.
  - by rewrite IH.
Qed.

Lemma delete_absent m k : JsMap.get m k = None -> JsMap.delete m k = m.
Proof.
  induction m as [|[k' v'] m IH]; simpl; [done|].
  destruct (decide (k' = k)); [discriminate|].
  intros Hm. by rewrite IH.
Qed.

Lemma set_set m k v v' :
  JsMap.set (JsMap.set m k v) k v' = JsMap.set m k v'.
Proof.
  induction m as [|[k0 v0] m IH]; simpl.
  - by rewrite decide_True.
  - destruct (decide (k0 = k)) as [->|Hk0]; simpl.
    + by rewrite decide_True.
    + by rewrite decide_False, IH.
Qed.

Lemma has_get m k : JsMap.has m k = true <-> is_Some (JsMap.get m k).
Proof.
  unfold JsMap.has. destruct (JsMap.get m k); split; try done.
Qed.

Lemma keys_set_in m k v :
  is_Some (JsMap.get m k) -> JsMap.keys (JsMap.set m k v) = JsMap.keys m.
Proof.
  induction m as [|[k0 v0] m IH]; simpl.
  - by intros [? ?].
  - destruct (decide (k0 = k)) as [->|Hk0]; simpl; [done|].
    intros Hm. by rewrite IH.
Qed.

Lemma get_None_keys m k : JsMap.get m k = None <-> ~ In k (JsMap.keys m).
Proof.
  induction m as [|[k0 v0] m IH]; simpl; [tauto|].
  destruct (decide (k0 = k)) as [->|Hk0].
  - split; [discriminate|]. tauto.
  - rewrite IH. tauto.
Qed.

(** The operations keep the keys distinct. *)
Lemma set_NoDup m k v :
  NoDup (JsMap.keys m) -> NoDup (JsMap.keys (JsMap.set m k v)).
Proof.
  induction m as [|[k0 v0] m IH]; simpl.
  - intros _. repeat constructor. by intros ?%elem_of_nil.
  - intros Hnd. apply NoDup_cons in Hnd as [Hk0 Hnd].
    destruct (decide (k0 = k)) as [->|Hne]; simpl.
    + by apply NoDup_cons.
    + apply NoDup_cons. split; [|by apply IH].
      rewrite list_elem_of_In, <- get_None_keys, get_set_ne by done.
      by rewrite get_None_keys, <- list_elem_of_In.
Qed.

Lemma delete_NoDup m k :
  NoDup (JsMap.keys m) -> NoDup (JsMap.keys (JsMap.delete m k)).
Proof.
  induction m as [|[k0 v0] m IH]; simpl; [done|].
  intros Hnd. apply NoDup_cons in Hnd as [Hk0 Hnd].
  destruct (decide (k0 = k)) as [->|Hne]; simpl; [by apply IH|].
  apply NoDup_cons. split; [|by apply IH].
  rewrite list_elem_of_In, <- get_None_keys, get_delete_ne by done.
  by rewrite get_None_keys, <- list_elem_of_In.
Qed.

End Facts.
End JsMapFacts.

(** ** The symbol cache *)

Module CacheFacts.
Import SymbolIndex SymbolIndexSpec Examples.

Section WithRuntime.
Context `{NodeRuntime}.

Lemma saveMetadata_cache idx now :
  cache (saveMetadata idx now) = cache idx
  /\ fileHashes (saveMetadata idx now) = fileHashes idx
  /\ indexMetadata (saveMetadata idx now) = indexMetadata idx.
Proof. done. Qed.

Lemma indexFile_cache idx fs key payload proj now :
  cache (fst (indexFile idx fs key payload proj now))
  = JsMap.set (cache idx) key (snd (indexFile idx fs key payload proj now)).
Proof. done. Qed.

Lemma indexFile_data idx fs key payload proj now :
  snd (indexFile idx fs key payload proj now)
  = {| filePath := key;
       hash := calculateFileHash fs (path_join proj key);
       symbols := payload; indexedAt := now;
       symbolCount := countSymbols payload |}.
Proof. done. Qed.

(** [getSymbols] is the lookup of the specification at the fingerprint
    of the live source. *)
Lemma getSymbols_lookup idx fs key proj :
  getSymbols idx fs key proj
  = lookup idx key (calculateFileHash fs (path_join proj key)).
Proof.
  unfold getSymbols, lookup, JsMap.has, hasFileChanged.
  destruct (JsMap.get (cache idx) key) as [entry|]; simpl; [|done].
  destruct (decide (hash entry = calculateFileHash fs (path_join proj key)))
    as [Heq|Hne].
  - rewrite bool_decide_eq_false_2; [done|]. intros Hc. by apply Hc.
  - rewrite bool_decide_eq_true_2; [done|]. intros Hc. by apply Hne.
Qed.

Lemma lookup_Some idx key fp entry :
  lookup idx key fp = Some entry
  <-> JsMap.get (cache idx) key = Some entry /\ hash entry = fp.
Proof.
  unfold lookup. destruct (JsMap.get (cache idx) key) as [e|].
  - destruct (decide (hash e = fp)) as [Heq|Hne].
    + split; [by intros [= ->] | by intros [[= ->] _]].
    + split; [done | intros [[= ->] ?]; done].
  - split; [done | by intros [? _]].
Qed.

Lemma lookup_None idx key fp :
  lookup idx key fp = None
  <-> JsMap.get (cache idx) key = None
      \/ exists entry, JsMap.get (cache idx) key = Some entry
                       /\ hash entry <> fp.
Proof.
  unfold lookup. destruct (JsMap.get (cache idx) key) as [e|].
  - destruct (decide (hash e = fp)) as [Heq|Hne].
    + split; [done|]. intros [?|(e' & [= <-] & Hne)]; done.
    + split; [|done]. intros _. right. by exists e.
  - split; [by left | done].
Qed.

(** C2: [getSymbols] returns the stored entry exactly when there is an
    entry for the key whose stored fingerprint is the fingerprint of
    the live source, and [null] when there is no entry or the two
    differ.  After [indexFile] has registered a payload, a lookup
    under an unchanged fingerprint returns the registered entry, whose
    payload is the registered one (the same trees, children in the
    same order); a lookup under any other fingerprint returns
    [null]. *)
Theorem getSymbols_fingerprint (idx : t) (fs : FileSystem)
    (key proj : string) :
  let fp := calculateFileHash fs (path_join proj key) in
  (forall entry,
      getSymbols idx fs key proj = Some entry
      <-> JsMap.get (cache idx) key = Some entry /\ hash entry = fp)
  /\ (getSymbols idx fs key proj = None
      <-> JsMap.get (cache idx) key = None
          \/ exists entry, JsMap.get (cache idx) key = Some entry
                           /\ hash entry <> fp)
  /\ (forall payload now fs',
        let r := indexFile idx fs key payload proj now in
        let fp' := calculateFileHash fs' (path_join proj key) in
        symbols (snd r) = payload
        /\ (fp' = fp -> getSymbols (fst r) fs' key proj = Some (snd r))
        /\ (fp' <> fp -> getSymbols (fst r) fs' key proj = None)).
Proof.
  intros fp. split; [|split].
  - intros entry. rewrite getSymbols_lookup. apply lookup_Some.
  - rewrite getSymbols_lookup. apply lookup_None.
  - intros payload now fs' r fp'. split; [done|]. split.
    + intros Hfp. rewrite getSymbols_lookup. apply lookup_Some.
      unfold r. rewrite indexFile_cache, JsMapFacts.get_set_eq.
      split; [done|]. rewrite indexFile_data. simpl. by symmetry.
    + intros Hfp. rewrite getSymbols_lookup. apply lookup_None. right.
      exists (snd r). unfold r at 1.
      rewrite indexFile_cache, JsMapFacts.get_set_eq. split; [done|].
      unfold r. rewrite indexFile_data. simpl. intros Hc. by apply Hfp.
Qed.

(** C1 (amended): when the source cannot be read, the fingerprint is
    [null].  [getSymbols] then answers [null], the answer it also gives
    for a key that was never registered, whenever the key has no entry
    or the stored fingerprint is a digest.  [indexFile] does not skip
    the round: it stores the entry, with a [null] fingerprint. *)
Theorem unreadable_source (idx : t) (fs : FileSystem) (key proj : string) :
  fs (path_join proj key) = None ->
  calculateFileHash fs (path_join proj key) = None
  /\ (JsMap.get (cache idx) key = None ->
      getSymbols idx fs key proj = None)
  /\ (forall entry digest,
        JsMap.get (cache idx) key = Some entry ->
        hash entry = Some digest ->
        getSymbols idx fs key proj = None)
  /\ (forall payload now,
        let r := indexFile idx fs key payload proj now in
        hash (snd r) = None
        /\ symbols (snd r) = payload
        /\ JsMap.get (cache (fst r)) key = Some (snd r)).
Proof.
  intros Hfs.
  assert (calculateFileHash fs (path_join proj key) = None) as Hnone
    by (unfold calculateFileHash; by rewrite Hfs).
  split; [done|]. split; [|split].
  - intros Hget. rewrite getSymbols_lookup. apply lookup_None. by left.
  - intros entry digest Hget Hhash. rewrite getSymbols_lookup.
    apply lookup_None. right. exists entry. split; [done|].
    rewrite Hnone, Hhash. done.
  - intros payload now r. unfold r.
    rewrite indexFile_cache, JsMapFacts.get_set_eq, indexFile_data.
    simpl. by rewrite Hnone.
Qed.

End WithRuntime.

Lemma getSymbols_fingerprint_witness :
  @getSymbols exampleRuntime indexedOnce (disk "v1") "a.js" "/repo"
  = Some (snd (@indexFile exampleRuntime fresh (disk "v1") "a.js" payload "/repo" 10))
  /\ @getSymbols exampleRuntime indexedOnce (disk "v2") "a.js" "/repo" = None.
Proof.
  split.
  - apply (proj2 (proj2 (@getSymbols_fingerprint exampleRuntime fresh
             (disk "v1") "a.js" "/repo")) payload 10 (disk "v1")).
    reflexivity.
  - apply (proj2 (proj2 (@getSymbols_fingerprint exampleRuntime fresh
             (disk "v1") "a.js" "/repo")) payload 10 (disk "v2")).
    discriminate.
Defined.

Lemma unreadable_source_witness :
  @getSymbols exampleRuntime indexedOnce unreadable "a.js" "/repo" = None.
Proof.
  eapply (proj1 (proj2 (proj2 (@unreadable_source exampleRuntime indexedOnce
            unreadable "a.js" "/repo" eq_refl)))); reflexivity.
Defined.

(** C1, as stated, fails: registered while the source cannot be read, an
    entry is stored all the same, and a lookup while the source still
    cannot be read returns it as a hit.  Where the lookup does miss
    because the source cannot be read, its answer is the [null] of any
    other miss. *)
Lemma unreadable_source_hit :
  let idx := fst (@indexFile exampleRuntime fresh unreadable "a.js"
                    payload "/repo" 10) in
  @calculateFileHash exampleRuntime unreadable "/repo/a.js" = None
  /\ JsMap.has (cache idx) "a.js" = true
  /\ (symbols <$> @getSymbols exampleRuntime idx unreadable "a.js" "/repo")
     = Some payload
  /\ @getSymbols exampleRuntime indexedOnce unreadable "a.js" "/repo"
     = @getSymbols exampleRuntime fresh (disk "v1") "a.js" "/repo".
Proof. repeat split. Qed.

Lemma getCategoryStats_cache idx1 idx2 :
  cache idx1 = cache idx2 -> getCategoryStats idx1 = getCategoryStats idx2.
Proof. unfold getCategoryStats. by intros ->. Qed.

(** C4: what the second of two identical [indexFile] calls does.  The
    cache, every later lookup, the cache size and the per-kind histogram
    are those of a single call; [filesIndexed] and [symbolsCount] are
    counted a second time, so the statistics differ.  On the example:
    one file with three symbols is reported as 2 files and 6 symbols. *)
Theorem indexFile_twice (rt : NodeRuntime) (idx : t) (fs : FileSystem)
    (key : string) (symbols : list Symbol) (proj : string) (now : Timestamp) :
  let once := fst (indexFile idx fs key symbols proj now) in
  let twice := fst (indexFile once fs key symbols proj now) in
  (cache twice = cache once
   /\ (forall fs' key' proj',
         getSymbols twice fs' key' proj' = getSymbols once fs' key' proj')
   /\ cacheSize (getStats twice) = cacheSize (getStats once)
   /\ categories (getStats twice) = categories (getStats once)
   /\ stats_filesIndexed (getStats twice)
      = stats_filesIndexed (getStats once) + 1
   /\ stats_symbolsCount (getStats twice)
      = stats_symbolsCount (getStats once) + countSymbols symbols
   /\ getStats twice <> getStats once)
  /\ (let again :=
        fst (@indexFile exampleRuntime indexedOnce (disk "v1") "a.js"
               payload "/repo" 10) in
      cacheSize (getStats indexedOnce) = 1
      /\ stats_filesIndexed (getStats indexedOnce) = 1
      /\ stats_symbolsCount (getStats indexedOnce) = 3
      /\ cacheSize (getStats again) = 1
      /\ stats_filesIndexed (getStats again) = 2
      /\ stats_symbolsCount (getStats again) = 6).
Proof.
  intros once twice.
  assert (cache twice = cache once) as Hcache.
  { unfold twice. rewrite indexFile_cache, indexFile_data.
    unfold once at 1. rewrite indexFile_cache, indexFile_data.
    apply JsMapFacts.set_set. }
  split; [|repeat split].
  split; [done|]. split; [|split; [|split; [|split; [|split]]]].
  - intros fs' key' proj'. rewrite !getSymbols_lookup.
    unfold lookup. by rewrite Hcache.
  - change (JsMap.size (cache twice) = JsMap.size (cache once)).
    by rewrite Hcache.
  - change (getCategoryStats twice = getCategoryStats once).
    by apply getCategoryStats_cache.
  - reflexivity.
  - reflexivity.
  - intros Heq. apply (f_equal stats_filesIndexed) in Heq.
    simpl in Heq. lia.
Qed.

(** C7: what [invalidate] does to the counters.  The key has no entry
    afterwards; [filesIndexed] goes down by one (not below 0) and
    [symbolsCount] stays, both whether or not the key had an entry.  On
    the example: invalidating [b.js], which is not cached, leaves the
    cache as it is and takes [filesIndexed] from 1 to 0; invalidating
    [a.js] removes its entry from the cache and from the knowledge base,
    and [symbolsCount] still reports its 3 symbols. *)
Theorem invalidate_counters (idx : t) (key : string) (now : Timestamp) :
  (let idx' := invalidate idx key now in
   JsMap.get (cache idx') key = None
   /\ stats_filesIndexed (getStats idx')
      = Z.max 0 (stats_filesIndexed (getStats idx) - 1)
   /\ stats_symbolsCount (getStats idx') = stats_symbolsCount (getStats idx))
  /\ (let absent := invalidate indexedOnce "b.js" 11 in
      JsMap.get (cache indexedOnce) "b.js" = None
      /\ cache absent = cache indexedOnce
      /\ cacheSize (getStats absent) = 1
      /\ stats_filesIndexed (getStats indexedOnce) = 1
      /\ stats_filesIndexed (getStats absent) = 0)
  /\ (let gone := invalidate indexedOnce "a.js" 11 in
      cacheSize (getStats gone) = 0
      /\ JsMap.get (KnowledgeBase.memories (kb gone)) (getMemoryName "a.js") = None
      /\ KnowledgeBase.files (kb gone) !! ("symbols", getMemoryName "a.js") = None
      /\ stats_symbolsCount (getStats indexedOnce) = 3
      /\ stats_symbolsCount (getStats gone) = 3).
Proof.
  split; [|split].
  - intros idx'. split; [|split].
    + unfold idx', invalidate.
      rewrite (proj1 (saveMetadata_cache _ _)). simpl.
      apply JsMapFacts.get_delete_eq.
    + reflexivity.
    + reflexivity.
  - repeat split.
  - vm_compute. repeat split.
Qed.

End CacheFacts.

(** ** Search *)

Module SearchFacts.
Import SymbolIndex SymbolIndexSpec Examples.

(** Induction on a symbol tree, with the hypothesis for every child. *)
Lemma Symbol_forest_ind (P : Symbol -> Prop) :
  (forall name kind children,
      Forall P children -> P (mkSymbol name kind children)) ->
  forall s, P s.
Proof.
  intros step. fix IH 1. intros [name kind children]. apply step.
  induction children as [|c l IHl]; constructor; [apply IH | exact IHl].
Qed.

Lemma walk_node anc name kind children :
  walk anc (mkSymbol name kind children)
  = (anc, mkSymbol name kind children)
    :: flat_map (walk (anc ++ [name])) children.
Proof.
  reflexivity.
Qed.

Lemma countBelow_node name kind children :
  countBelow (mkSymbol name kind children) = countSymbols children.
Proof.
  reflexivity.
Qed.

Lemma flat_map_image {A B C} (f : B -> C) (p : B -> bool)
    (g : A -> list B) (k : A -> list C) (l : list A) :
  Forall (fun x => k x = map f (List.filter p (g x))) l ->
  flat_map k l = map f (List.filter p (flat_map g l)).
Proof.
  induction 1 as [|x l Hx _ IH]; simpl; [done|].
  by rewrite List.filter_app, map_app, Hx, IH.
Qed.

Lemma append_assoc (a b c : string) : (a +:+ b) +:+ c = a +:+ (b +:+ c).
Proof.
  induction a as [|x a IH]; [done|].
  change (String x ((a +:+ b) +:+ c) = String x (a +:+ b +:+ c)).
  by rewrite IH.
Qed.

Lemma length_append (a b : string) :
  String.length (a +:+ b) = (String.length a + String.length b)%nat.
Proof.
  induction a as [|x a IH]; [done|].
  change (S (String.length (a +:+ b))
          = S (String.length a + String.length b)).
  by rewrite IH.
Qed.

Lemma truthy_append a b :
  JsString.truthy a = true -> JsString.truthy (a +:+ b) = true.
Proof. by destruct a. Qed.

Lemma concat_cons sep a b l :
  String.concat sep (a :: b :: l) = a +:+ sep +:+ String.concat sep (b :: l).
Proof.
  reflexivity.
Qed.

(** Below a prefix that is not empty, every name is appended after a
    separator. *)
Lemma fold_path_truthy l :
  forall p,
    JsString.truthy p = true ->
    fold_left fullPathOf l p = String.concat "/" (p :: l).
Proof.
  induction l as [|y l IH]; intros p Hp; [done|].
  change (fold_left fullPathOf (y :: l) p)
    with (fold_left fullPathOf l (fullPathOf p y)).
  unfold fullPathOf at 2. rewrite Hp.
  rewrite IH by (by apply truthy_append).
  destruct l as [|z l]; [done|].
  rewrite !concat_cons. by rewrite !append_assoc.
Qed.

(** The prefix the class accumulates: the names joined with the
    separator, less the empty names at the outermost end. *)
Lemma fold_path_dropEmpty l :
  fold_left fullPathOf l "" = String.concat "/" (dropEmpty l).
Proof.
  induction l as [|x l IH]; [done|]. destruct x as [|c x].
  - exact IH.
  - change (fold_left fullPathOf l (String c x)
            = String.concat "/" (String c x :: l)).
    by apply fold_path_truthy.
Qed.

Lemma builtPath_dropEmpty anc name :
  builtPath anc name = String.concat "/" (dropEmpty (anc ++ [name])).
Proof.
  rewrite <- fold_path_dropEmpty, fold_left_app. reflexivity.
Qed.

Lemma length_concat_cons a l :
  l <> [] ->
  String.length (String.concat "/" (a :: l))
  = (String.length a + 1 + String.length (String.concat "/" l))%nat.
Proof.
  destruct l as [|b l]; [done|]. intros _.
  rewrite concat_cons, !length_append. simpl. lia.
Qed.

Lemma length_dropEmpty l :
  (String.length (String.concat "/" (dropEmpty l))
   <= String.length (String.concat "/" l))%nat.
Proof.
  induction l as [|x l IH]; [done|]. destruct x as [|c x]; [|done].
  change (dropEmpty ("" :: l)) with (dropEmpty l).
  destruct l as [|y l]; [simpl; lia|].
  rewrite length_concat_cons by done. lia.
Qed.

(** The path the class builds is the join of all the names exactly when
    the node is a root or its outermost ancestor has a name. *)
Lemma builtPath_qualified anc name :
  builtPath anc name = qualifiedPath anc name <-> head anc <> Some "".
Proof.
  rewrite builtPath_dropEmpty. unfold qualifiedPath.
  destruct anc as [|a rest].
  - split; [done|]. intros _. by destruct name.
  - destruct a as [|c a].
    + split; [|by intros Hn]. intros Heq. exfalso.
      apply (f_equal String.length) in Heq.
      change (dropEmpty (("" :: rest) ++ [name]))
        with (dropEmpty (rest ++ [name])) in Heq.
      change (("" :: rest) ++ [name]) with ("" :: (rest ++ [name])) in Heq.
      rewrite length_concat_cons in Heq by (by destruct rest).
      pose proof (length_dropEmpty (rest ++ [name])) as Hle.
      simpl in Heq. lia.
    + split; [done|]. intros _. reflexivity.
Qed.

(** What stands above a node of a tree: what stood above the root, then
    the root and the nodes on the way down. *)
Lemma walk_ancestors s :
  forall anc p,
    In p (walk anc s) ->
    fst p = anc
    \/ (sym_children s <> []
        /\ exists rest, fst p = anc ++ sym_name s :: rest).
Proof.
  induction s as [name kind children IH] using Symbol_forest_ind.
  intros anc p. rewrite walk_node. intros [<-|Hin]; [by left|]. right.
  apply in_flat_map in Hin as (c & Hc & Hp).
  split; [by destruct children|].
  rewrite Forall_forall in IH.
  destruct (IH c (proj2 (list_elem_of_In _ _) Hc) _ _ Hp)
    as [->|(_ & rest & ->)]; simpl.
  - by exists [].
  - exists (sym_name c :: rest). by rewrite <- app_assoc.
Qed.

Lemma roots_named_head symbols p :
  roots_named symbols ->
  In p (preorder [] symbols) ->
  head (fst p) <> Some "".
Proof.
  intros Hnamed Hin. unfold preorder in Hin.
  apply in_flat_map in Hin as (r & Hr & Hp).
  unfold roots_named in Hnamed. rewrite Forall_forall in Hnamed.
  specialize (Hnamed r (proj2 (list_elem_of_In _ _) Hr)).
  destruct (walk_ancestors r [] p Hp) as [->|(Hchildren & rest & ->)];
    [done|].
  simpl. destruct Hnamed as [Hnone|Hname]; [done|]. congruence.
Qed.

Lemma length_walk s :
  forall anc, Z.of_nat (length (walk anc s)) = 1 + countBelow s.
Proof.
  induction s as [name kind children IH] using Symbol_forest_ind.
  intros anc. rewrite walk_node, countBelow_node.
  unfold countSymbols. simpl length.
  induction IH as [|c l Hc _ IHl]; simpl; [lia|].
  rewrite length_app. rewrite Nat2Z.inj_succ in *.
  rewrite Nat2Z.inj_add, (Hc (anc ++ [name])).
  simpl length in IHl. lia.
Qed.

Lemma length_preorder anc symbols :
  Z.of_nat (length (preorder anc symbols)) = countSymbols symbols.
Proof.
  unfold preorder, countSymbols.
  induction symbols as [|s l IH]; simpl; [done|].
  rewrite length_app, Nat2Z.inj_add, length_walk. lia.
Qed.

Lemma filter_all {A} (p : A -> bool) l :
  (forall x, p x = true) -> List.filter p l = l.
Proof.
  intros Hp. induction l as [|x l IH]; simpl; [done|]. by rewrite Hp, IH.
Qed.

Lemma flat_map_agree {A B} (f g : A -> list B) l :
  (forall x, In x l -> f x = g x) -> flat_map f l = flat_map g l.
Proof.
  induction l as [|x l IH]; simpl; [done|]. intros Hfg.
  rewrite (Hfg x) by (by left). rewrite IH; [done|].
  intros y Hy. apply Hfg. by right.
Qed.

Lemma findSymbol_node {U : JsString.Unicode} q fp o parent name kind children :
  findSymbol q fp o parent (mkSymbol name kind children)
  = (if selected o q (mkSymbol name kind children)
     then [toMatch fp (fullPathOf parent name) (mkSymbol name kind children)]
     else [])
    ++ flat_map (findSymbol q fp o (fullPathOf parent name)) children.
Proof.
  reflexivity.
Qed.

(** The result of the walk of the class over one tree: the nodes that
    pass the test, in pre-order, each with the path the class builds. *)
Lemma findSymbol_walk {U : JsString.Unicode} q fp o s :
  forall anc,
    findSymbol q fp o (fold_left fullPathOf anc "") s
    = map (fun p => toMatch fp (builtPath (fst p) (sym_name (snd p))) (snd p))
        (List.filter (fun p => selected o q (snd p)) (walk anc s)).
Proof.
  induction s as [name kind children IH] using Symbol_forest_ind.
  intros anc. rewrite findSymbol_node, walk_node.
  cbn [List.filter snd].
  assert (flat_map
            (findSymbol q fp o (fullPathOf (fold_left fullPathOf anc "") name))
            children
          = map (fun p => toMatch fp (builtPath (fst p) (sym_name (snd p))) (snd p))
              (List.filter (fun p => selected o q (snd p))
                 (flat_map (walk (anc ++ [name])) children))) as ->.
  { apply (flat_map_image _ _ (walk (anc ++ [name]))).
    eapply Forall_impl; [exact IH|]. intros c Hc. cbn beta.
    rewrite <- Hc. by rewrite fold_left_app. }
  destruct (selected o q (mkSymbol name kind children)); reflexivity.
Qed.

Lemma findSymbolsInTree_walk {U : JsString.Unicode} q fp o symbols :
  findSymbolsInTree symbols q fp o ""
  = map (fun p => toMatch fp (builtPath (fst p) (sym_name (snd p))) (snd p))
      (List.filter (fun p => selected o q (snd p)) (preorder [] symbols)).
Proof.
  unfold findSymbolsInTree, preorder.
  apply (flat_map_image _ _ (walk [])).
  apply Forall_forall. intros s _. apply (findSymbol_walk q fp o s []).
Qed.

Lemma selected_qualifies {U : JsString.Unicode} o q s :
  selected o (JsString.toLowerCase q) s
  = qualifies (activeKind o) (opt_exactMatch o) q s.
Proof.
  unfold selected, qualifies, matchesName, activeKind, no_kind, same_kind.
  destruct (opt_exactMatch o);
    (match goal with |- (if ?b then _ else _) = _ => destruct b end);
    simpl; try done;
    destruct (opt_kind o) as [k|]; try done;
    destruct (k =? 0); done.
Qed.

Lemma findSymbolsInTree_searchEntry {U : JsString.Unicode} q fp o symbols :
  roots_named symbols ->
  findSymbolsInTree symbols (JsString.toLowerCase q) fp o ""
  = searchEntry (activeKind o) (opt_exactMatch o) q fp symbols.
Proof.
  intros Hnamed. rewrite findSymbolsInTree_walk. unfold searchEntry.
  rewrite (List.filter_ext _ _ (fun p => selected_qualifies o q (snd p))).
  apply List.map_ext_in. intros p Hin.
  apply List.filter_In in Hin as [Hin _].
  rewrite (proj2 (builtPath_qualified (fst p) (sym_name (snd p)))); [done|].
  by apply (roots_named_head symbols).
Qed.

Lemma toLowerCase_empty {U : JsString.Unicode} : JsString.toLowerCase "" = "".
Proof.
  by rewrite JsString.toLowerCase_ascii.
Qed.

Lemma selected_everything {U : JsString.Unicode} s :
  selected defaultOptions (JsString.toLowerCase "") s = true.
Proof.
  rewrite toLowerCase_empty. unfold selected, matchesName. simpl.
  by rewrite JsStringFacts.includes_empty.
Qed.

(** The result of [searchSymbols], with the paths as the class builds
    them. *)
Lemma searchSymbols_walk {U : JsString.Unicode} idx q o :
  searchSymbols idx q o
  = flat_map
      (fun e =>
         map (fun p => toMatch (fst e) (builtPath (fst p) (sym_name (snd p)))
                         (snd p))
           (List.filter (fun p => selected o (JsString.toLowerCase q) (snd p))
              (preorder [] (symbols (snd e)))))
      (JsMap.entries (cache idx)).
Proof.
  unfold searchSymbols. apply List.flat_map_ext. intros [fp data].
  apply findSymbolsInTree_walk.
Qed.

(** On a query and names of ASCII characters the search is the one of
    the runtime that knows no other letters. *)
Lemma selected_ascii {U : JsString.Unicode} o q s :
  JsString.isAscii q = true ->
  JsString.isAscii (sym_name s) = true ->
  selected o (JsString.toLowerCase q) s
  = selected (U := JsString.asciiOnly) o (JsString.lowerAscii q) s.
Proof.
  intros Hq Hs. unfold selected, matchesName.
  by rewrite !JsString.toLowerCase_ascii.
Qed.

Lemma searchSymbols_ascii {U : JsString.Unicode} idx q o :
  JsString.isAscii q = true ->
  (forall e, In e (JsMap.entries (cache idx)) ->
             asciiNames (symbols (snd e)) = true) ->
  searchSymbols idx q o = searchSymbols (U := JsString.asciiOnly) idx q o.
Proof.
  intros Hq Hnames.
  rewrite searchSymbols_walk, (searchSymbols_walk (U := JsString.asciiOnly)).
  apply flat_map_agree. intros e He. f_equal.
  apply List.filter_ext_in. intros p Hp.
  apply selected_ascii; [exact Hq|].
  specialize (Hnames e He). unfold asciiNames in Hnames.
  rewrite forallb_forall in Hnames. by apply Hnames.
Qed.

Lemma nestedABC_ascii {U : JsString.Unicode} e :
  In e (JsMap.entries (cache (indexOf nestedABC))) ->
  asciiNames (symbols (snd e)) = true.
Proof.
  intros [<-|[]]. reflexivity.
Qed.

(** C8 (amended): [searchSymbols] lists, entry after entry of the cache,
    the nodes of the entry's forest in pre-order (a node before its
    children, the children in their order) that pass the test: the
    lowercased name equals the lowercased query ([exactMatch]) or
    contains it (otherwise), and the kind is the kind filter's when one
    is set (a kind of 0 is falsy and counts as not set).  A match
    carries the node's fields as they are, the key of its file, and as
    its path the names from the outermost ancestor down to its own,
    joined with ["/"], less the empty names at the outermost end; that
    is the join of all the names exactly when the node is a root or its
    outermost ancestor has a name.  So when every root that has children
    has a name, the result is the search of the specification.  For
    [A > B > C], the queries ["B"] and ["b"], exact or not, give the one
    match [B] with path ["A/B"]. *)
Theorem searchSymbols_preorder {U : JsString.Unicode} (idx : t) (query : string)
    (options : SearchOptions) :
  searchSymbols idx query options
  = flat_map
      (fun e =>
         map (fun p => toMatch (fst e) (builtPath (fst p) (sym_name (snd p)))
                         (snd p))
           (List.filter
              (fun p => qualifies (activeKind options)
                          (opt_exactMatch options) query (snd p))
              (preorder [] (symbols (snd e)))))
      (JsMap.entries (cache idx))
  /\ (forall ancestors name,
        builtPath ancestors name
        = String.concat "/" (dropEmpty (ancestors ++ [name]))
        /\ (builtPath ancestors name = qualifiedPath ancestors name
            <-> head ancestors <> Some ""))
  /\ ((forall e, In e (JsMap.entries (cache idx)) ->
                 roots_named (symbols (snd e))) ->
      searchSymbols idx query options
      = search idx (activeKind options) (opt_exactMatch options) query)
  /\ (let hit := [ mkMatch "B" 6 [mkSymbol "C" 12 []] "a.js" "A/B" ] in
      searchSymbols (indexOf nestedABC) "B" defaultOptions = hit
      /\ searchSymbols (indexOf nestedABC) "b" defaultOptions = hit
      /\ searchSymbols (indexOf nestedABC) "B" (mkSearchOptions None true) = hit
      /\ searchSymbols (indexOf nestedABC) "b" (mkSearchOptions None true) = hit
      /\ searchSymbols (indexOf nestedABC) "b" (mkSearchOptions (Some 6) false) = hit
      /\ searchSymbols (indexOf nestedABC) "b" (mkSearchOptions (Some 5) false) = []).
Proof.
  split; [|split; [|split]].
  - rewrite searchSymbols_walk. apply List.flat_map_ext. intros e.
    by rewrite (List.filter_ext _ _
                  (fun p => selected_qualifies options query (snd p))).
  - intros ancestors name. split.
    + apply builtPath_dropEmpty.
    + apply builtPath_qualified.
  - intros Hnamed. unfold searchSymbols, search.
    apply flat_map_agree. intros [fp data] Hin.
    apply findSymbolsInTree_searchEntry. apply (Hnamed (fp, data) Hin).
  - cbv zeta.
    repeat apply conj;
      (rewrite (searchSymbols_ascii (indexOf nestedABC));
       [reflexivity | reflexivity | exact nestedABC_ascii]).
Qed.

(** C10: the empty query with the default options matches every node:
    the result is, entry after entry, the image of all the nodes of the
    entry's forest, and it has as many elements as [countSymbols] counts
    nodes in the cached forests. *)
Theorem searchSymbols_empty_query {U : JsString.Unicode} (idx : t) :
  searchSymbols idx "" defaultOptions
  = flat_map
      (fun e =>
         map (fun p => toMatch (fst e) (builtPath (fst p) (sym_name (snd p)))
                         (snd p))
           (preorder [] (symbols (snd e))))
      (JsMap.entries (cache idx))
  /\ Z.of_nat (length (searchSymbols idx "" defaultOptions))
     = fold_right (fun e n => countSymbols (symbols (snd e)) + n) 0
         (JsMap.entries (cache idx)).
Proof.
  assert (searchSymbols idx "" defaultOptions
          = flat_map
              (fun e =>
                 map (fun p => toMatch (fst e)
                                 (builtPath (fst p) (sym_name (snd p))) (snd p))
                   (preorder [] (symbols (snd e))))
              (JsMap.entries (cache idx))) as Heq.
  { rewrite searchSymbols_walk. apply List.flat_map_ext. intros e.
    rewrite filter_all; [done|]. intros p. apply selected_everything. }
  split; [exact Heq|]. rewrite Heq. clear Heq.
  induction (JsMap.entries (cache idx)) as [|e l IH]; simpl; [done|].
  rewrite length_app, Nat2Z.inj_add, IH, length_map, length_preorder. lia.
Qed.

(** C8, as stated, fails.  On the path: under a root whose name is the
    empty string the node [B] is reported with the path ["B"], while the
    ancestor names joined with the separator give ["/B"].  On the kind: a
    kind filter of 0 is given, and the node [B] of kind 6 is returned. *)
Lemma searchSymbols_nameless_root :
  let U := JsString.asciiOnly in
  (namePath <$> searchSymbols (indexOf namelessRoot) "B" defaultOptions)
  = ["B"]
  /\ (namePath <$> search (indexOf namelessRoot) None false "B") = ["/B"]
  /\ qualifiedPath [""] "B" = "/B"
  /\ ((fun m => (match_name m, match_kind m))
        <$> searchSymbols (indexOf nestedABC) "B" (mkSearchOptions (Some 0) false))
     = [("B", 6)]
  /\ search (indexOf nestedABC) (Some 0) false "B" = [].
Proof. repeat split. Qed.

Lemma searchSymbols_preorder_witness :
  let U := JsString.asciiOnly in
  searchSymbols (indexOf namelessInner) "B" defaultOptions
  = search (indexOf namelessInner) None false "B".
Proof.
  intros U.
  apply (proj1 (proj2 (proj2
           (searchSymbols_preorder (indexOf namelessInner) "B"
              defaultOptions)))).
  intros e [<-|[]]. unfold roots_named. simpl.
  constructor; [right; discriminate | constructor].
Defined.

End SearchFacts.

(** ** More on the task manager *)

(** Closed decidable facts, by evaluation of their decision procedure. *)
Ltac decide_by_compute := apply (bool_decide_unpack _); vm_compute; exact I.

Module TaskManagerMore.
Import TaskManager TaskManagerSpec TaskManagerFacts ApolloAgentTasks TaskManagerRuns.

Lemma update_first_ids p f l :
  (forall x, task_id (f x) = task_id x) ->
  ids (update_first p f l) = ids l.
Proof.
  intros Hf. induction l as [|x l IH]; simpl; [done|].
  destruct (p x); simpl; [by rewrite Hf | by rewrite IH].
Qed.

Lemma run_ids op tm taskId payload now :
  ids (tasks (fst (run op tm taskId payload now))) = ids (tasks tm)
  /\ taskIdCounter (fst (run op tm taskId payload now)) = taskIdCounter tm.
Proof.
  rewrite run_mutate. unfold mutate.
  destruct (find (has_id taskId) (tasks tm)); simpl; [|done].
  split; [|done]. apply update_first_ids. intros x. apply effect_id.
Qed.

Lemma mapTasks_ids taskList :
  forall counter,
    snd (mapTasks counter taskList) = counter + Z.of_nat (length taskList)
    /\ Forall (fun i => counter <= i < snd (mapTasks counter taskList))
         (ids (fst (mapTasks counter taskList)))
    /\ StronglySorted Z.lt (ids (fst (mapTasks counter taskList))).
Proof.
  induction taskList as [|task rest IH]; intros counter; simpl.
  - split; [lia|]. split; constructor.
  - destruct (IH (counter + 1)) as (Hc & Hb & Hs).
    destruct (mapTasks (counter + 1) rest) as [ts c]. simpl in *.
    split; [lia|]. split.
    + constructor; [lia|]. eapply Forall_impl; [exact Hb|].
      intros i Hi. simpl in Hi. lia.
    + constructor; [exact Hs|]. eapply Forall_impl; [exact Hb|].
      intros i Hi. simpl in Hi. lia.
Qed.

Lemma StronglySorted_snoc (l : list Z) (x : Z) :
  StronglySorted Z.lt l -> Forall (fun i => i < x) l ->
  StronglySorted Z.lt (l ++ [x]).
Proof.
  induction 1 as [|a l Hs IH Ha]; intros Hx; simpl.
  - repeat constructor.
  - apply Forall_cons in Hx as [Hax Hx]. constructor; [by apply IH|].
    apply Forall_app. split; [exact Ha|]. by repeat constructor.
Qed.

Lemma StronglySorted_lt_NoDup (l : list Z) :
  StronglySorted Z.lt l -> NoDup l.
Proof.
  induction 1 as [|a l Hs IH Ha]; constructor; [|exact IH].
  intros Hin. rewrite Forall_forall in Ha. specialize (Ha a Hin). lia.
Qed.

Lemma StronglySorted_append (l1 l2 : list Z) (bound : Z) :
  StronglySorted Z.lt l1 -> StronglySorted Z.lt l2 ->
  Forall (fun i => i < bound) l1 -> Forall (fun i => bound <= i) l2 ->
  StronglySorted Z.lt (l1 ++ l2).
Proof.
  induction 1 as [|a l Hs IH Ha]; intros Hs2 Hlt Hge; simpl; [done|].
  apply Forall_cons in Hlt as [Hlta Hlt]. constructor; [by apply IH|].
  apply Forall_app. split; [exact Ha|].
  eapply Forall_impl; [exact Hge|]. intros i Hi. simpl in Hi. lia.
Qed.

Lemma issued_reachable tm given : issued tm given -> reachable tm.
Proof.
  induction 1; by constructor.
Qed.

(** X1: from a new manager, whatever sequence of [createPlan], [addTask],
    [startTask], [completeTask], [failTask], [skipTask] and [reset] is
    run, the ids handed out since the last [reset] increase strictly in
    the order in which they were handed out and lie between 1 and the
    counter (excluded); so between two resets no id is handed out twice,
    not even to a task of a plan that [createPlan] has replaced.  The
    ids of the task list are among them, in that order, and so are
    distinct.  [reset] starts the numbering again: the next id handed
    out after it is 1, whatever was handed out before. *)
Theorem reachable_ids_increase (tm : t) (given : list Z) :
  issued tm given ->
  1 <= taskIdCounter tm
  /\ StronglySorted Z.lt given
  /\ Forall (fun i => 1 <= i < taskIdCounter tm) given
  /\ NoDup given
  /\ sublist (ids (tasks tm)) given
  /\ NoDup (ids (tasks tm))
  /\ (forall task, task_id (snd (addTask (reset tm) task)) = 1).
Proof.
  intros Hr.
  assert (1 <= taskIdCounter tm
          /\ StronglySorted Z.lt given
          /\ Forall (fun i => 1 <= i < taskIdCounter tm) given
          /\ sublist (ids (tasks tm)) given)
    as (Hc & Hs & Hb & Hsub).
  { induction Hr as [|tm given description taskList now _ (Hc & Hs & Hb & Hsub)
                      |tm given task _ (Hc & Hs & Hb & Hsub)
                      |op tm given taskId payload now _ (Hc & Hs & Hb & Hsub)
                      |tm given _ _].
    - simpl. split; [lia|]. split; [constructor|]. split; constructor.
    - unfold createPlan.
      destruct (mapTasks_ids taskList (taskIdCounter tm)) as (Hc' & Hb' & Hs').
      destruct (mapTasks (taskIdCounter tm) taskList) as [ts c]. simpl in *.
      split; [lia|]. split; [|split].
      + apply (StronglySorted_append _ _ (taskIdCounter tm)); [done|done| |].
        * eapply Forall_impl; [exact Hb|]. intros i Hi. simpl in Hi. lia.
        * eapply Forall_impl; [exact Hb'|]. intros i Hi. simpl in Hi. lia.
      + apply Forall_app. split.
        * eapply Forall_impl; [exact Hb|]. intros i Hi. simpl in Hi. lia.
        * eapply Forall_impl; [exact Hb'|]. intros i Hi. simpl in Hi. lia.
      + by apply sublist_inserts_l.
    - simpl. unfold ids. rewrite map_app. simpl. split; [lia|].
      split; [|split].
      + apply StronglySorted_snoc; [exact Hs|].
        eapply Forall_impl; [exact Hb|]. intros i Hi. simpl in Hi. lia.
      + apply Forall_app. split.
        * eapply Forall_impl; [exact Hb|]. intros i Hi. simpl in Hi. lia.
        * repeat constructor; lia.
      + by apply sublist_app.
    - destruct (run_ids op tm taskId payload now) as [-> ->]. done.
    - simpl. split; [lia|]. split; [constructor|]. split; constructor. }
  assert (NoDup given) as Hnd by (by apply StronglySorted_lt_NoDup).
  repeat split; try done. by apply (sublist_NoDup _ given).
Qed.

Lemma reachable_ids_increase_witness :
  let planned := fst (createPlan init "gate" [mkTaskInput "A" None None None] 0) in
  let replaced :=
    fst (createPlan planned "again" [mkTaskInput "B" None None None] 1) in
  let tm := fst (addTask replaced (mkTaskInput "D" None None (Some [2]))) in
  NoDup [1; 2; 3] /\ ids (tasks tm) = [2; 3].
Proof.
  intros planned replaced tm. split; [|reflexivity].
  refine (proj1 (proj2 (proj2 (proj2
            (reachable_ids_increase tm [1; 2; 3] _))))).
  apply (issued_addTask replaced [1; 2]).
  apply (issued_createPlan planned [1] "again").
  apply (issued_createPlan init [] "gate"). apply issued_init.
Defined.

Lemma find_by_id l1 x l2 :
  NoDup (ids (l1 ++ x :: l2)) ->
  Forall (fun y => has_id (task_id x) y = false) l1
  /\ find (has_id (task_id x)) (l1 ++ x :: l2) = Some x.
Proof.
  intros Hnd. unfold ids in Hnd. rewrite map_app in Hnd. simpl in Hnd.
  apply NoDup_app in Hnd as (_ & Hdisj & _).
  assert (Forall (fun y => has_id (task_id x) y = false) l1) as Hl1.
  { apply Forall_forall. intros y Hy. unfold has_id. apply Z.eqb_neq.
    intros Heq. apply (Hdisj (task_id y)).
    - apply list_elem_of_fmap. by exists y.
    - rewrite Heq. by left. }
  split; [exact Hl1|]. rewrite find_app_skip by exact Hl1. simpl.
  unfold has_id. by rewrite Z.eqb_refl.
Qed.

Lemma find_In {A} (p : A -> bool) l x : find p l = Some x -> In x l /\ p x = true.
Proof.
  intros H. apply find_Some_first in H as (l1 & l2 & -> & Hx & _).
  split; [|done]. apply in_or_app. right. by left.
Qed.

(** X2: [isComplete] answers [true] exactly when [getPendingTasks] is
    empty; and then there is no next task and no task in progress. *)
Theorem isComplete_no_pending (tm : t) :
  (isComplete tm = true <-> getPendingTasks tm = [])
  /\ (isComplete tm = true ->
      getNextTask tm = None /\ currentTask tm = None).
Proof.
  assert (isComplete tm = true <-> getPendingTasks tm = []) as Hiff.
  { unfold isComplete, getPendingTasks, is_terminal.
    induction (tasks tm) as [|x l IH]; simpl; [done|].
    destruct (task_status x); simpl; try (split; discriminate); exact IH. }
  split; [exact Hiff|]. intros Hc. unfold isComplete in Hc.
  rewrite forallb_forall in Hc. split.
  - apply find_None_all. apply Forall_forall. intros x Hx.
    apply list_elem_of_In, Hc in Hx. unfold is_next, is_terminal in *.
    destruct (task_status x); simpl in *; done.
  - apply find_None_all. apply Forall_forall. intros x Hx.
    apply list_elem_of_In, Hc in Hx. unfold is_terminal in *.
    destruct (task_status x); simpl in *; done.
Qed.

Lemma isComplete_no_pending_witness :
  getNextTask (fst (skipTask done_plan 7 None 3)) = None
  /\ currentTask (fst (skipTask done_plan 7 None 3)) = None.
Proof.
  apply (proj2 (isComplete_no_pending (fst (skipTask done_plan 7 None 3)))).
  reflexivity.
Defined.

Lemma count_partition (ts : list Task) :
  Z.of_nat (length ts)
  = countStatus completed ts + countStatus failed ts
    + countStatus in_progress ts + countStatus pending ts
    + countStatus skipped ts.
Proof.
  unfold countStatus. induction ts as [|x l IH]; simpl; [done|].
  rewrite Nat2Z.inj_succ, IH.
  destruct (task_status x); simpl; rewrite ?Nat2Z.inj_succ; lia.
Qed.

(** X3: in the object of [getProgress] the four counts are those of the
    completed, failed, in-progress and pending tasks; they add up to
    [total] less the number of skipped tasks, which the object does not
    report; with no tasks the percentage is 0 without any division. *)
Theorem getProgress_counts (M : JsMath) (tm : t) :
  let p := getProgress tm in
  progress_total p
  = progress_completed p + progress_failed p + progress_inProgress p
    + progress_pending p + countStatus skipped (tasks tm)
  /\ 0 <= countStatus skipped (tasks tm)
  /\ progress_total p = Z.of_nat (length (tasks tm))
  /\ (forall counter plan,
        progress_percentage (getProgress (mkTM [] counter plan)) = 0)
  /\ (forall counter plan x l,
        progress_percentage (getProgress (mkTM (x :: l) counter plan))
        = roundPercent (countStatus completed (x :: l))
            (Z.of_nat (length (x :: l)))).
Proof.
  simpl. split; [apply count_partition|]. split; [unfold countStatus; lia|].
  split; [done|]. split; [done|]. intros counter plan x l.
  unfold getProgress. simpl tasks.
  replace (Z.of_nat (length (x :: l)) >? 0) with true; [done|].
  symmetry. apply Z.gtb_lt. simpl length. lia.
Qed.

(** X4: [fromJSON] applied to the object of [toJSON] restores the manager,
    provided its counter is not 0; a counter of 0 comes back as 1, and an
    object without fields gives the new manager. *)
Theorem fromJSON_toJSON (tm other : t) :
  (taskIdCounter tm <> 0 -> fromJSON other (toJSON tm) = tm)
  /\ (reachable tm -> fromJSON other (toJSON tm) = tm)
  /\ fromJSON other (toJSON (mkTM (tasks tm) 0 (currentPlan tm)))
     = mkTM (tasks tm) 1 (currentPlan tm)
  /\ fromJSON other (mkSaved None None None) = init.
Proof.
  assert (taskIdCounter tm <> 0 -> fromJSON other (toJSON tm) = tm) as H0.
  { intros Hc. destruct tm as [ts c p]. unfold fromJSON, toJSON. simpl in *.
    apply Z.eqb_neq in Hc. by rewrite Hc. }
  split; [exact H0|]. split; [|done].
  intros Hr. apply H0.
  assert (1 <= taskIdCounter tm); [|lia].
  clear H0. induction Hr as [|tm description taskList now _ IH
                              |tm task _ IH
                              |op tm taskId payload now _ IH
                              |tm _ _]; simpl; try lia.
  - unfold createPlan.
    pose proof (proj1 (mapTasks_ids taskList (taskIdCounter tm))) as Hc.
    destruct (mapTasks (taskIdCounter tm) taskList) as [ts c]. simpl in *. lia.
  - by rewrite (proj2 (run_ids op tm taskId payload now)).
Qed.

Lemma fromJSON_toJSON_witness :
  fromJSON init (toJSON abc) = abc.
Proof.
  apply (proj1 (fromJSON_toJSON abc init)). vm_compute. discriminate.
Defined.

(** X5: while the ids are distinct, the task that [getNextTask] returns
    does not list itself among its dependencies, and each of its
    dependencies is the id of a completed task of the list: a task that
    depends on itself is never returned. *)
Theorem getNextTask_not_self (tm : t) (x : Task) :
  NoDup (ids (tasks tm)) ->
  getNextTask tm = Some x ->
  ~ In (task_id x) (task_dependencies x)
  /\ Forall (fun d => exists y, In y (tasks tm) /\ task_id y = d
                               /\ task_status y = completed)
       (task_dependencies x).
Proof.
  intros Hnd Hx. unfold getNextTask in Hx.
  apply find_Some_first in Hx as (l1 & l2 & E & Hx & _).
  apply is_next_spec in Hx as [Hp Hdeps].
  rewrite E in Hnd. destruct (find_by_id _ _ _ Hnd) as [_ Hself].
  rewrite <- E in Hself. split.
  - intros Hin. rewrite Forall_forall in Hdeps.
    apply list_elem_of_In, Hdeps in Hin as (y & Hy & Hc).
    rewrite Hself in Hy. injection Hy as <-. congruence.
  - eapply Forall_impl; [exact Hdeps|]. intros d (y & Hy & Hc).
    apply find_In in Hy as [Hy Hid]. exists y. repeat split; try done.
    unfold has_id in Hid. by apply Z.eqb_eq.
Qed.

Lemma getNextTask_not_self_witness :
  let b := newTask 2 (mkTaskInput "B" None None (Some [1])) in
  ~ In (task_id b) (task_dependencies b).
Proof.
  intros b.
  apply (proj1 (getNextTask_not_self (fst (completeTask abc 1 None 5)) b
                  ltac:(decide_by_compute)
                  eq_refl)).
Defined.

Lemma update_first_at p f l1 x l2 :
  Forall (fun y => p y = false) l1 -> p x = true ->
  update_first p f (l1 ++ x :: l2) = l1 ++ f x :: l2.
Proof.
  intros Hl1 Hx. induction Hl1 as [|y l1 Hy _ IH]; simpl.
  - by rewrite Hx.
  - by rewrite Hy, IH.
Qed.

Lemma countStatus_app s l1 l2 :
  countStatus s (l1 ++ l2) = countStatus s l1 + countStatus s l2.
Proof.
  unfold countStatus. rewrite List.filter_app, length_app. lia.
Qed.

(** What [startTask] does to the task list when the ids are distinct. *)
Lemma startTask_at tm now l1 x l2 :
  tasks tm = l1 ++ x :: l2 ->
  NoDup (ids (tasks tm)) ->
  tasks (fst (startTask tm (task_id x) now)) = l1 ++ set_started now x :: l2.
Proof.
  intros E Hnd. rewrite E in Hnd.
  destruct (find_by_id _ _ _ Hnd) as [Hl1 Hfind].
  unfold startTask, mutate. rewrite E, Hfind. simpl.
  apply update_first_at; [exact Hl1|]. unfold has_id. apply Z.eqb_refl.
Qed.

Lemma completeTask_at tm result now l1 x l2 :
  tasks tm = l1 ++ x :: l2 ->
  NoDup (ids (tasks tm)) ->
  tasks (fst (completeTask tm (task_id x) result now))
  = l1 ++ set_completed now result x :: l2.
Proof.
  intros E Hnd. rewrite E in Hnd.
  destruct (find_by_id _ _ _ Hnd) as [Hl1 Hfind].
  unfold completeTask, mutate. rewrite E, Hfind. simpl.
  apply update_first_at; [exact Hl1|]. unfold has_id. apply Z.eqb_refl.
Qed.

(** X6: while the ids are distinct, [updateTaskProgress] starts the task
    that [getNextTask] returns and touches no other task: one pending task
    fewer and one task in progress more, whether or not a task was in
    progress already; when there is no next task the manager is
    unchanged. *)
Theorem updateTaskProgress_starts_next (tm : t) (now : Timestamp) :
  NoDup (ids (tasks tm)) ->
  (forall x,
      getNextTask tm = Some x ->
      exists l1 l2,
        tasks tm = l1 ++ x :: l2
        /\ tasks (updateTaskProgress tm now) = l1 ++ set_started now x :: l2
        /\ countStatus pending (tasks (updateTaskProgress tm now))
           = countStatus pending (tasks tm) - 1
        /\ countStatus in_progress (tasks (updateTaskProgress tm now))
           = countStatus in_progress (tasks tm) + 1)
  /\ (getNextTask tm = None -> updateTaskProgress tm now = tm).
Proof.
  intros Hnd. split.
  - intros x Hx. unfold updateTaskProgress. rewrite Hx.
    unfold getNextTask in Hx.
    apply find_Some_first in Hx as (l1 & l2 & E & Hx & _).
    apply is_next_spec in Hx as [Hp _].
    rewrite bool_decide_eq_true_2 by exact Hp.
    exists l1, l2. split; [exact E|].
    rewrite (startTask_at tm now l1 x l2 E Hnd). split; [done|].
    rewrite E, !countStatus_app. unfold countStatus. simpl.
    rewrite Hp. simpl. rewrite !Nat2Z.inj_succ. lia.
  - intros Hx. unfold updateTaskProgress. by rewrite Hx.
Qed.

Lemma updateTaskProgress_starts_next_witness :
  updateTaskProgress (fst (skipTask abc 1 None 4)) 5
  = fst (skipTask abc 1 None 4).
Proof.
  apply (proj2 (updateTaskProgress_starts_next (fst (skipTask abc 1 None 4)) 5
                  ltac:(decide_by_compute))).
  reflexivity.
Defined.

Lemma deps_backward_at seen l1 x l2 :
  deps_backward seen (l1 ++ x :: l2) ->
  Forall (fun d => In d (seen ++ ids l1)) (task_dependencies x).
Proof.
  revert seen. induction l1 as [|y l1 IH]; intros seen; simpl.
  - intros [H _]. by rewrite app_nil_r.
  - intros [_ H]. apply IH in H. eapply Forall_impl; [exact H|].
    intros d Hd. simpl in Hd. rewrite <- app_assoc in Hd. exact Hd.
Qed.

Lemma deps_backward_same seen l l' :
  Forall2 (fun x y => task_id x = task_id y
                      /\ task_dependencies x = task_dependencies y) l l' ->
  deps_backward seen l -> deps_backward seen l'.
Proof.
  intros H. revert seen. induction H as [|x y l l' [Hid Hd] _ IH];
    intros seen; simpl; [done|].
  intros [H1 H2]. rewrite <- Hd, <- Hid. split; [exact H1|]. by apply IH.
Qed.

Lemma Forall2_same_refl (l : list Task) :
  Forall2 (fun x y => task_id x = task_id y
                      /\ task_dependencies x = task_dependencies y) l l.
Proof. induction l; constructor; auto. Qed.

(** One round on a list whose first tasks are completed and whose other
    tasks are pending: the first pending task is started and completed. *)
Lemma round_step tm now D x r :
  tasks tm = D ++ x :: r ->
  Forall (fun y => task_status y = completed) D ->
  Forall (fun y => task_status y = pending) (x :: r) ->
  NoDup (ids (tasks tm)) ->
  deps_backward [] (tasks tm) ->
  tasks (round tm now) = (D ++ [done_at now x]) ++ r
  /\ NoDup (ids (tasks (round tm now)))
  /\ deps_backward [] (tasks (round tm now)).
Proof.
  intros E HD Hr Hnd Hdeps.
  apply Forall_cons in Hr as [Hx Hr].
  assert (getNextTask tm = Some x) as Hnext.
  { unfold getNextTask. apply find_Some_first. exists D, r.
    split; [exact E|]. split.
    - apply is_next_spec. split; [exact Hx|].
      rewrite E in Hdeps. apply deps_backward_at in Hdeps. simpl in Hdeps.
      eapply Forall_impl; [exact Hdeps|]. intros d Hd. cbn beta in Hd.
      unfold ids in Hd. apply in_map_iff in Hd as (y & Hy & Hin).
      apply in_split in Hin as (a & b & ->).
      assert (tasks tm = a ++ y :: (b ++ x :: r)) as E'
        by (rewrite E, <- app_assoc; done).
      pose proof Hnd as Hnd'. rewrite E' in Hnd'.
      destruct (find_by_id _ _ _ Hnd') as [_ Hfind].
      exists y. rewrite E', <- Hy. split; [exact Hfind|].
      rewrite Forall_forall in HD. apply HD.
      apply list_elem_of_In, in_or_app. right. by left.
    - eapply Forall_impl; [exact HD|]. intros y Hy. cbn beta.
      unfold is_next. rewrite Hy. simpl. congruence. }
  assert (tasks (updateTaskProgress tm now) = D ++ set_started now x :: r) as E1.
  { unfold updateTaskProgress. rewrite Hnext.
    rewrite bool_decide_eq_true_2 by exact Hx.
    by apply startTask_at. }
  assert (ids (tasks (updateTaskProgress tm now)) = ids (tasks tm)) as Hids1.
  { rewrite E1, E. unfold ids. by rewrite !map_app. }
  assert (currentTask (updateTaskProgress tm now) = Some (set_started now x))
    as Hcur.
  { unfold currentTask. rewrite E1. rewrite find_app_skip; [done|].
    eapply Forall_impl; [exact HD|]. intros y Hy. cbn beta.
    rewrite Hy. done. }
  assert (tasks (round tm now) = (D ++ [done_at now x]) ++ r) as E2.
  { unfold round, completeCurrentTask. rewrite Hcur.
    rewrite (completeTask_at _ None now D (set_started now x) r E1).
    - by rewrite <- app_assoc.
    - by rewrite Hids1. }
  split; [exact E2|]. split.
  - rewrite E2. rewrite E in Hnd. unfold ids in *.
    rewrite <- app_assoc, !map_app in *. exact Hnd.
  - rewrite E2. rewrite E in Hdeps. rewrite <- app_assoc.
    eapply deps_backward_same; [|exact Hdeps].
    apply Forall2_app; [apply Forall2_same_refl|].
    constructor; [done | apply Forall2_same_refl].
Qed.

Lemma rounds_from now k :
  forall tm D r,
    tasks tm = D ++ r ->
    Forall (fun y => task_status y = completed) D ->
    Forall (fun y => task_status y = pending) r ->
    NoDup (ids (tasks tm)) ->
    deps_backward [] (tasks tm) ->
    (k <= length r)%nat ->
    tasks (rounds k tm now)
    = D ++ map (done_at now) (take k r) ++ drop k r.
Proof.
  induction k as [|k IH]; intros tm D r E HD Hr Hnd Hdeps Hk.
  - simpl. by rewrite drop_0.
  - destruct r as [|x r]; [simpl in Hk; lia|].
    destruct (round_step tm now D x r E HD Hr Hnd Hdeps) as (E1 & Hnd1 & Hdeps1).
    simpl rounds. rewrite (IH (round tm now) (D ++ [done_at now x]) r).
    + simpl. by rewrite <- app_assoc.
    + exact E1.
    + apply Forall_app. split; [exact HD|]. by repeat constructor.
    + by apply Forall_cons in Hr as [_ Hr].
    + exact Hnd1.
    + exact Hdeps1.
    + simpl in Hk. lia.
Qed.

(** X7: on a plan of pending tasks with distinct ids in which every
    dependency is the id of an earlier task, the rounds of the driver
    (start the next task, complete the task in progress) run the tasks in
    the order of the list: after [k] rounds the first [k] tasks are
    completed and the others are untouched, and after as many rounds as
    there are tasks the plan is complete. *)
Theorem rounds_complete_plan (tm : t) (now : Timestamp) :
  NoDup (ids (tasks tm)) ->
  Forall (fun y => task_status y = pending) (tasks tm) ->
  deps_backward [] (tasks tm) ->
  (forall k, (k <= length (tasks tm))%nat ->
     tasks (rounds k tm now)
     = map (done_at now) (take k (tasks tm)) ++ drop k (tasks tm))
  /\ isComplete (rounds (length (tasks tm)) tm now) = true.
Proof.
  intros Hnd Hp Hdeps.
  assert (forall k, (k <= length (tasks tm))%nat ->
            tasks (rounds k tm now)
            = map (done_at now) (take k (tasks tm)) ++ drop k (tasks tm)) as H.
  { intros k Hk.
    apply (rounds_from now k tm [] (tasks tm)); try done. }
  split; [exact H|]. unfold isComplete.
  rewrite (H (length (tasks tm))) by lia.
  rewrite firstn_all, drop_all, app_nil_r.
  apply forallb_forall. intros y Hy.
  apply in_map_iff in Hy as (x & <- & _). done.
Qed.

Lemma rounds_complete_plan_witness :
  isComplete (rounds 3 abc 9) = true.
Proof.
  apply (proj2 (rounds_complete_plan abc 9
                  ltac:(decide_by_compute)
                  ltac:(repeat constructor)
                  ltac:(simpl; repeat split; repeat constructor))).
Defined.

End TaskManagerMore.

(** ** The knowledge base *)

Module KnowledgeBaseFacts.
Import KnowledgeBase.


Lemma delete_memories kb name :
  memories (fst (delete kb name)) = JsMap.delete (memories kb) name.
Proof.
  unfold delete, retrieve, JsMap.has.
  destruct (JsMap.get (memories kb) name) as [memory|] eqn:Hget;
    cbn [fst memories].
  - done.
  - destruct (readFirst (files kb) (map snd categories) name) as [memory|];
      cbn [fst memories].
    + assert (forall (m : JsMap.t string Memory),
                JsMap.get m name = None ->
                JsMap.delete (JsMap.set m name memory) name = m) as Hds.
      { induction m as [|[k v] m IH]; simpl.
        - by rewrite decide_True.
        - destruct (decide (k = name)); [discriminate|]. simpl.
          rewrite decide_False by done. intros Hm. by rewrite IH. }
      rewrite Hds by exact Hget.
      symmetry. by apply JsMapFacts.delete_absent.
    + symmetry. by apply JsMapFacts.delete_absent.
Qed.

Lemma readFirst_None fs dirs name :
  readFirst fs dirs name = None <-> Forall (fun dir => fs !! (dir, name) = None) dirs.
Proof.
  induction dirs as [|dir rest IH]; simpl; [done|].
  destruct (fs !! (dir, name)) eqn:Hf.
  - split; [discriminate|]. intros H. apply Forall_cons in H as [H _].
    congruence.
  - rewrite IH. split; [by constructor | by intros [_ ?]%Forall_cons].
Qed.


Lemma categoryPath_Some category dir :
  KnowledgeBaseIO.categoryPath category = Some dir ->
  categoryPath category = dir.
Proof.
  unfold KnowledgeBaseIO.categoryPath, categoryPath.
  destruct (JsMap.get categories category); [congruence|].
  destruct (KnowledgeBaseIO.inherited category); congruence.
Qed.

Section WithDisk.
Context {D : DiskRuntime}.


(** On the path on which it returns, [store] is [KnowledgeBase.store]. *)
Lemma store_returns kb name content category metadata timestamp dir :
  KnowledgeBaseIO.categoryPath category = Some dir ->
  writable dir name = true ->
  KnowledgeBaseIO.store kb name content category metadata timestamp
  = (fst (store kb name content category metadata timestamp),
     inl (snd (store kb name content category metadata timestamp))).
Proof.
  intros Hdir Hw. unfold KnowledgeBaseIO.store, store.
  by rewrite Hdir, Hw, (categoryPath_Some _ _ Hdir).
Qed.


End WithDisk.



Section WithDiskUpdate.
Context {D : DiskRuntime}.



End WithDiskUpdate.


End KnowledgeBaseFacts.

(** ** More on the symbol cache *)

Module CacheMore.
Import SymbolIndex SymbolIndexSpec SymbolIndexRuns Examples CacheFacts.

Lemma append_cons c a b : String c a +:+ b = String c (a +:+ b).
Proof. reflexivity. Qed.

Lemma append_nil b : "" +:+ b = b.
Proof. reflexivity. Qed.

Lemma getMemoryName_cons filePath :
  getMemoryName filePath
  = String "_" (String "s" (String "y" (String "m" (String "b" (String "o"
      (String "l" (String "_" (replace_unsafe filePath)))))))).
Proof. reflexivity. Qed.

Lemma replace_unsafe_safe s :
  Forall (fun c => c <> "/"%char /\ c <> "."%char)
    (list_ascii_of_string (replace_unsafe s)).
Proof.
  induction s as [|c s IH]; simpl; constructor; [|exact IH].
  unfold safe_char.
  destruct (Ascii.eqb c "/") eqn:H1; simpl; [split; discriminate|].
  destruct (Ascii.eqb c ".") eqn:H2; simpl; [split; discriminate|].
  apply Ascii.eqb_neq in H1, H2. done.
Qed.

Lemma replace_unsafe_idem s : replace_unsafe (replace_unsafe s) = replace_unsafe s.
Proof.
  induction s as [|c s IH]; simpl; [done|]. rewrite IH. f_equal.
  unfold safe_char.
  destruct (Ascii.eqb c "/") eqn:H1; simpl; [done|].
  destruct (Ascii.eqb c ".") eqn:H2; simpl; [done|].
  by rewrite H1, H2.
Qed.

Lemma replace_unsafe_length s :
  String.length (replace_unsafe s) = String.length s.
Proof. induction s as [|c s IH]; simpl; [done|]. by rewrite IH. Qed.

(** X11: the memory name of a file path starts with [_symbol_], is 8
    characters longer than the path and contains neither [/] nor [.]; a
    path and the path with every [/] and [.] replaced by [_] have the same
    memory name, so the name does not determine the path. *)
Theorem getMemoryName_safe (filePath : string) :
  JsString.startsWith (getMemoryName filePath) "_symbol_" = true
  /\ String.length (getMemoryName filePath) = (8 + String.length filePath)%nat
  /\ Forall (fun c => c <> "/"%char /\ c <> "."%char)
       (list_ascii_of_string (getMemoryName filePath))
  /\ getMemoryName (replace_unsafe filePath) = getMemoryName filePath
  /\ getMemoryName "src/app.js" = getMemoryName "src_app_js".
Proof.
  rewrite getMemoryName_cons.
  split; [simpl; apply JsStringFacts.startsWith_empty|]. split.
  - simpl. by rewrite replace_unsafe_length.
  - split; [|split; [|done]].
    + simpl. repeat (constructor; [split; discriminate|]).
      apply replace_unsafe_safe.
    + rewrite getMemoryName_cons. by rewrite replace_unsafe_idem.
Qed.

Section WithRuntime.
Context `{NodeRuntime}.

(** X12: [needsReindexing] answers [true] exactly when [getSymbols] answers
    [null]: for a file that is not indexed, and for one whose stored
    fingerprint no longer is that of the source. *)
Theorem needsReindexing_miss (idx : t) (fs : FileSystem) (key proj : string) :
  needsReindexing idx fs key proj
  = match getSymbols idx fs key proj with Some _ => false | None => true end
  /\ needsReindexing (create (kb idx)) fs key proj = true
  /\ (forall symbols now,
        needsReindexing (fst (indexFile idx fs key symbols proj now)) fs key proj
        = false).
Proof.
  split; [|split].
  - unfold needsReindexing, getSymbols.
    destruct (JsMap.has (cache idx) key); simpl; [|done].
    destruct (JsMap.get (cache idx) key) as [cached|]; [|done].
    by destruct (hasFileChanged fs (path_join proj key) (hash cached)).
  - done.
  - intros symbols now. unfold needsReindexing, JsMap.has.
    rewrite indexFile_cache, JsMapFacts.get_set_eq. simpl.
    unfold hasFileChanged. apply bool_decide_eq_false_2. intros Hc. by apply Hc.
Qed.

(** X13: [indexFile] and [invalidate] on one key leave every other key as
    it was: its cache entry, and what [getSymbols] and [needsReindexing]
    answer for it. *)
Theorem other_keys_untouched (idx : t) (fs : FileSystem) (key key' : string)
    (symbols : list Symbol) (proj : string) (now : Timestamp) :
  key <> key' ->
  let added := fst (indexFile idx fs key symbols proj now) in
  let removed := invalidate idx key now in
  JsMap.get (cache added) key' = JsMap.get (cache idx) key'
  /\ JsMap.get (cache removed) key' = JsMap.get (cache idx) key'
  /\ (forall fs' proj',
        getSymbols added fs' key' proj' = getSymbols idx fs' key' proj'
        /\ getSymbols removed fs' key' proj' = getSymbols idx fs' key' proj'
        /\ needsReindexing added fs' key' proj'
           = needsReindexing idx fs' key' proj'
        /\ needsReindexing removed fs' key' proj'
           = needsReindexing idx fs' key' proj').
Proof.
  intros Hne added removed.
  assert (JsMap.get (cache added) key' = JsMap.get (cache idx) key') as Ha.
  { unfold added. rewrite indexFile_cache. by apply JsMapFacts.get_set_ne. }
  assert (JsMap.get (cache removed) key' = JsMap.get (cache idx) key') as Hr.
  { unfold removed, invalidate. rewrite (proj1 (saveMetadata_cache _ _)).
    cbn [cache]. by apply JsMapFacts.get_delete_ne. }
  split; [exact Ha|]. split; [exact Hr|]. intros fs' proj'.
  unfold getSymbols, needsReindexing, JsMap.has. by rewrite Ha, Hr.
Qed.

End WithRuntime.

Lemma other_keys_untouched_witness :
  JsMap.get (cache (invalidate indexedOnce "b.js" 11)) "a.js"
  = JsMap.get (cache indexedOnce) "a.js".
Proof.
  apply (proj1 (proj2 (@other_keys_untouched exampleRuntime indexedOnce
                         unreadable "b.js" "a.js" [] "/repo" 11
                         ltac:(discriminate)))).
Defined.

Lemma saveMetadata_persisted idx now : persisted (saveMetadata idx now).
Proof.
  unfold persisted, held, onDisk, saveMetadata, KnowledgeBase.store.
  cbn [kb fst KnowledgeBase.memories KnowledgeBase.files indexMetadata fileHashes].
  change (KnowledgeBase.categoryPath "symbols") with "symbols".
  split; [|split; [|split]].
  - rewrite JsMapFacts.get_set_ne by discriminate.
    by rewrite JsMapFacts.get_set_eq.
  - by rewrite JsMapFacts.get_set_eq.
  - rewrite lookup_insert_ne by discriminate. by rewrite lookup_insert_eq.
  - by rewrite lookup_insert_eq.
Qed.

Lemma saveMetadata_other idx now name :
  name <> metadataName -> name <> hashesName ->
  held (saveMetadata idx now) name = held idx name
  /\ onDisk (saveMetadata idx now) name = onDisk idx name.
Proof.
  intros H1 H2. unfold held, onDisk, saveMetadata, KnowledgeBase.store.
  cbn [kb fst KnowledgeBase.memories KnowledgeBase.files].
  change (KnowledgeBase.categoryPath "symbols") with "symbols".
  rewrite !JsMapFacts.get_set_ne by done.
  rewrite !lookup_insert_ne by (intros [= Heq]; symmetry in Heq; done). done.
Qed.

(** X14: after [indexFile], [invalidate] and [clear] the knowledge base
    holds, in memory and on disk, the counters and the file hashes of the
    index as they are after the operation. *)
Theorem metadata_written_through (rt : NodeRuntime) (idx : t)
    (fs : FileSystem) (key : string) (symbols : list Symbol) (proj : string)
    (now : Timestamp) :
  persisted (fst (indexFile idx fs key symbols proj now))
  /\ persisted (invalidate idx key now)
  /\ persisted (clear idx now).
Proof.
  unfold indexFile, invalidate, clear. cbn [fst].
  repeat apply conj; apply saveMetadata_persisted.
Qed.

(** X15: [indexFile] writes the entry through to the knowledge base, in
    memory and on disk, under the memory name of the path, unless that
    name is one of the two names of the index's own metadata (the paths
    [index_metadata], [file.hashes] and the like): then the metadata
    written next replace the entry, which is cached but not persisted. *)
Theorem indexFile_written_through (rt : NodeRuntime) (idx : t)
    (fs : FileSystem) (key : string) (symbols : list Symbol) (proj : string)
    (now : Timestamp) :
  let r := indexFile idx fs key symbols proj now in
  (getMemoryName key <> metadataName ->
   getMemoryName key <> hashesName ->
   held (fst r) (getMemoryName key) = Some (KnowledgeBase.JsonSymbolData (snd r))
   /\ onDisk (fst r) (getMemoryName key)
      = Some (KnowledgeBase.JsonSymbolData (snd r)))
  /\ (getMemoryName key = metadataName ->
      JsMap.get (cache (fst r)) key = Some (snd r)
      /\ held (fst r) (getMemoryName key)
         = Some (KnowledgeBase.JsonMetadata (indexMetadata (fst r))))
  /\ (getMemoryName key = hashesName ->
      JsMap.get (cache (fst r)) key = Some (snd r)
      /\ held (fst r) (getMemoryName key)
         = Some (KnowledgeBase.JsonHashes (JsMap.entries (fileHashes (fst r))))).
Proof.
  intros r. split; [|split].
  - intros H1 H2. unfold r, indexFile. cbn [fst snd].
    match goal with
    | |- context [saveMetadata ?i now] =>
        destruct (saveMetadata_other i now (getMemoryName key) H1 H2) as [Hh Hd]
    end.
    rewrite Hh, Hd.
    unfold held, onDisk, KnowledgeBase.store.
    cbn [kb fst KnowledgeBase.memories KnowledgeBase.files].
    change (KnowledgeBase.categoryPath "symbols") with "symbols".
    by rewrite JsMapFacts.get_set_eq, lookup_insert_eq.
  - intros Hm. split.
    + unfold r. rewrite indexFile_cache. apply JsMapFacts.get_set_eq.
    + rewrite Hm. unfold r, indexFile. cbn [fst].
      apply (proj1 (saveMetadata_persisted _ _)).
  - intros Hm. split.
    + unfold r. rewrite indexFile_cache. apply JsMapFacts.get_set_eq.
    + rewrite Hm. unfold r, indexFile. cbn [fst].
      apply (proj1 (proj2 (saveMetadata_persisted _ _))).
Qed.

Lemma indexFile_written_through_witness :
  (held indexedOnce (getMemoryName "a.js")
   = Some (KnowledgeBase.JsonSymbolData
             (snd (@indexFile exampleRuntime fresh (disk "v1") "a.js" payload
                     "/repo" 10)))
   /\ onDisk indexedOnce (getMemoryName "a.js")
      = Some (KnowledgeBase.JsonSymbolData
                (snd (@indexFile exampleRuntime fresh (disk "v1") "a.js" payload
                        "/repo" 10))))
  /\ held (fst (@indexFile exampleRuntime fresh (disk "v1") "index.metadata"
                  payload "/repo" 10)) (getMemoryName "index.metadata")
     = Some (KnowledgeBase.JsonMetadata (mkIndexMetadata None 1 3)).
Proof.
  split.
  - apply (proj1 (indexFile_written_through exampleRuntime fresh (disk "v1")
                    "a.js" payload "/repo" 10)); discriminate.
  - apply (proj2 (proj1 (proj2 (indexFile_written_through exampleRuntime fresh
                    (disk "v1") "index.metadata" payload "/repo" 10)) eq_refl)).
Defined.

Lemma set_absent {V} (m : JsMap.t string V) k v :
  JsMap.get m k = None -> JsMap.set m k v = m ++ [(k, v)].
Proof.
  induction m as [|[k0 v0] m IH]; simpl; [done|].
  destruct (decide (k0 = k)); [discriminate|]. intros Hm. by rewrite IH.
Qed.

Lemma delete_app {V} (m1 m2 : JsMap.t string V) k :
  JsMap.delete (m1 ++ m2) k = JsMap.delete m1 k ++ JsMap.delete m2 k.
Proof.
  induction m1 as [|[k0 v0] m1 IH]; simpl; [done|].
  destruct (decide (k0 = k)); simpl; by rewrite IH.
Qed.

Lemma size_set_present {V} (m : JsMap.t string V) k v :
  is_Some (JsMap.get m k) -> length (JsMap.set m k v) = length m.
Proof.
  induction m as [|[k0 v0] m IH]; simpl.
  - by intros [? ?].
  - destruct (decide (k0 = k)); simpl; [done|]. intros Hm. by rewrite IH.
Qed.

(** X16: every index reached from a new one through [indexFile],
    [invalidate] and [clear] keeps its two maps in step: the hash recorded
    for a path is the hash of the path's cache entry (and none is recorded
    for a path without entry), every entry is filed under its own path with
    the count of its own symbols, and no path has two entries. *)
Theorem reachable_consistent (rt : NodeRuntime)
    (knowledgeBase : KnowledgeBase.t) (idx : t) :
  reachable knowledgeBase idx ->
  consistent idx /\ NoDup (JsMap.keys (cache idx)).
Proof.
  induction 1 as [|idx fs key symbols proj now _ [IH Hnd]
                  |idx key now _ [IH Hnd]
                  |idx now _ _].
  - split; [|constructor]. intros key. split; [done|]. intros e. discriminate.
  - split.
    + intros key'. rewrite indexFile_cache, indexFile_data.
      unfold indexFile. cbn [fst].
      rewrite (proj1 (proj2 (saveMetadata_cache _ _))). cbn [fileHashes].
      destruct (decide (key = key')) as [<-|Hne].
      * rewrite !JsMapFacts.get_set_eq. split; [done|].
        intros e [= <-]. done.
      * rewrite !JsMapFacts.get_set_ne by done. apply IH.
    + rewrite indexFile_cache. by apply JsMapFacts.set_NoDup.
  - split.
    + intros key'. unfold invalidate.
      rewrite (proj1 (saveMetadata_cache _ _)).
      rewrite (proj1 (proj2 (saveMetadata_cache _ _))). cbn [cache fileHashes].
      destruct (decide (key = key')) as [<-|Hne].
      * rewrite !JsMapFacts.get_delete_eq. split; [done|].
        intros e. discriminate.
      * rewrite !JsMapFacts.get_delete_ne by done. apply IH.
    + unfold invalidate. rewrite (proj1 (saveMetadata_cache _ _)).
      cbn [cache]. by apply JsMapFacts.delete_NoDup.
  - split; [|constructor]. intros key. split; [done|]. intros e. discriminate.
Qed.

Lemma reachable_consistent_witness :
  consistent (invalidate indexedOnce "b.js" 11)
  /\ NoDup (JsMap.keys (cache (invalidate indexedOnce "b.js" 11))).
Proof.
  apply (reachable_consistent exampleRuntime KnowledgeBase.init).
  apply reach_invalidate.
  apply (@reach_indexFile exampleRuntime KnowledgeBase.init
           fresh (disk "v1") "a.js" payload "/repo" 10).
  apply reach_create.
Defined.

(** X17: [indexFile] of a path that has no entry appends the path to the
    cache, which grows by one, and [invalidate] of that path then restores
    the cache as it was; [indexFile] of a path that has an entry replaces
    the entry where it stands: the paths, their order and the size of the
    cache are unchanged. *)
Theorem indexFile_cache_size (rt : NodeRuntime) (idx : t) (fs : FileSystem)
    (key : string) (symbols : list Symbol) (proj : string) (now : Timestamp) :
  let r := indexFile idx fs key symbols proj now in
  (JsMap.get (cache idx) key = None ->
   cacheSize (getStats (fst r)) = cacheSize (getStats idx) + 1
   /\ JsMap.keys (cache (fst r)) = JsMap.keys (cache idx) ++ [key]
   /\ forall later, cache (invalidate (fst r) key later) = cache idx)
  /\ (is_Some (JsMap.get (cache idx) key) ->
      cacheSize (getStats (fst r)) = cacheSize (getStats idx)
      /\ JsMap.keys (cache (fst r)) = JsMap.keys (cache idx)).
Proof.
  intros r. unfold r. split.
  - intros Hget. unfold getStats, cacheSize, JsMap.size.
    rewrite indexFile_cache, (set_absent _ _ _ Hget). split; [|split].
    + rewrite length_app. simpl. lia.
    + unfold JsMap.keys. by rewrite map_app.
    + intros later. unfold invalidate.
      rewrite (proj1 (saveMetadata_cache _ _)). cbn [cache].
      rewrite indexFile_cache, (set_absent _ _ _ Hget), delete_app.
      rewrite (JsMapFacts.delete_absent _ _ Hget). simpl.
      rewrite decide_True by done. apply app_nil_r.
  - intros Hget. unfold getStats, cacheSize, JsMap.size.
    rewrite indexFile_cache. split.
    + by rewrite size_set_present.
    + by apply JsMapFacts.keys_set_in.
Qed.

Lemma indexFile_cache_size_witness :
  cacheSize (getStats indexedOnce) = cacheSize (getStats fresh) + 1
  /\ JsMap.keys (cache indexedOnce) = JsMap.keys (cache fresh) ++ ["a.js"]
  /\ cache (invalidate indexedOnce "a.js" 11) = cache fresh.
Proof.
  destruct (proj1 (indexFile_cache_size exampleRuntime fresh (disk "v1") "a.js"
                     payload "/repo" 10) eq_refl) as (H1 & H2 & H3).
  exact (conj H1 (conj H2 (H3 11))).
Defined.

Lemma bump_lookup kind stats k :
  default 0 (bump kind stats !! k)
  = default 0 (stats !! k) + (if kind =? k then 1 else 0).
Proof.
  unfold bump. destruct (Z.eqb_spec kind k) as [->|Hne].
  - by rewrite lookup_insert_eq.
  - rewrite lookup_insert_ne by done. lia.
Qed.

Lemma bump_positive kind stats :
  (forall k v, stats !! k = Some v -> 1 <= v) ->
  0 <= default 0 (stats !! kind) ->
  forall k v, bump kind stats !! k = Some v -> 1 <= v.
Proof.
  intros Hpos H0 k v. unfold bump. destruct (decide (kind = k)) as [->|Hne].
  - rewrite lookup_insert_eq. intros [= <-]. lia.
  - rewrite lookup_insert_ne by done. apply Hpos.
Qed.

Lemma positive_default (stats : gmap Z Z) :
  (forall k v, stats !! k = Some v -> 1 <= v) ->
  forall k, 0 <= default 0 (stats !! k).
Proof.
  intros Hpos k. destruct (stats !! k) as [v|] eqn:Hk; simpl; [|lia].
  specialize (Hpos k v Hk). lia.
Qed.

Lemma countSymbolByKind_node name kind children stats :
  countSymbolByKind (mkSymbol name kind children) stats
  = fold_left (fun st c => countSymbolByKind c st) children (bump kind stats).
Proof. reflexivity. Qed.

Lemma ofKind_app k l1 l2 : ofKind k (l1 ++ l2) = ofKind k l1 + ofKind k l2.
Proof. unfold ofKind. rewrite List.filter_app, length_app. lia. Qed.

Lemma countSymbolByKind_counts k s :
  forall anc stats,
    default 0 (countSymbolByKind s stats !! k)
    = default 0 (stats !! k) + ofKind k (map snd (walk anc s)).
Proof.
  induction s as [name kind children IH] using SearchFacts.Symbol_forest_ind.
  intros anc stats. rewrite countSymbolByKind_node, SearchFacts.walk_node.
  assert (forall st,
            default 0 (fold_left (fun st c => countSymbolByKind c st) children st !! k)
            = default 0 (st !! k)
              + ofKind k (map snd (flat_map (walk (anc ++ [name])) children)))
    as Hchildren.
  { induction IH as [|c l Hc _ IHl]; intros st; simpl.
    - unfold ofKind. simpl. lia.
    - rewrite IHl, (Hc (anc ++ [name])), map_app, ofKind_app. lia. }
  rewrite Hchildren, bump_lookup.
  change (map snd ((anc, mkSymbol name kind children)
                   :: flat_map (walk (anc ++ [name])) children))
    with ([mkSymbol name kind children]
          ++ map snd (flat_map (walk (anc ++ [name])) children)).
  rewrite ofKind_app. unfold ofKind at 2. simpl.
  destruct (kind =? k); simpl; lia.
Qed.

Lemma countSymbolByKind_positive s :
  forall stats,
    (forall k v, stats !! k = Some v -> 1 <= v) ->
    forall k v, countSymbolByKind s stats !! k = Some v -> 1 <= v.
Proof.
  induction s as [name kind children IH] using SearchFacts.Symbol_forest_ind.
  intros stats Hpos. rewrite countSymbolByKind_node.
  assert (forall st,
            (forall k v, st !! k = Some v -> 1 <= v) ->
            forall k v,
              fold_left (fun st c => countSymbolByKind c st) children st !! k
              = Some v -> 1 <= v) as Hchildren.
  { induction IH as [|c l Hc _ IHl]; intros st Hst; simpl; [exact Hst|].
    apply IHl. by apply Hc. }
  apply Hchildren. apply bump_positive; [exact Hpos|].
  by apply positive_default.
Qed.

Lemma countSymbolsByKind_counts k symbols :
  forall stats,
    default 0 (countSymbolsByKind symbols stats !! k)
    = default 0 (stats !! k) + ofKind k (map snd (preorder [] symbols)).
Proof.
  unfold countSymbolsByKind, preorder.
  induction symbols as [|s l IH]; intros stats; simpl.
  - unfold ofKind. simpl. lia.
  - rewrite IH, (countSymbolByKind_counts k s []), map_app, ofKind_app. lia.
Qed.

Lemma countSymbolsByKind_positive symbols :
  forall stats,
    (forall k v, stats !! k = Some v -> 1 <= v) ->
    forall k v, countSymbolsByKind symbols stats !! k = Some v -> 1 <= v.
Proof.
  unfold countSymbolsByKind.
  induction symbols as [|s l IH]; intros stats Hpos; simpl; [exact Hpos|].
  apply IH. by apply countSymbolByKind_positive.
Qed.

(** X18: in the statistics, the number recorded for a kind is the number
    of cached nodes of that kind, over all the cached files and all the
    levels of their trees; a kind is absent from the statistics exactly
    when no cached node has it. *)
Theorem getCategoryStats_counts (idx : t) (kind : Z) :
  default 0 (categories (getStats idx) !! kind) = nodesOfKind kind idx
  /\ (categories (getStats idx) !! kind = None <-> nodesOfKind kind idx = 0).
Proof.
  assert (forall entries stats,
            default 0
              (fold_left (fun stats data => countSymbolsByKind (symbols data) stats)
                 (map snd entries) stats !! kind)
            = default 0 (stats !! kind)
              + ofKind kind
                  (flat_map (fun e : string * SymbolData =>
                               map snd (preorder [] (symbols (snd e)))) entries))
    as Hcount.
  { induction entries as [|e l IH]; intros stats; simpl.
    - unfold ofKind. simpl. lia.
    - rewrite IH, countSymbolsByKind_counts, ofKind_app. lia. }
  assert (forall (entries : list (string * SymbolData)) stats,
            (forall k v, stats !! k = Some v -> 1 <= v) ->
            forall k v,
              fold_left (fun stats data => countSymbolsByKind (symbols data) stats)
                (map snd entries) stats !! k = Some v -> 1 <= v) as Hpos.
  { induction entries as [|e l IH]; intros stats Hst; simpl; [exact Hst|].
    apply IH. by apply countSymbolsByKind_positive. }
  assert (default 0 (categories (getStats idx) !! kind) = nodesOfKind kind idx)
    as Heq.
  { simpl. unfold getCategoryStats, JsMap.values, nodesOfKind, cachedNodes.
    rewrite Hcount. rewrite lookup_empty. simpl. done. }
  split; [exact Heq|]. rewrite <- Heq. simpl.
  destruct (getCategoryStats idx !! kind) as [v|] eqn:Hk; simpl.
  - split; [discriminate|]. intros ->.
    unfold getCategoryStats, JsMap.values in Hk.
    apply Hpos in Hk; [lia|]. intros k v. by rewrite lookup_empty.
  - done.
Qed.

Lemma getCategoryStats_counts_witness :
  nodesOfKind 12 indexedOnce = 0.
Proof.
  apply (proj2 (getCategoryStats_counts indexedOnce 12)). reflexivity.
Defined.

Lemma In_delete {V} (m : JsMap.t string V) k k' v :
  In (k', v) (JsMap.delete m k) <-> In (k', v) m /\ k' <> k.
Proof.
  induction m as [|[k0 v0] m IH]; simpl; [tauto|].
  destruct (decide (k0 = k)) as [->|Hne]; simpl.
  - rewrite IH. split; [tauto|]. intros [[[= -> ->]|Hin] Hk]; [done | tauto].
  - rewrite IH. split.
    + intros [[= -> ->]|[Hin Hk]]; [split; [by left | done] | tauto].
    + intros [[Heq|Hin] Hk]; [by left | tauto].
Qed.

Lemma In_set {V} (m : JsMap.t string V) k v k' v' :
  In (k', v') (JsMap.set m k v) -> (k', v') = (k, v) \/ In (k', v') m.
Proof.
  induction m as [|[k0 v0] m IH]; simpl.
  - intros [Heq|[]]. by left.
  - destruct (decide (k0 = k)); simpl.
    + intros [Heq|Hin]; [by left | right; by right].
    + intros [Heq|Hin]; [right; by left|].
      destruct (IH Hin); [by left | right; by right].
Qed.

Lemma get_In {V} (m : JsMap.t string V) k v :
  JsMap.get m k = Some v -> In (k, v) m.
Proof.
  induction m as [|[k0 v0] m IH]; simpl; [discriminate|].
  destruct (decide (k0 = k)) as [->|Hne].
  - intros [= ->]. by left.
  - intros Hm. right. by apply IH.
Qed.

Lemma fold_delete_memories names :
  forall knowledgeBase k v,
    In (k, v) (KnowledgeBase.memories
                 (fold_left (fun b name => fst (KnowledgeBase.delete b name))
                    names knowledgeBase))
    <-> In (k, v) (KnowledgeBase.memories knowledgeBase) /\ ~ In k names.
Proof.
  induction names as [|name names IH]; intros knowledgeBase k v; simpl.
  - tauto.
  - rewrite IH, KnowledgeBaseFacts.delete_memories, In_delete.
    split; [intros [[? ?] ?] | intros [? ?]]; repeat split; try done.
    + intros [->|?]; done.
    + intros ->. tauto.
    + tauto.
Qed.

Lemma In_listByCategory knowledgeBase category name :
  In name (KnowledgeBase.listByCategory knowledgeBase category)
  <-> exists memory,
        In (name, memory) (KnowledgeBase.memories knowledgeBase)
        /\ KnowledgeBase.mem_category memory = category.
Proof.
  unfold KnowledgeBase.listByCategory, JsMap.entries.
  rewrite in_map_iff. split.
  - intros ([k v] & <- & Hin). apply List.filter_In in Hin as [Hin Hc].
    exists v. split; [done|]. by apply String.eqb_eq.
  - intros (v & Hin & Hc). exists (name, v). split; [done|].
    apply List.filter_In. split; [done|]. by apply String.eqb_eq.
Qed.

(** X19: [clear] empties the index: no cache entry and no file hash is
    left, the statistics are all 0 with no kind recorded, every lookup
    misses, and the only memories of category [symbols] left in the
    knowledge base are the two that hold the (reset) metadata. *)
Theorem clear_empties (rt : NodeRuntime) (idx : t) (now : Timestamp) :
  cache (clear idx now) = []
  /\ fileHashes (clear idx now) = []
  /\ getStats (clear idx now) = mkStats None 0 0 0 ∅
  /\ (forall fs key proj, getSymbols (clear idx now) fs key proj = None)
  /\ (forall fs key proj, needsReindexing (clear idx now) fs key proj = true)
  /\ (forall name,
        In name (KnowledgeBase.listByCategory (kb (clear idx now)) "symbols")
        <-> name = metadataName \/ name = hashesName).
Proof.
  split; [done|]. split; [done|]. split; [done|]. split; [done|].
  split; [done|]. intros name. rewrite In_listByCategory.
  unfold clear, saveMetadata, KnowledgeBase.store.
  cbn [kb fst KnowledgeBase.memories]. split.
  - intros (memory & Hin & Hc).
    apply In_set in Hin as [[= -> _]|Hin]; [by right|].
    apply In_set in Hin as [[= -> _]|Hin]; [by left|].
    apply fold_delete_memories in Hin as [Hin Hnot].
    exfalso. apply Hnot. apply In_listByCategory. by exists memory.
  - intros [-> | ->].
    + eexists. split.
      * apply get_In. rewrite JsMapFacts.get_set_ne by discriminate.
        apply JsMapFacts.get_set_eq.
      * done.
    + eexists. split; [apply get_In, JsMapFacts.get_set_eq | done].
Qed.

Lemma clear_empties_witness :
  In metadataName
    (KnowledgeBase.listByCategory (kb (clear indexedOnce 12)) "symbols").
Proof.
  apply (proj2 (proj2 (proj2 (proj2 (proj2
           (clear_empties exampleRuntime indexedOnce 12)))))).
  by left.
Defined.

End CacheMore.

(** ** More on the search *)

Module SearchMore.
Import SymbolIndex SymbolIndexSpec SymbolIndexRuns Examples SearchFacts.

Lemma lower_ascii_idem c :
  JsString.lower_ascii (JsString.lower_ascii c) = JsString.lower_ascii c.
Proof. destruct c as [[] [] [] [] [] [] [] []]; reflexivity. Qed.

Lemma lowerAscii_idem s :
  JsString.lowerAscii (JsString.lowerAscii s) = JsString.lowerAscii s.
Proof.
  induction s as [|c s IH]; simpl; [done|]. by rewrite lower_ascii_idem, IH.
Qed.

Lemma lower_ascii_ascii c :
  (N_of_ascii c <? 128)%N = true ->
  (N_of_ascii (JsString.lower_ascii c) <? 128)%N = true.
Proof. by destruct c as [[] [] [] [] [] [] [] []]; cbv. Qed.

Lemma lowerAscii_ascii s :
  JsString.isAscii s = true -> JsString.isAscii (JsString.lowerAscii s) = true.
Proof.
  unfold JsString.isAscii. induction s as [|c s IH]; [done|].
  simpl. intros [Hc Hs]%andb_true_iff.
  by rewrite (lower_ascii_ascii c Hc), IH.
Qed.

(** An ASCII query and its lower case have one lower case. *)
Lemma toLowerCase_lowerAscii {U : JsString.Unicode} q :
  JsString.isAscii q = true ->
  JsString.toLowerCase (JsString.lowerAscii q) = JsString.toLowerCase q.
Proof.
  intros Hq.
  rewrite !JsString.toLowerCase_ascii by (done || by apply lowerAscii_ascii).
  apply lowerAscii_idem.
Qed.

Lemma startsWith_refl s : JsString.startsWith s s = true.
Proof.
  induction s as [|c s IH]; simpl; [done|]. by rewrite Ascii.eqb_refl.
Qed.

Lemma includes_refl s : JsString.includes s s = true.
Proof. destruct s; simpl; [done|]. by rewrite Ascii.eqb_refl, startsWith_refl. Qed.

Lemma filter_narrow {A} (p q : A -> bool) l :
  (forall x, p x = true -> q x = true) ->
  sublist (List.filter p l) (List.filter q l).
Proof.
  intros Hpq. induction l as [|x l IH]; simpl; [constructor|].
  destruct (p x) eqn:Hp.
  - rewrite (Hpq x Hp). by constructor.
  - destruct (q x); [by constructor | exact IH].
Qed.

Lemma flat_map_narrow {A B} (f g : A -> list B) l :
  (forall x, sublist (f x) (g x)) -> sublist (flat_map f l) (flat_map g l).
Proof.
  intros Hfg. induction l as [|x l IH]; simpl; [constructor|].
  by apply sublist_app.
Qed.

Lemma selected_narrow {U : JsString.Unicode} kind q s :
  selected (mkSearchOptions kind true) q s = true ->
  selected (mkSearchOptions kind false) q s = true.
Proof.
  unfold selected, matchesName. simpl.
  destruct (String.eqb_spec (JsString.toLowerCase (sym_name s)) q) as [->|];
    [|discriminate].
  by rewrite includes_refl.
Qed.

Lemma selected_unfiltered {U : JsString.Unicode} kind exact q s :
  selected (mkSearchOptions kind exact) q s = true ->
  selected (mkSearchOptions None exact) q s = true.
Proof.
  unfold selected. simpl.
  destruct (matchesName (mkSearchOptions kind exact) q (sym_name s)) eqn:Hm;
    [|discriminate].
  intros _. unfold matchesName in *. simpl in *. by rewrite Hm.
Qed.

Lemma searchSymbols_narrow {U : JsString.Unicode} idx q o o' :
  (forall s, selected o (JsString.toLowerCase q) s = true ->
             selected o' (JsString.toLowerCase q) s = true) ->
  sublist (searchSymbols idx q o) (searchSymbols idx q o').
Proof.
  intros Hsel. rewrite !searchSymbols_walk. apply flat_map_narrow.
  intros e. apply (fmap_sublist _). apply filter_narrow.
  intros p. apply Hsel.
Qed.

(** X20: narrowing the options narrows the result: the exact matches are
    among the substring matches, and the matches under a kind filter are
    among the matches without one, in the same order.  There are never
    more matches than cached nodes and every match is filed under a path
    of the cache.  The result depends on the query through its lower
    case only: two queries with one lower case give one result, and so
    do an ASCII query and the query with its letters [A]-[Z] lowered. *)
Theorem searchSymbols_narrows {U : JsString.Unicode} (idx : t)
    (query : string) (kind : option Z) (exact : bool) :
  sublist (searchSymbols idx query (mkSearchOptions kind true))
          (searchSymbols idx query (mkSearchOptions kind false))
  /\ sublist (searchSymbols idx query (mkSearchOptions kind exact))
             (searchSymbols idx query (mkSearchOptions None exact))
  /\ (length (searchSymbols idx query (mkSearchOptions kind exact))
      <= length (cachedNodes idx))%nat
  /\ Forall (fun m => In (match_filePath m) (JsMap.keys (cache idx)))
       (searchSymbols idx query (mkSearchOptions kind exact))
  /\ (forall query',
        JsString.toLowerCase query' = JsString.toLowerCase query ->
        searchSymbols idx query' (mkSearchOptions kind exact)
        = searchSymbols idx query (mkSearchOptions kind exact))
  /\ (JsString.isAscii query = true ->
      searchSymbols idx (JsString.lowerAscii query)
        (mkSearchOptions kind exact)
      = searchSymbols idx query (mkSearchOptions kind exact)).
Proof.
  split; [|split; [|split; [|split; [|split]]]].
  - apply searchSymbols_narrow. intros s. apply selected_narrow.
  - apply searchSymbols_narrow. intros s. apply selected_unfiltered.
  - rewrite searchSymbols_walk. unfold cachedNodes.
    induction (JsMap.entries (cache idx)) as [|e l IH]; simpl; [done|].
    rewrite !length_app, !length_map.
    pose proof (List.filter_length_le
                  (fun p : list string * Symbol =>
                     selected (mkSearchOptions kind exact)
                       (JsString.toLowerCase query) (snd p))
                  (preorder [] (symbols (snd e)))).
    lia.
  - rewrite searchSymbols_walk. unfold JsMap.keys, JsMap.entries.
    induction (cache idx) as [|e l IH]; simpl; [constructor|].
    apply Forall_app. split.
    + apply Forall_forall. intros m Hm.
      apply list_elem_of_In, in_map_iff in Hm as (p & <- & _). by left.
    + eapply Forall_impl; [exact IH|]. intros m Hm. by right.
  - intros query' Hsame. unfold searchSymbols. by rewrite Hsame.
  - intros Hq. unfold searchSymbols. by rewrite toLowerCase_lowerAscii.
Qed.

Lemma searchSymbols_narrows_witness :
  let U := JsString.asciiOnly in
  searchSymbols indexedOnce "Reset" (mkSearchOptions (Some 6) false)
  = searchSymbols indexedOnce "RESET" (mkSearchOptions (Some 6) false)
  /\ searchSymbols indexedOnce (JsString.lowerAscii "RESET")
       (mkSearchOptions (Some 6) false)
     = searchSymbols indexedOnce "RESET" (mkSearchOptions (Some 6) false).
Proof.
  intros U.
  pose proof (searchSymbols_narrows indexedOnce "RESET" (Some 6) false)
    as (_ & _ & _ & _ & Hsame & Hlower).
  split; [apply Hsame | apply Hlower]; reflexivity.
Defined.

End SearchMore.

(** ** More on the retry loop *)

Module InvokerMore.
Import MCPClientManager InvokerSpec InvokerRuns InvokerFacts.

Section Loop.
Variables (w : World) (s tl : string) (o : Options) (M D : Z).

(** Induction along the turns of the loop. *)
Lemma loop_turns (P : Z -> t -> option Error -> Run -> Prop) :
  (forall a m last, M < a -> P a m last (m, [], throwLast last)) ->
  (forall a m last m1 r,
      a <= M -> tryBody (w a) m s tl o = (m1, inl r) ->
      P a m last (m1, [Attempt a], Returned r)) ->
  (forall a m last m1 e,
      a < M -> tryBody (w a) m s tl o = (m1, inr e) -> isRetryable e = true ->
      P (a + 1) m1 (Some e) (loop w s tl o M D (a + 1) m1 (Some e)) ->
      P a m last (log [Attempt a; Sleep (backoff D a)]
                    (loop w s tl o M D (a + 1) m1 (Some e)))) ->
  (forall a m last m1 e,
      a <= M -> tryBody (w a) m s tl o = (m1, inr e) ->
      (a <? M) && isRetryable e = false ->
      P a m last (m1, [Attempt a],
                  Thrown (if a <? M then e else failedAfter tl a e))) ->
  forall a m last, P a m last (loop w s tl o M D a m last).
Proof.
  intros Hend Hok Hretry Hstop a m last.
  remember (Z.to_nat (M + 1 - a)) as n eqn:Hn.
  revert a m last Hn.
  induction n as [|n IH]; intros a m last Hn; rewrite loop_step.
  - destruct (Z_le_dec a M) as [Hle|Hgt]; [lia|]. apply Hend. lia.
  - destruct (Z_le_dec a M) as [Hle|Hgt]; [|lia].
    destruct (tryBody (w a) m s tl o) as [m1 [r|e]] eqn:Htry.
    + by apply Hok.
    + destruct ((a <? M) && isRetryable e) eqn:Hb.
      * apply andb_true_iff in Hb as [Hlt Hre]. apply Z.ltb_lt in Hlt.
        apply Hretry; [done..|]. apply IH. lia.
      * pose proof (Hstop a m last m1 e Hle Htry Hb) as H.
        destruct (a <? M) eqn:Hlt.
        -- replace (a >=? M) with false; [exact H|].
           symmetry. apply Z.ltb_lt in Hlt. rewrite Z.geb_leb.
           apply Z.leb_gt. lia.
        -- replace (a >=? M) with true; [exact H|].
           symmetry. apply Z.ltb_ge in Hlt. rewrite Z.geb_leb.
           apply Z.leb_le. lia.
Qed.

Lemma loop_schedule a m last :
  exists k : nat,
    Z.of_nat k <= Z.max 0 (M + 1 - a)
    /\ (a <= M -> (1 <= k)%nat)
    /\ trace_of (loop w s tl o M D a m last) = schedule D a k.
Proof.
  apply (loop_turns (fun a m last r =>
           exists k : nat,
             Z.of_nat k <= Z.max 0 (M + 1 - a)
             /\ (a <= M -> (1 <= k)%nat)
             /\ trace_of r = schedule D a k)).
  - clear. intros a m last Ha. exists O. repeat split; [lia | lia].
  - clear. intros a m last m1 r Ha _. exists 1%nat. repeat split; lia.
  - clear. intros a m last m1 e Ha _ _ (k & Hk & Hk1 & Htr).
    exists (S k). split; [lia|]. split; [lia|].
    rewrite trace_log, Htr.
    destruct k as [|k]; [specialize (Hk1 ltac:(lia)); lia|]. done.
  - clear. intros a m last m1 e Ha _ _. exists 1%nat. repeat split; lia.
Qed.

Lemma loop_connected a m last r :
  outcome_of (loop w s tl o M D a m last) = Returned r ->
  JsMap.has (clients (manager_of (loop w s tl o M D a m last))) s = true.
Proof.
  apply (loop_turns (fun a m last run =>
           outcome_of run = Returned r ->
           JsMap.has (clients (manager_of run)) s = true)).
  - clear. intros a m last _. unfold outcome_of. simpl.
    destruct last; discriminate.
  - clear. intros a m last m1 r' _ Htry _. unfold manager_of. simpl.
    unfold tryBody in Htry.
    set (m' := if closed (w a) then onclose m else m) in *.
    unfold JsMap.has.
    destruct (JsMap.get (clients m') s) as [c|] eqn:Hget.
    + injection Htry as <- _. by rewrite Hget.
    + destruct (String.eqb s "serena" && projectPath_set m') eqn:Hs.
      * apply andb_true_iff in Hs as [Hs _]. apply String.eqb_eq in Hs.
        subst s. destruct (connect (w a)); [discriminate|].
        injection Htry as <- _. simpl. by rewrite JsMapFacts.get_set_eq.
      * destruct (String.eqb s "sequential-thinking") eqn:Hq;
          [|discriminate].
        apply String.eqb_eq in Hq. subst s.
        destruct (connect (w a)); [discriminate|].
        injection Htry as <- _. simpl. by rewrite JsMapFacts.get_set_eq.
  - clear. intros a m last m1 e _ _ _ IH.
    destruct (loop w s tl o M D (a + 1) m1 (Some e)) as [[m2 tr] out].
    exact IH.
  - clear. intros a m last m1 e _ _ _. discriminate.
Qed.

End Loop.

Lemma slept_schedule D k :
  forall a, 1 <= a ->
    slept (schedule D a (S k)) = D * 2 ^ (a - 1) * (2 ^ Z.of_nat k - 1).
Proof.
  induction k as [|k IH]; intros a Ha.
  - simpl. lia.
  - change (slept (schedule D a (S (S k))))
      with (backoff D a + slept (schedule D (a + 1) (S k))).
    rewrite IH by lia. unfold backoff.
    replace (a + 1 - 1) with (Z.succ (a - 1)) by lia.
    rewrite Z.pow_succ_r by lia.
    rewrite Nat2Z.inj_succ, Z.pow_succ_r by lia. ring.
Qed.

Lemma attemptsMade_schedule D k :
  forall a, attemptsMade (schedule D a k) = Z.of_nat k.
Proof.
  unfold attemptsMade. induction k as [|k IH]; intros a; [done|].
  destruct k as [|k]; [done|].
  change (schedule D a (S (S k)))
    with (Attempt a :: Sleep (backoff D a) :: schedule D (a + 1) (S k)).
  cbn [List.filter isAttempt length]. rewrite Nat2Z.inj_succ, IH. lia.
Qed.

(** X21: whatever the remote end does, what a call shows is turn 1, the
    delay [baseDelay], turn 2, the delay [2 * baseDelay], and so on up to
    some turn [k]: the turns are numbered from 1 without gaps, there are
    at most [maxRetries] of them and at least one when [maxRetries >= 1],
    a delay only ever stands between two turns and is the backoff of the
    turn before it.  With [maxRetries] below 1 (a negative option) no turn
    is made and [undefined] is thrown; an option of 0 counts as not given
    and stands for 3. *)
Theorem callTool_schedule (w : World) (m : t) (s tl : string) (o : Options) :
  let M := effectiveRetries o in
  let D := effectiveDelay o in
  (exists k : nat,
      Z.of_nat k <= Z.max 0 M
      /\ (1 <= M -> (1 <= k)%nat)
      /\ trace_of (callTool w m s tl o) = schedule D 1 k
      /\ attemptsMade (trace_of (callTool w m s tl o)) = Z.of_nat k)
  /\ (M <= 0 -> callTool w m s tl o = (m, [], ThrownUndefined))
  /\ effectiveRetries (mkOptions (Some 0) (retryDelayMs o) (timeout o)) = 3
  /\ effectiveRetries (mkOptions None (retryDelayMs o) (timeout o)) = 3.
Proof.
  intros M D. split; [|split; [|done]].
  - destruct (loop_schedule w s tl o M D 1 m None) as (k & Hk & Hk1 & Htr).
    exists k.
    change (callTool w m s tl o) with (loop w s tl o M D 1 m None).
    split; [lia|]. split; [intros ?; apply Hk1; lia|]. split; [exact Htr|].
    rewrite Htr. apply attemptsMade_schedule.
  - intros HM. unfold callTool. rewrite loop_step.
    destruct (Z_le_dec 1 (or_number (maxRetries o) 3)) as [Hle|_]; [|done].
    unfold M, effectiveRetries in HM. lia.
Qed.

Lemma callTool_schedule_witness :
  callTool alwaysReset online "serena" "find_symbol"
    (mkOptions (Some (-1)) None None)
  = (online, [], ThrownUndefined).
Proof.
  apply (proj1 (proj2 (callTool_schedule alwaysReset online "serena"
                         "find_symbol" (mkOptions (Some (-1)) None None)))).
  vm_compute. discriminate.
Defined.

(** X22: with a base delay that is not negative, a call that makes [k]
    turns sleeps [baseDelay * (2^(k-1) - 1)] in all, which is at most
    [baseDelay * (2^(maxRetries-1) - 1)]: 3000 ms with the defaults. *)
Theorem callTool_slept (w : World) (m : t) (s tl : string) (o : Options) :
  let M := effectiveRetries o in
  let D := effectiveDelay o in
  let trace := trace_of (callTool w m s tl o) in
  0 <= D -> 1 <= M ->
  slept trace = D * (2 ^ (attemptsMade trace - 1) - 1)
  /\ 0 <= slept trace <= D * (2 ^ (M - 1) - 1).
Proof.
  intros M D trace HD HM.
  destruct (loop_schedule w s tl o M D 1 m None) as (k & Hk & Hk1 & Htr).
  assert (trace = schedule D 1 k) as Hshape by exact Htr.
  rewrite Hshape.
  rewrite attemptsMade_schedule.
  destruct k as [|k]; [specialize (Hk1 HM); lia|].
  rewrite slept_schedule by lia.
  replace (Z.of_nat (S k) - 1) with (Z.of_nat k) by lia.
  change (2 ^ (1 - 1)) with 1. split; [ring|].
  assert (1 <= 2 ^ Z.of_nat k) by (apply Z.pow_le_mono_r with (b := 0); lia).
  assert (2 ^ Z.of_nat k <= 2 ^ (M - 1)) by (apply Z.pow_le_mono_r; lia).
  nia.
Qed.

Lemma callTool_slept_witness :
  let trace := trace_of (callTool alwaysReset online "serena" "find_symbol"
                           (mkOptions None None None)) in
  slept trace = 1000 * (2 ^ (attemptsMade trace - 1) - 1)
  /\ 0 <= slept trace <= 1000 * (2 ^ (3 - 1) - 1).
Proof.
  apply (callTool_slept alwaysReset online "serena" "find_symbol"
           (mkOptions None None None)); vm_compute; discriminate.
Defined.

(** X23: when the turns before [n] failed with retryable errors and turn
    [n] succeeds, the call returns the result of turn [n] after exactly
    [n] turns, with no delay after it; a call that succeeds at once sleeps
    not at all.  With two resets before the answer: three turns, the
    delays 100 and 200, and the answer. *)
Theorem callTool_returns (w : World) (m0 : t) (s tl : string) (o : Options) :
  (forall n m last tr m1 r,
      retried w m0 s tl o n m last tr ->
      n <= effectiveRetries o ->
      tryBody (w n) m s tl o = (m1, inl r) ->
      callTool w m0 s tl o = (m1, tr ++ [Attempt n], Returned r)
      /\ attemptsMade (tr ++ [Attempt n]) = n)
  /\ (forall m1 r,
        1 <= effectiveRetries o ->
        tryBody (w 1) m0 s tl o = (m1, inl r) ->
        callTool w m0 s tl o = (m1, [Attempt 1], Returned r))
  /\ callTool thirdTimeLucky online "serena" "find_symbol"
       (mkOptions (Some 3) (Some 100) None)
     = (online, [Attempt 1; Sleep 100; Attempt 2; Sleep 200; Attempt 3],
        Returned "[]").
Proof.
  assert (forall n m last tr m1 r,
            retried w m0 s tl o n m last tr ->
            n <= effectiveRetries o ->
            tryBody (w n) m s tl o = (m1, inl r) ->
            callTool w m0 s tl o = (m1, tr ++ [Attempt n], Returned r)) as H.
  { intros n m last tr m1 r Hr Hn Htry.
    rewrite (retried_loop _ _ _ _ _ _ _ _ _ Hr), loop_step.
    destruct (Z_le_dec n (effectiveRetries o)) as [_|]; [|lia].
    by rewrite Htry. }
  split; [|split; [|reflexivity]].
  - intros n m last tr m1 r Hr Hn Htry. split; [by eapply H|].
    rewrite attemptsMade_snoc.
    destruct (retried_count _ _ _ _ _ _ _ _ _ Hr) as [_ ->]. lia.
  - intros m1 r HM Htry.
    apply (H 1 m0 None [] m1 r); [constructor | exact HM | exact Htry].
Qed.

Lemma callTool_returns_witness :
  callTool (fun _ => mkTurn false None (fun _ => inl "ok")) online "serena"
    "find_symbol" (mkOptions (Some 1) None (Some 5))
  = (online, [Attempt 1], Returned "ok").
Proof.
  apply (proj1 (proj2 (callTool_returns
           (fun _ => mkTurn false None (fun _ => inl "ok")) online "serena"
           "find_symbol" (mkOptions (Some 1) None (Some 5))))).
  - vm_compute. discriminate.
  - reflexivity.
Defined.

(** X24: when a call returns a result, the manager holds a client for the
    server it called: a call to a server that was not connected returns
    only after a reconnection that succeeded. *)
Theorem callTool_returns_connected (w : World) (m : t) (s tl : string)
    (o : Options) (r : Result) :
  outcome_of (callTool w m s tl o) = Returned r ->
  JsMap.has (clients (manager_of (callTool w m s tl o))) s = true.
Proof. apply loop_connected. Qed.

Lemma callTool_returns_connected_witness :
  JsMap.has
    (clients (manager_of
       (callTool thirdTimeLucky
          (mkManager JsMap.empty JsMap.empty (Some "/repo"))
          "serena" "find_symbol" (mkOptions None None None))))
    "serena" = true.
Proof.
  apply (callTool_returns_connected thirdTimeLucky
           (mkManager JsMap.empty JsMap.empty (Some "/repo"))
           "serena" "find_symbol" (mkOptions None None None) "[]").
  reflexivity.
Defined.

(** X25: a call to a server that has no client and cannot be reconnected
    (a server other than the two known ones, or Serena when no project
    path is known) fails on the first turn with [Not connected to
    <server>]; when that message is not a retryable one and more than one
    turn is allowed, the error is thrown as it is, without a retry. *)
Theorem callTool_not_connected (w : World) (m : t) (s tl : string)
    (o : Options) :
  JsMap.get (clients m) s = None ->
  s <> "sequential-thinking" ->
  (s = "serena" -> projectPath_set m = false) ->
  isRetryable (mkError ("Not connected to " +:+ s)) = false ->
  1 < effectiveRetries o ->
  trace_of (callTool w m s tl o) = [Attempt 1]
  /\ outcome_of (callTool w m s tl o)
     = Thrown (mkError ("Not connected to " +:+ s)).
Proof.
  intros Hget Hq Hserena Hre HM.
  assert (exists m1, tryBody (w 1) m s tl o
                     = (m1, inr (mkError ("Not connected to " +:+ s))))
    as [m1 Htry].
  { unfold tryBody.
    set (m' := if closed (w 1) then onclose m else m).
    assert (JsMap.get (clients m') s = None) as Hget'.
    { unfold m'. destruct (closed (w 1)); [|exact Hget]. simpl.
      destruct (decide (s = "serena")) as [->|Hne].
      - apply JsMapFacts.get_delete_eq.
      - rewrite JsMapFacts.get_delete_ne by done. exact Hget. }
    assert (projectPath_set m' = projectPath_set m) as Hpp
      by (unfold m'; by destruct (closed (w 1))).
    rewrite Hget'.
    destruct (String.eqb_spec s "serena") as [Hs|Hs].
    - rewrite Hpp, (Hserena Hs). simpl.
      destruct (String.eqb_spec s "sequential-thinking"); [done|]. by eexists.
    - simpl. destruct (String.eqb_spec s "sequential-thinking"); [done|].
      by eexists. }
  unfold callTool, trace_of, outcome_of. rewrite loop_step.
  destruct (Z_le_dec 1 (or_number (maxRetries o) 3)) as [_|Hgt];
    [|unfold effectiveRetries in HM; lia].
  rewrite Htry, Hre, andb_false_r.
  replace (1 >=? or_number (maxRetries o) 3) with false; [done|].
  symmetry. rewrite Z.geb_leb. apply Z.leb_gt. exact HM.
Qed.

Lemma callTool_not_connected_witness :
  trace_of (callTool alwaysReset offline "serena" "find_symbol"
              (mkOptions None None None)) = [Attempt 1]
  /\ outcome_of (callTool alwaysReset offline "serena" "find_symbol"
                   (mkOptions None None None))
     = Thrown (mkError "Not connected to serena").
Proof.
  apply (callTool_not_connected alwaysReset offline "serena" "find_symbol"
           (mkOptions None None None)); try reflexivity.
  discriminate.
Defined.

Lemma never_returns w s tl o :
  (forall n m m1 r, tryBody (w n) m s tl o <> (m1, inl r)) ->
  forall m result, outcome_of (callTool w m s tl o) <> Returned result.
Proof.
  intros Hfails m result. unfold callTool.
  apply (loop_turns w s tl o (or_number (maxRetries o) 3)
           (or_number (retryDelayMs o) 1000)
           (fun _ _ _ run => outcome_of run <> Returned result)).
  - intros a m' last _. unfold outcome_of. simpl. by destruct last.
  - intros a m' last m1 r _ Htry. by destruct (Hfails a m' m1 r).
  - intros a m' last m1 e _ _ _ IH.
    destruct (loop w s tl o _ _ (a + 1) m1 (Some e)) as [[m2 tr] out].
    exact IH.
  - intros a m' last m1 e _ _ _. discriminate.
Qed.

Lemma alwaysRefused_fails tool o n m m1 r :
  tryBody (alwaysRefused n) m "serena" tool o <> (m1, inl r).
Proof.
  unfold tryBody. simpl.
  destruct (JsMap.get (clients m) "serena"); [discriminate|].
  destruct (projectPath_set m); simpl; discriminate.
Qed.

End InvokerMore.

(** ** The agent's symbol methods *)

Module AgentFacts.
Import MCPClientManager InvokerSpec InvokerRuns SymbolIndex SymbolIndexSpec.
Import Examples CacheFacts ApolloAgentSymbols.

Section WithRuntime.
Context `{NodeRuntime} `{DiskRuntime} `{JsonRuntime}.

(** [indexFile] with the writes that may fail: the cache is set in every
    case, and the method returns exactly when the three writes succeed;
    it then is [SymbolIndex.indexFile]. *)
Lemma indexFileIO_cache idx fs key payload proj now :
  cache (fst (SymbolIndexIO.indexFile idx fs key payload proj now))
  = JsMap.set (cache idx) key (snd (indexFile idx fs key payload proj now)).
Proof.
  unfold SymbolIndexIO.indexFile, SymbolIndexIO.saveMetadata,
    KnowledgeBaseIO.store.
  change (KnowledgeBaseIO.categoryPath "symbols") with (Some "symbols").
  cbv iota beta.
  destruct (writable "symbols" (getMemoryName key)); [|done].
  destruct (writable "symbols" "_symbol_index_metadata"); [|done].
  by destruct (writable "symbols" "_symbol_file_hashes").
Qed.

Lemma indexFileIO_returns idx fs key payload proj now :
  SymbolIndexIO.writes_succeed key = true ->
  SymbolIndexIO.indexFile idx fs key payload proj now
  = (fst (indexFile idx fs key payload proj now),
     inl (snd (indexFile idx fs key payload proj now))).
Proof.
  unfold SymbolIndexIO.writes_succeed.
  intros [[Hw1 Hw2]%andb_true_iff Hw3]%andb_true_iff.
  unfold SymbolIndexIO.indexFile, SymbolIndexIO.saveMetadata,
    KnowledgeBaseIO.store.
  change (KnowledgeBaseIO.categoryPath "symbols") with (Some "symbols").
  cbv iota beta. rewrite Hw1. cbn [fst snd kb]. rewrite Hw2, Hw3.
  reflexivity.
Qed.

Lemma indexFileIO_throws idx fs key payload proj now :
  SymbolIndexIO.writes_succeed key = false ->
  snd (SymbolIndexIO.indexFile idx fs key payload proj now)
  = inr KnowledgeBaseIO.WriteError.
Proof.
  unfold SymbolIndexIO.writes_succeed.
  unfold SymbolIndexIO.indexFile, SymbolIndexIO.saveMetadata,
    KnowledgeBaseIO.store.
  change (KnowledgeBaseIO.categoryPath "symbols") with (Some "symbols").
  cbv iota beta.
  destruct (writable "symbols" (getMemoryName key)); [|done].
  destruct (writable "symbols" "_symbol_index_metadata"); [|done].
  by destruct (writable "symbols" "_symbol_file_hashes").
Qed.

Lemma getSymbols_same_fingerprint idx fs fs' key proj :
  calculateFileHash fs' (path_join proj key)
  = calculateFileHash fs (path_join proj key) ->
  getSymbols idx fs' key proj = getSymbols idx fs key proj.
Proof. intros Hfp. by rewrite !getSymbols_lookup, Hfp. Qed.

Lemma getFileSymbols_hit agent fs world key now entry :
  getSymbols (symbolIndex agent) fs key (projectPath agent) = Some entry ->
  getFileSymbols agent fs world key false now
  = (agent, [], Symbols (symbols entry)).
Proof. intros Hhit. unfold getFileSymbols. simpl. by rewrite Hhit. Qed.

(** X26: [getFileSymbols] makes no remote call when the cache answers;
    and once it has returned the symbols of a file, fetched or cached,
    every later call for that file returns the same symbols without a
    remote call and without touching the agent, as long as the fingerprint
    of the file is the same. *)
Theorem getFileSymbols_then_cached (agent : ApolloAgentSymbols.t)
    (fs : FileSystem) (world : World) (key : string) (force : bool)
    (now : Timestamp) :
  let r := getFileSymbols agent fs world key force now in
  (forall entry,
      force = false ->
      getSymbols (symbolIndex agent) fs key (projectPath agent) = Some entry ->
      r = (agent, [], Symbols (symbols entry)))
  /\ (forall symbols fs' world' now',
        answer_of r = Symbols symbols ->
        calculateFileHash fs' (path_join (projectPath agent) key)
        = calculateFileHash fs (path_join (projectPath agent) key) ->
        getFileSymbols (agent_of r) fs' world' key false now'
        = (agent_of r, [], Symbols symbols)).
Proof.
  intros r. split.
  - intros entry -> Hhit. by apply getFileSymbols_hit.
  - intros symbols fs' world' now' Hans Hfp. unfold r in *.
    unfold getFileSymbols in Hans |- * at 2 3.
    destruct (if negb force
              then getSymbols (symbolIndex agent) fs key (projectPath agent)
              else None) as [entry|] eqn:Hcached.
    + simpl in Hans. injection Hans as <-. unfold agent_of. simpl.
      apply getFileSymbols_hit.
      destruct force; [discriminate|]. simpl in Hcached.
      by rewrite (getSymbols_same_fingerprint _ fs fs').
    + destruct (callTool world (mcp agent) "serena" overviewTool
                  (mkOptions None None None)) as [[m1 trace] outcome].
      destruct outcome as [result| |]; try discriminate.
      destruct (JsString.truthy result); [|discriminate].
      destruct (parseSymbols result) as [syms|]; [|discriminate].
      pose proof (indexFileIO_cache (symbolIndex agent) fs key syms
                    (projectPath agent) now) as Hcache.
      destruct (SymbolIndexIO.indexFile (symbolIndex agent) fs key syms
                  (projectPath agent) now) as [idx1 [data|error]];
        [|discriminate].
      simpl in Hans. injection Hans as <-. unfold agent_of. cbn [fst].
      rewrite (getFileSymbols_hit _ fs' world' key now'
                 (snd (indexFile (symbolIndex agent) fs key syms
                         (projectPath agent) now))); [done|].
      cbn [symbolIndex projectPath].
      rewrite getSymbols_lookup. apply lookup_Some.
      cbn [fst] in Hcache. rewrite Hcache, JsMapFacts.get_set_eq.
      split; [done|].
      rewrite indexFile_data. simpl. by symmetry.
Qed.

Lemma getFileSymbols_no_result agent fs world key now :
  (forall result,
      outcome_of (callTool world (mcp agent) "serena" overviewTool
                    (mkOptions None None None)) <> Returned result) ->
  getFileSymbols agent fs world key true now
  = (with_mcp agent
       (manager_of (callTool world (mcp agent) "serena" overviewTool
                      (mkOptions None None None))),
     trace_of (callTool world (mcp agent) "serena" overviewTool
                 (mkOptions None None None)),
     Null).
Proof.
  intros Hthrows. unfold getFileSymbols, outcome_of, manager_of, trace_of in *.
  simpl negb. cbv iota.
  destruct (callTool world (mcp agent) "serena" overviewTool
              (mkOptions None None None)) as [[m1 trace] outcome].
  simpl in Hthrows. destruct outcome as [result| |]; [|done|done].
  by destruct (Hthrows result).
Qed.

Lemma getFileSymbols_parsed agent fs world key force now result symbols :
  force = true
  \/ getSymbols (symbolIndex agent) fs key (projectPath agent) = None ->
  outcome_of (callTool world (mcp agent) "serena" overviewTool
                (mkOptions None None None)) = Returned result ->
  JsString.truthy result = true ->
  parseSymbols result = Some symbols ->
  getFileSymbols agent fs world key force now
  = ({| symbolIndex :=
          fst (SymbolIndexIO.indexFile (symbolIndex agent) fs key symbols
                 (projectPath agent) now);
        mcp := manager_of (callTool world (mcp agent) "serena" overviewTool
                             (mkOptions None None None));
        projectPath := projectPath agent |},
     trace_of (callTool world (mcp agent) "serena" overviewTool
                 (mkOptions None None None)),
     match snd (SymbolIndexIO.indexFile (symbolIndex agent) fs key symbols
                  (projectPath agent) now) with
     | inl _ => Symbols symbols
     | inr _ => Null
     end).
Proof.
  intros Hf Hret Htruthy Hparse.
  assert ((if negb force
           then getSymbols (symbolIndex agent) fs key (projectPath agent)
           else None) = None) as Hmiss.
  { destruct Hf as [->|Hm]; [done|]. by destruct force. }
  unfold getFileSymbols, outcome_of, manager_of, trace_of in *.
  rewrite Hmiss.
  destruct (callTool world (mcp agent) "serena" overviewTool
              (mkOptions None None None)) as [[m1 trace] outcome].
  simpl in Hret. subst outcome. rewrite Htruthy, Hparse.
  by destruct (SymbolIndexIO.indexFile _ _ _ _ _ _).
Qed.

(** X27: what [getFileSymbols] does when it does not return symbols.
    When the cache is not consulted or misses and the remote call does
    not return, the answer is [null] after the turns of that call; when
    the result of the call is empty or cannot be parsed, no symbols are
    answered either; in both cases the symbol index is exactly as it
    was.  When the result is parsed, [indexFile] sets the cache before
    it writes to the knowledge base: the answer is the symbols when the
    three writes succeed, and [null] when one of them fails, but the
    cache holds the new entry in both cases, so that after a [null]
    answer of this kind the next call for the file answers the symbols
    from the cache. *)
Theorem getFileSymbols_failure (agent : ApolloAgentSymbols.t)
    (fs : FileSystem) (world : World) (key : string) (force : bool)
    (now : Timestamp) :
  let r := getFileSymbols agent fs world key force now in
  let call := callTool world (mcp agent) "serena" overviewTool
                (mkOptions None None None) in
  let fetched :=
    force = true
    \/ getSymbols (symbolIndex agent) fs key (projectPath agent) = None in
  projectPath (agent_of r) = projectPath agent
  /\ (answer_of r = Undefined -> symbolIndex (agent_of r) = symbolIndex agent)
  /\ (fetched ->
      (forall result, outcome_of call <> Returned result) ->
      answer_of r = Null
      /\ events_of r = trace_of call
      /\ agent_of r = with_mcp agent (manager_of call))
  /\ (forall result,
        fetched ->
        outcome_of call = Returned result ->
        JsString.truthy result = false \/ parseSymbols result = None ->
        (answer_of r = Undefined \/ answer_of r = Null)
        /\ agent_of r = with_mcp agent (manager_of call))
  /\ (forall result symbols,
        fetched ->
        outcome_of call = Returned result ->
        JsString.truthy result = true ->
        parseSymbols result = Some symbols ->
        JsMap.get (cache (symbolIndex (agent_of r))) key
        = Some (snd (indexFile (symbolIndex agent) fs key symbols
                       (projectPath agent) now))
        /\ (SymbolIndexIO.writes_succeed key = true ->
            answer_of r = Symbols symbols
            /\ symbolIndex (agent_of r)
               = fst (indexFile (symbolIndex agent) fs key symbols
                        (projectPath agent) now))
        /\ (SymbolIndexIO.writes_succeed key = false ->
            answer_of r = Null)
        /\ (forall fs' world' now',
              calculateFileHash fs' (path_join (projectPath agent) key)
              = calculateFileHash fs (path_join (projectPath agent) key) ->
              getFileSymbols (agent_of r) fs' world' key false now'
              = (agent_of r, [], Symbols symbols))).
Proof.
  intros r call fetched.
  assert (fetched ->
          (if negb force
           then getSymbols (symbolIndex agent) fs key (projectPath agent)
           else None) = None) as Hfetched.
  { intros [->|Hm]; [done|]. by destruct force. }
  unfold r, call, fetched in *. clear r call fetched.
  unfold answer_of, agent_of, events_of.
  split; [|split; [|split; [|split]]];
    [unfold getFileSymbols, outcome_of, trace_of, manager_of in *..|].
  - destruct (if negb force then _ else None) as [entry|]; [done|].
    destruct (callTool world (mcp agent) "serena" overviewTool
                (mkOptions None None None)) as [[m1 trace] outcome].
    destruct outcome as [result| |]; try done.
    destruct (JsString.truthy result); [|done].
    destruct (parseSymbols result); [|done].
    by destruct (SymbolIndexIO.indexFile _ _ _ _ _ _).
  - destruct (if negb force then _ else None) as [entry|]; [done|].
    destruct (callTool world (mcp agent) "serena" overviewTool
                (mkOptions None None None)) as [[m1 trace] outcome].
    destruct outcome as [result| |]; try done.
    destruct (JsString.truthy result); [|done].
    destruct (parseSymbols result); [|done].
    by destruct (SymbolIndexIO.indexFile _ _ _ _ _ _) as [idx1 [data|error]].
  - intros Hf Hthrows. rewrite (Hfetched Hf).
    destruct (callTool world (mcp agent) "serena" overviewTool
                (mkOptions None None None)) as [[m1 trace] outcome].
    simpl in Hthrows.
    destruct outcome as [result| |]; [|done|done].
    by destruct (Hthrows result).
  - intros result Hf Hret Hbad. rewrite (Hfetched Hf).
    destruct (callTool world (mcp agent) "serena" overviewTool
                (mkOptions None None None)) as [[m1 trace] outcome].
    simpl in Hret. subst outcome.
    destruct Hbad as [->|Hparse]; [by split; [left|]|].
    destruct (JsString.truthy result); [|by split; [left|]].
    rewrite Hparse. by split; [right|].
  - intros result symbols Hf Hret Htruthy Hparse.
    rewrite (getFileSymbols_parsed agent fs world key force now result
               symbols Hf Hret Htruthy Hparse).
    cbn [fst snd symbolIndex].
    pose proof (indexFileIO_cache (symbolIndex agent) fs key symbols
                  (projectPath agent) now) as Hcache.
    pose proof (indexFileIO_returns (symbolIndex agent) fs key symbols
                  (projectPath agent) now) as Hreturns.
    pose proof (indexFileIO_throws (symbolIndex agent) fs key symbols
                  (projectPath agent) now) as Hthrows.
    destruct (SymbolIndexIO.indexFile (symbolIndex agent) fs key symbols
                (projectPath agent) now) as [idx1 outcome].
    cbn [fst snd] in *.
    assert (JsMap.get (cache idx1) key
            = Some (snd (indexFile (symbolIndex agent) fs key symbols
                           (projectPath agent) now))) as Hget
      by (rewrite Hcache; apply JsMapFacts.get_set_eq).
    split; [exact Hget|]. split; [|split].
    + intros Hw. specialize (Hreturns Hw). by injection Hreturns as -> ->.
    + intros Hw. by rewrite (Hthrows Hw).
    + intros fs' world' now' Hfp.
      rewrite (getFileSymbols_hit _ fs' world' key now'
                 (snd (indexFile (symbolIndex agent) fs key symbols
                         (projectPath agent) now))); [done|].
      cbn [symbolIndex projectPath].
      rewrite getSymbols_lookup. apply lookup_Some. split; [exact Hget|].
      rewrite indexFile_data. simpl. by symmetry.
Qed.

Lemma indexLoop_bounds worlds fs now filePaths :
  forall i agent count,
    let r := indexLoop worlds i agent fs filePaths now count in
    failed (snd r) = failed count
    /\ indexed count <= indexed (snd r)
       <= indexed count + Z.of_nat (length filePaths).
Proof.
  induction filePaths as [|filePath rest IH]; intros i agent count; simpl.
  - lia.
  - destruct (needsReindexing (symbolIndex agent) fs filePath
                (projectPath agent)); simpl.
    + destruct (getFileSymbols agent fs (worlds i) filePath true now)
        as [[agent1 trace] answer].
      specialize (IH (S i) agent1
                    {| indexed := indexed count + 1; failed := failed count |}).
      destruct (indexLoop worlds (S i) agent1 fs rest now _)
        as [[agent2 trace2] count2].
      simpl in *. lia.
    + specialize (IH (S i) agent count). simpl in IH. lia.
Qed.

Lemma indexLoop_skips worlds fs now filePaths :
  forall i agent count,
    Forall (fun p => needsReindexing (symbolIndex agent) fs p
                       (projectPath agent) = false) filePaths ->
    indexLoop worlds i agent fs filePaths now count = (agent, [], count).
Proof.
  induction filePaths as [|filePath rest IH]; intros i agent count Hall;
    simpl; [done|].
  apply Forall_cons in Hall as [Hp Hall]. rewrite Hp. simpl. by apply IH.
Qed.

Lemma indexLoop_failing worlds fs now filePaths :
  (forall i m result,
      outcome_of (callTool (worlds i) m "serena" overviewTool
                    (mkOptions None None None)) <> Returned result) ->
  forall i agent count,
    let r := indexLoop worlds i agent fs filePaths now count in
    symbolIndex (fst (fst r)) = symbolIndex agent
    /\ indexed (snd r)
       = indexed count
         + Z.of_nat (length (List.filter
                               (fun p => needsReindexing (symbolIndex agent) fs p
                                           (projectPath agent)) filePaths)).
Proof.
  intros Hfail.
  induction filePaths as [|filePath rest IH]; intros i agent count; simpl.
  - split; [done | lia].
  - destruct (needsReindexing (symbolIndex agent) fs filePath
                (projectPath agent)); simpl.
    + rewrite (getFileSymbols_no_result agent fs (worlds i) filePath now)
        by apply Hfail.
      specialize (IH (S i)
                    (with_mcp agent
                       (manager_of (callTool (worlds i) (mcp agent) "serena"
                                      overviewTool (mkOptions None None None))))
                    {| indexed := indexed count + 1; failed := failed count |}).
      destruct (indexLoop worlds (S i) _ fs rest now _)
        as [[agent2 trace2] count2].
      simpl in *. destruct IH as [-> ->]. split; [done|].
      rewrite Nat2Z.inj_succ. lia.
    + apply IH.
Qed.

(** X28: [indexFiles] never counts a failure: [failed] is 0 and [indexed]
    is at most the number of paths.  When no path needs re-indexing no
    remote call is made and nothing changes.  When every remote call
    fails, the symbol index and its statistics are unchanged, and yet
    [indexed] is the number of paths that needed re-indexing: a file whose
    fetch failed is counted as indexed. *)
Theorem indexFiles_counts (worlds : nat -> World)
    (agent : ApolloAgentSymbols.t) (fs : FileSystem)
    (filePaths : list string) (now : Timestamp) :
  let r := indexFiles worlds agent fs filePaths now in
  let needs p :=
    needsReindexing (symbolIndex agent) fs p (projectPath agent) in
  failed (fst (snd r)) = 0
  /\ 0 <= indexed (fst (snd r)) <= Z.of_nat (length filePaths)
  /\ (Forall (fun p => needs p = false) filePaths ->
      r = (agent, [], (mkIndexed 0 0, getStats (symbolIndex agent))))
  /\ ((forall i m result,
         outcome_of (callTool (worlds i) m "serena" overviewTool
                       (mkOptions None None None)) <> Returned result) ->
      symbolIndex (fst (fst r)) = symbolIndex agent
      /\ snd (snd r) = getStats (symbolIndex agent)
      /\ indexed (fst (snd r))
         = Z.of_nat (length (List.filter needs filePaths))).
Proof.
  intros r needs. unfold r, indexFiles.
  pose proof (indexLoop_bounds worlds fs now filePaths 0%nat agent
                (mkIndexed 0 0)) as Hb.
  split; [|split; [|split]].
  - destruct (indexLoop worlds 0 agent fs filePaths now _)
      as [[agent1 trace] count]. simpl in *. tauto.
  - destruct (indexLoop worlds 0 agent fs filePaths now _)
      as [[agent1 trace] count]. simpl in *. lia.
  - intros Hall. by rewrite indexLoop_skips.
  - intros Hfail.
    pose proof (indexLoop_failing worlds fs now filePaths Hfail 0%nat agent
                  (mkIndexed 0 0)) as Hf.
    destruct (indexLoop worlds 0 agent fs filePaths now _)
      as [[agent1 trace] count]. simpl in *.
    destruct Hf as [-> ->]. done.
Qed.

End WithRuntime.

Lemma getFileSymbols_then_cached_witness :
  let agent := mkAgent fresh online "/repo" in
  let r := @getFileSymbols exampleRuntime exampleVolume exampleJson agent (disk "v1")
             (fun _ => mkTurn false None (fun _ => inl "[Parser]"))
             "a.js" false 10 in
  @getFileSymbols exampleRuntime exampleVolume exampleJson (agent_of r) (disk "v1")
    alwaysRefused "a.js" false 11
  = (agent_of r, [], Symbols payload).
Proof.
  intros agent r.
  apply (proj2 (@getFileSymbols_then_cached exampleRuntime exampleVolume exampleJson agent
                  (disk "v1")
                  (fun _ => mkTurn false None (fun _ => inl "[Parser]"))
                  "a.js" false 10)); reflexivity.
Defined.

Lemma getFileSymbols_failure_witness :
  let agent := mkAgent fresh online "/repo" in
  let answers : World :=
    fun _ => mkTurn false None (fun _ => inl "[Parser]") in
  let r := @getFileSymbols exampleRuntime exampleVolume exampleJson agent
             (disk "v1") answers longPath false 10 in
  (answer_of r = Null
   /\ @getFileSymbols exampleRuntime exampleVolume exampleJson (agent_of r)
        (disk "v1") alwaysRefused longPath false 11
      = (agent_of r, [], Symbols payload))
  /\ (let failed := @getFileSymbols exampleRuntime exampleVolume exampleJson
                      agent (disk "v1") alwaysRefused "a.js" true 10 in
      answer_of failed = Null
      /\ events_of failed = [Attempt 1]
      /\ agent_of failed = agent).
Proof.
  intros agent answers r. split.
  - destruct (proj2 (proj2 (proj2 (proj2
                (@getFileSymbols_failure exampleRuntime exampleVolume
                   exampleJson agent (disk "v1") answers longPath false 10))))
                "[Parser]" payload (or_intror eq_refl) eq_refl eq_refl eq_refl)
      as (_ & _ & Hnull & Hnext).
    split; [by apply Hnull | by apply Hnext].
  - destruct (proj1 (proj2 (proj2 (@getFileSymbols_failure exampleRuntime
                exampleVolume exampleJson agent (disk "v1") alwaysRefused
                "a.js" true 10)))
                (or_introl eq_refl)
                ltac:(intros result; vm_compute; discriminate))
      as (H1 & H2 & H3).
    exact (conj H1 (conj H2 H3)).
Defined.

Lemma indexFiles_counts_witness :
  let agent := mkAgent fresh online "/repo" in
  let r := @indexFiles exampleRuntime exampleVolume exampleJson (fun _ => alwaysRefused)
             agent (disk "v1") ["a.js"; "b.js"] 10 in
  symbolIndex (fst (fst r)) = fresh
  /\ snd (snd r) = getStats fresh
  /\ indexed (fst (snd r)) = 2.
Proof.
  intros agent r.
  apply (proj2 (proj2 (proj2 (@indexFiles_counts exampleRuntime exampleVolume exampleJson
           (fun _ => alwaysRefused) agent (disk "v1") ["a.js"; "b.js"] 10)))).
  intros i m result.
  apply InvokerMore.never_returns. apply InvokerMore.alwaysRefused_fails.
Defined.

Lemma invalidate_fold now filePaths :
  forall idx,
    let idx' := fold_left (fun i p => invalidate i p now) filePaths idx in
    (forall key, In key filePaths -> JsMap.get (cache idx') key = None)
    /\ (forall key, ~ In key filePaths ->
                    JsMap.get (cache idx') key = JsMap.get (cache idx) key)
    /\ (filePaths <> [] ->
        filesIndexed (indexMetadata idx')
        = Z.max 0 (filesIndexed (indexMetadata idx)
                   - Z.of_nat (length filePaths))).
Proof.
  induction filePaths as [|p rest IH]; intros idx; cbn [fold_left].
  - split; [simpl; tauto|]. split; done.
  - destruct (IH (invalidate idx p now)) as (Hin & Hout & Hcount).
    assert (filesIndexed (indexMetadata (invalidate idx p now))
            = Z.max 0 (filesIndexed (indexMetadata idx) - 1)) as Hone by done.
    split; [|split].
    + intros key [<-|Hk]; [|by apply Hin].
      destruct (in_dec string_dec p rest) as [Hp|Hp]; [by apply Hin|].
      rewrite (Hout p Hp). unfold invalidate.
      rewrite (proj1 (saveMetadata_cache _ _)). cbn [cache].
      apply JsMapFacts.get_delete_eq.
    + intros key Hk. rewrite Hout by (intros ?; apply Hk; by right).
      unfold invalidate.
      rewrite (proj1 (saveMetadata_cache _ _)). cbn [cache].
      apply JsMapFacts.get_delete_ne. intros ->. apply Hk. by left.
    + intros _. destruct rest as [|q rest].
      * cbn [fold_left length]. rewrite Hone. lia.
      * rewrite Hcount by done. rewrite Hone.
        cbn [length]. rewrite !Nat2Z.inj_succ. lia.
Qed.

(** X29: after [invalidateSymbolCache] none of the given paths has a
    cache entry and every lookup for them misses, the other paths keep
    their entries, and [filesIndexed] has gone down by the number of paths
    given (not below 0), whether or not they were cached and however often
    a path is repeated. *)
Theorem invalidateSymbolCache_misses (rt : NodeRuntime)
    (agent : ApolloAgentSymbols.t) (filePaths : list string)
    (now : Timestamp) :
  let idx := symbolIndex agent in
  let idx' := symbolIndex (invalidateSymbolCache agent filePaths now) in
  Forall (fun key => forall fs proj, getSymbols idx' fs key proj = None)
    filePaths
  /\ (forall key, ~ In key filePaths ->
                  JsMap.get (cache idx') key = JsMap.get (cache idx) key)
  /\ (filePaths <> [] ->
      stats_filesIndexed (getStats idx')
      = Z.max 0 (stats_filesIndexed (getStats idx)
                 - Z.of_nat (length filePaths))).
Proof.
  intros idx idx'.
  destruct (invalidate_fold now filePaths idx) as (Hin & Hout & Hcount).
  split; [|split].
  - apply Forall_forall. intros key Hk fs proj.
    rewrite getSymbols_lookup. apply lookup_None. left.
    apply Hin. by apply list_elem_of_In.
  - exact Hout.
  - exact Hcount.
Qed.

Lemma invalidateSymbolCache_misses_witness :
  stats_filesIndexed
    (getStats (symbolIndex (invalidateSymbolCache
                              (mkAgent indexedOnce InvokerSpec.online "/repo")
                              ["b.js"; "b.js"] 12)))
  = Z.max 0 (stats_filesIndexed (getStats indexedOnce) - 2).
Proof.
  apply (proj2 (proj2 (invalidateSymbolCache_misses exampleRuntime
           (mkAgent indexedOnce InvokerSpec.online "/repo")
           ["b.js"; "b.js"] 12))).
  discriminate.
Defined.

End AgentFacts.
